(** * distributed_embeddings: the sharding planner, the resharding protocol,
      the weight transfer and the gradient routing of
      [distributed_embeddings/python/layers/dist_model_parallel.py],
      as a shallow embedding.

    Python integers are [Z]; values produced by [range], [enumerate] and
    [len] (always non-negative) are [nat].  A function that can raise
    returns a [result]; a [while] loop is run with fuel and yields
    [Diverge] when the fuel is used up. *)

From Stdlib Require Import String DecimalString ZArith List Lia Bool QArith
  Permutation Sorted Arith.
Import ListNotations.
Open Scope Z_scope.

(** ** Exceptions and results *)

Inductive exn : Type :=
| ValueError (msg : string)
| NameError (name : string)
| AttributeError (name : string)
| IndexError
| ZeroDivisionError
| NotImplementedError (msg : string)
| InvalidArgumentError.

Inductive result (A : Type) : Type :=
| Ok (a : A)
| Raise (e : exn)
| Diverge.

Arguments Ok {A} a.
Arguments Raise {A} e.
Arguments Diverge {A}.

Definition bind {A B : Type} (r : result A) (k : A -> result B) : result B :=
  match r with
  | Ok a => k a
  | Raise e => Raise e
  | Diverge => Diverge
  end.

Notation "x <- e ;; k" := (bind e (fun x => k))
  (at level 61, e at next level, right associativity).
Notation "' p <- e ;; k" := (bind e (fun p => k))
  (at level 61, p pattern, e at next level, right associativity).

(** A computation that uses up any amount of fuel: the loop never ends. *)
Definition diverges {A : Type} (run : nat -> result A) : Prop :=
  forall fuel, run fuel = Diverge.

(** [for x in xs: acc = body(acc, x)], where the body can raise. *)
Fixpoint foldM {A S : Type} (body : S -> A -> result S) (xs : list A) (acc : S)
  : result S :=
  match xs with
  | [] => Ok acc
  | x :: xs' => acc' <- body acc x ;; foldM body xs' acc'
  end.

(** [[f(x) for x in xs]], where [f] can raise. *)
Fixpoint mapM {A B : Type} (f : A -> result B) (xs : list A) : result (list B) :=
  match xs with
  | [] => Ok []
  | x :: xs' => y <- f x ;; ys <- mapM f xs' ;; Ok (y :: ys)
  end.

(** ** Python list primitives *)

Module Py.

(** [l[i]] for a Python integer [i]: negative indices count from the end. *)
Definition getitem {A : Type} (l : list A) (i : Z) : result A :=
  let n := Z.of_nat (length l) in
  let j := if i <? 0 then i + n else i in
  if (j <? 0) || (n <=? j) then Raise IndexError
  else match nth_error l (Z.to_nat j) with
       | Some x => Ok x
       | None => Raise IndexError
       end.

(** [l[i]] for an index that comes from [range] or [enumerate]. *)
Definition getnat {A : Type} (l : list A) (i : nat) : result A :=
  match nth_error l i with
  | Some x => Ok x
  | None => Raise IndexError
  end.

(** [range(n)] for a Python integer [n]. *)
Definition range (n : Z) : list Z := map Z.of_nat (seq 0 (Z.to_nat n)).

(** [enumerate(l)]. *)
Definition enumerate {A : Type} (l : list A) : list (nat * A) :=
  combine (seq 0 (length l)) l.

(** [l[start::step]]: [skip] elements are dropped before the next one is
    kept, and [step - 1] after each kept one. *)
Fixpoint every {A : Type} (step skip : nat) (l : list A) : list A :=
  match l with
  | [] => []
  | x :: l' =>
      match skip with
      | O => x :: every step (step - 1) l'
      | S k => every step k l'
      end
  end.

Definition stride {A : Type} (l : list A) (start step : nat) : list A :=
  every step start l.

(** [l[:n]] and [l[n:]] for [n >= 0] are [firstn] and [skipn];
    [l[start:stop]] is their composition. *)
Definition slice {A : Type} (l : list A) (start stop : nat) : list A :=
  firstn (stop - start) (skipn start l).

(** [l.count(x)] on a list of naturals. *)
Definition count (l : list nat) (x : nat) : nat :=
  length (filter (Nat.eqb x) l).

(** [sum(l)]. *)
Definition sum (l : list Z) : Z := fold_right Z.add 0 l.
Definition sumn (l : list nat) : nat := fold_right Nat.add 0%nat l.

(** [sorted(l)]: Python's sort is stable; so is insertion from the right,
    where an element goes in front of the first one it does not exceed. *)
Section Sorting.
Context {A : Type} (leb : A -> A -> bool).

Fixpoint insert (x : A) (l : list A) : list A :=
  match l with
  | [] => [x]
  | y :: l' => if leb x y then x :: l else y :: insert x l'
  end.

Definition sorted (l : list A) : list A := fold_right insert [] l.

(** [sorted(l, reverse=True)] keeps equal elements in their original order. *)
Definition sorted_reverse (l : list A) : list A := rev (sorted (rev l)).

End Sorting.

(** Orders Python uses on the values that are sorted here: tuples and lists
    compare lexicographically. *)
Fixpoint list_leb (l1 l2 : list nat) : bool :=
  match l1, l2 with
  | [], _ => true
  | _ :: _, [] => false
  | x :: l1', y :: l2' =>
      if (x <? y)%nat then true
      else if (y <? x)%nat then false
      else list_leb l1' l2'
  end.

Definition pair_leb (p q : Z * nat) : bool :=
  if fst p <? fst q then true
  else if fst q <? fst p then false
  else (snd p <=? snd q)%nat.

Definition natpair_leb (p q : nat * nat) : bool :=
  if (fst p <? fst q)%nat then true
  else if (fst q <? fst p)%nat then false
  else (snd p <=? snd q)%nat.

Definition load_leb (p q : Z * list nat) : bool :=
  if fst p <? fst q then true
  else if fst q <? fst p then false
  else list_leb (snd p) (snd q).

End Py.

(** ** Embedding configs *)

(** The dict returned by [Embedding.get_config()]: the two keys the planner
    reads and writes, and the remaining items, which it only copies. *)
Record Config : Type := mkConfig {
  input_dim : Z;
  output_dim : Z;
  attributes : list (string * string)
}.

Definition set_output_dim (c : Config) (w : Z) : Config :=
  mkConfig (input_dim c) w (attributes c).

Definition set_attribute (c : Config) (k v : string) : Config :=
  mkConfig (input_dim c) (output_dim c) ((k, v) :: attributes c).

Definition elements (c : Config) : Z := input_dim c * output_dim c.

(** ** DistEmbeddingStrategy *)

(** [column_slice_threshold] after line 113: an integer or [float('inf')]. *)
Definition exceeds (table_size : Q) (column_slice_threshold : option Z) : bool :=
  match column_slice_threshold with
  | None => false
  | Some t => negb (Qle_bool table_size (inject_Z t))
  end.

(** The [while] loop of [maybe_slice_table_column].  [table_size /= 2] is a
    true division; binary64 agrees with the exact quotient used here as long
    as [table_size] is below [2^53] and the threshold is at least 1. *)
Fixpoint halve_until_fits (fuel : nat) (column_slice_threshold : option Z)
  (num_slices : Z) (table_size : Q) : result Z :=
  if exceeds table_size column_slice_threshold then
    match fuel with
    | O => Diverge
    | S fuel' =>
        halve_until_fits fuel' column_slice_threshold
          (num_slices * 2) (table_size / 2)%Q
    end
  else Ok num_slices.

(** The part of [maybe_slice_table_column] that follows the loop. *)
Definition slice_columns (orig_config : Config) (num_slices : Z) (world_size : nat)
  : result (list Config) :=
  if num_slices =? 1 then Ok [orig_config]
  else
    let num_slices :=
      Z.min (Z.min num_slices (Z.of_nat world_size)) (output_dim orig_config) in
    if num_slices =? 0 then Raise ZeroDivisionError
    else
      let column_per_slice := output_dim orig_config / num_slices in
      let remainder := output_dim orig_config mod num_slices in
      Ok (map (fun i =>
                 set_output_dim orig_config
                   (if i <? remainder then column_per_slice + 1
                    else column_per_slice))
              (Py.range num_slices)).

Definition maybe_slice_table_column (fuel : nat) (orig_config : Config)
  (column_slice_threshold : option Z) (world_size : nat) : result (list Config) :=
  let table_size := inject_Z (input_dim orig_config * output_dim orig_config) in
  num_slices <- halve_until_fits fuel column_slice_threshold 1 table_size ;;
  slice_columns orig_config num_slices world_size.

(** Fuel that lets the loop of [maybe_slice_table_column] finish on a
    config, for any threshold that is at least 1. *)
Definition enough_fuel (c : Config) : nat := Z.to_nat (Z.log2_up (elements c)).

(** The widths of a list of slices. *)
Definition widths (slices : list Config) : list Z := map output_dim slices.

(** The second loop of [create_sliced_configs]. *)
Fixpoint out_ranges (sliced_configs : list (list Config))
  (inputs : list (nat * Z)) : result (list (nat * nat)) :=
  match inputs with
  | [] => Ok []
  | (input_id, table_id) :: rest =>
      slices <- Py.getitem sliced_configs table_id ;;
      ranges <- out_ranges sliced_configs rest ;;
      Ok (if (1 <? length slices)%nat
          then (input_id, (input_id + length slices)%nat) :: ranges
          else ranges)
  end.

Definition create_sliced_configs (fuel : nat) (global_configs : list Config)
  (world_size : nat) (column_slice_threshold : option Z) (input_table_map : list Z)
  : result (list (list Config) * list (nat * nat)) :=
  sliced_configs <-
    mapM (fun global_config =>
            maybe_slice_table_column fuel global_config column_slice_threshold
              world_size)
         global_configs ;;
  sliced_out_ranges <- out_ranges sliced_configs (Py.enumerate input_table_map) ;;
  Ok (sliced_configs, sliced_out_ranges).

(** The first loop of [apply_stragety]: one id and one size per slice. *)
Definition flatten_ids (sliced_configs : list (list Config)) : list nat :=
  flat_map (fun '(i, sliced_config) => map (fun _ => i) sliced_config)
           (Py.enumerate sliced_configs).

Definition flatten_sizes (sliced_configs : list (list Config)) : list Z :=
  flat_map (fun '(i, sliced_config) => map elements sliced_config)
           (Py.enumerate sliced_configs).

(** The [while sorted_pairs] loop of the memory_optimized branch.  The list
    is consumed from its end ([pop()]); [res] is a list of [[total, ids]]. *)
Definition add_to_first (cur : Z * nat) (res : list (Z * list nat))
  : result (list (Z * list nat)) :=
  match res with
  | [] => Raise IndexError
  | (total, ids) :: others => Ok ((total + fst cur, ids ++ [snd cur]) :: others)
  end.

Fixpoint greedy (reversed_pairs : list (Z * nat)) (res : list (Z * list nat))
  : result (list (Z * list nat)) :=
  match reversed_pairs with
  | [] => Ok res
  | cur :: rest =>
      res' <- add_to_first cur res ;;
      greedy rest (Py.sorted Py.load_leb res')
  end.

Definition memory_optimized_loads (world_size : nat)
  (table_sizes : list Z) (global_ids : list nat) : result (list (Z * list nat)) :=
  let sorted_pairs := Py.sorted Py.pair_leb (combine table_sizes global_ids) in
  greedy (rev sorted_pairs) (repeat (0, []) world_size).

(** Names visible where the f-string of the last branch of [apply_stragety]
    is evaluated: the parameters and locals of the function, then the
    module's globals. *)
Definition apply_stragety_locals : list string :=
  ["self"; "mode"; "world_size"; "sliced_configs"; "global_ids"; "table_sizes";
   "i"; "sliced_config"; "config"]%string.

Definition module_globals : list string :=
  ["math"; "np"; "tf"; "tf_utils"; "hvd"; "read_var_no_copy"; "Embedding";
   "DistEmbeddingStrategy"; "DistributedEmbedding"; "broadcast_variables";
   "DistributedGradientTape"]%string.

Definition name_bound (scope : list string) (name : string) : bool :=
  existsb (String.eqb name) scope.

Definition apply_stragety (mode : string) (world_size : nat)
  (sliced_configs : list (list Config)) : result (list (list nat)) :=
  let global_ids := flatten_ids sliced_configs in
  let table_sizes := flatten_sizes sliced_configs in
  if String.eqb mode "basic" then
    Ok (map (fun i => Py.stride global_ids i world_size) (seq 0 world_size))
  else if String.eqb mode "memory_balanced" then
    let sorted_ids :=
      map snd (Py.sorted_reverse Py.pair_leb (combine table_sizes global_ids)) in
    Ok (map (fun i =>
               Py.stride sorted_ids i (2 * world_size)
               ++ Py.stride sorted_ids (2 * world_size - 1 - i) (2 * world_size))
            (seq 0 world_size))
  else if String.eqb mode "memory_optimized" then
    res <- memory_optimized_loads world_size table_sizes global_ids ;;
    Ok (map snd res)
  else
    if name_bound (apply_stragety_locals ++ module_globals) "strategy"
    then Raise (ValueError ("Unsupported strategy " ++ mode))
    else Raise (NameError "strategy").

(** [l[i] = v] for an index in range. *)
Fixpoint setitem {A : Type} (l : list A) (i : nat) (v : A) : list A :=
  match l, i with
  | [], _ => []
  | _ :: l', O => v :: l'
  | x :: l', S i' => x :: setitem l' i' v
  end.

(** [sliced_configs[table_idx].pop(0)]: the popped config and the list that
    remains. *)
Definition pop_slice (sliced_configs : list (list Config)) (table_idx : nat)
  : result (Config * list (list Config)) :=
  match nth_error sliced_configs table_idx with
  | Some (c :: rest) => Ok (c, setitem sliced_configs table_idx rest)
  | Some [] => Raise IndexError
  | None => Raise IndexError
  end.

(** The four lists [__init__] fills for one rank. *)
Record rank_stats : Type := mkStats {
  rank_widths : list Z;
  rank_input_ids : list nat;
  rank_input_map : list nat;
  rank_configs : list Config
}.

(** [for k, mapped_idx in enumerate(input_table_map)], lines 75-79. *)
Definition scan_inputs (m table_idx : nat) (width : Z) (input_table_map : list Z)
  (acc : rank_stats) : rank_stats :=
  fold_left
    (fun acc '(k, mapped_idx) =>
       if Z.of_nat table_idx =? mapped_idx then
         mkStats (rank_widths acc ++ [width]) (rank_input_ids acc ++ [k])
                 (rank_input_map acc ++ [m]) (rank_configs acc)
       else acc)
    (Py.enumerate input_table_map) acc.

(** [for m, table_idx in enumerate(rank_table_ids)], lines 73-79. *)
Definition rank_step (input_table_map : list Z)
  (st : list (list Config) * rank_stats) (entry : nat * nat)
  : result (list (list Config) * rank_stats) :=
  let '(sliced_configs, acc) := st in
  let '(m, table_idx) := entry in
  '(c, sliced_configs') <- pop_slice sliced_configs table_idx ;;
  let acc' := mkStats (rank_widths acc) (rank_input_ids acc) (rank_input_map acc)
                      (rank_configs acc ++ [c]) in
  Ok (sliced_configs', scan_inputs m table_idx (output_dim c) input_table_map acc').

(** The lists [__init__] fills over all ranks. *)
Record global_stats : Type := mkGlobal {
  g_input_ids_list : list (list nat);
  g_local_map_list : list (list nat);
  g_local_configs_list : list (list Config);
  g_widths_list_flat : list Z
}.

(** [for rank_table_ids in self.table_ids_list], lines 70-83. *)
Definition worker_step (input_table_map : list Z)
  (st : list (list Config) * global_stats) (rank_table_ids : list nat)
  : result (list (list Config) * global_stats) :=
  let '(sliced_configs, g) := st in
  '(sliced_configs', r) <-
    foldM (rank_step input_table_map) (Py.enumerate rank_table_ids)
          (sliced_configs, mkStats [] [] [] []) ;;
  Ok (sliced_configs',
      mkGlobal (g_input_ids_list g ++ [rank_input_ids r])
               (g_local_map_list g ++ [rank_input_map r])
               (g_local_configs_list g ++ [rank_configs r])
               (g_widths_list_flat g ++ rank_widths r)).

(** Lines 88-95: the permutation that sorts the worker-ordered input ids. *)
Definition reverse_ids (input_ids_list : list (list nat)) : list nat :=
  let worker_order_input_ids := concat input_ids_list in
  map snd
    (Py.sorted Py.natpair_leb
       (combine worker_order_input_ids (seq 0 (length worker_order_input_ids)))).

(** The attributes of a [DistEmbeddingStrategy] object.  Those that the
    single-worker path of [__init__] never sets are optional. *)
Record Strategy : Type := mkStrategy {
  global_configs : list Config;
  strategy : string;
  local_configs : list Config;
  local_input_table_map : list Z;
  input_ids_list : list (list nat);
  table_ids_list : list (list nat);
  sliced_out_ranges : option (list (nat * nat));
  local_map_list : option (list (list nat));
  local_configs_list : option (list (list Config));
  widths_list_flat : option (list Z);
  rev_global_input_ids : option (list nat)
}.

(** Reading an attribute. *)
Definition attr {A : Type} (name : string) (field : option A) : result A :=
  match field with
  | Some v => Ok v
  | None => Raise (AttributeError name)
  end.

(** [DistEmbeddingStrategy.__init__]; [embeddings] are given by their configs. *)
Definition DistEmbeddingStrategy_init (fuel : nat) (embeddings : list Config)
  (world_size rank : nat) (strategy : string) (input_table_map : option (list Z))
  (column_slice_threshold : option Z) : result Strategy :=
  let global_configs := embeddings in
  let input_table_map :=
    match input_table_map with
    | None => Py.range (Z.of_nat (length embeddings))
    | Some m => m
    end in
  if (world_size =? 1)%nat then
    Ok (mkStrategy global_configs strategy global_configs input_table_map
          [seq 0 (length input_table_map)] [seq 0 (length embeddings)]
          None None None None None)
  else
    '(sliced_configs, sliced_out_ranges) <-
      create_sliced_configs fuel global_configs world_size column_slice_threshold
        input_table_map ;;
    table_ids_list <- apply_stragety strategy world_size sliced_configs ;;
    '(_, g) <- foldM (worker_step input_table_map) table_ids_list
                 (sliced_configs, mkGlobal [] [] [] []) ;;
    local_input_table_map <- Py.getnat (g_local_map_list g) rank ;;
    let rev_global_input_ids := reverse_ids (g_input_ids_list g) in
    local_configs <- Py.getnat (g_local_configs_list g) rank ;;
    Ok (mkStrategy global_configs strategy local_configs
          (map Z.of_nat local_input_table_map)
          (g_input_ids_list g) table_ids_list
          (Some sliced_out_ranges) (Some (g_local_map_list g))
          (Some (g_local_configs_list g)) (Some (g_widths_list_flat g))
          (Some rev_global_input_ids)).

(** ** DistributedEmbedding: construction *)

Definition supported_strategies : list string :=
  ["basic"; "memory_balanced"; "memory_optimized"]%string.

(** The attributes of a [DistributedEmbedding] layer that the methods below
    read; [local_embedding_layers] are given by their configs. *)
Record Layer : Type := mkLayer {
  world_size : nat;
  rank : nat;
  dp_input : bool;
  column_slice_threshold : option Z;
  plan : Strategy;
  local_embedding_layers : list Config
}.

(** [DistributedEmbedding.__init__]; [hvd_size] and [hvd_rank] are what
    [hvd.size()] and [hvd.rank()] return on this worker, [row_slice] is
    [true] when the argument is not [None]. *)
Definition DistributedEmbedding_init (fuel : nat) (hvd_size hvd_rank : nat)
  (embeddings : list Config) (strategy : string)
  (column_slice_threshold : option Z) (row_slice : bool) (dp_input : bool)
  (input_table_map : option (list Z)) : result Layer :=
  if negb (existsb (String.eqb strategy) supported_strategies) then
    Raise (ValueError ("Unsupported shard strategy " ++ strategy))
  else if row_slice then
    Raise (NotImplementedError "Row slicing embedding is not supported yet!")
  else
    s <- DistEmbeddingStrategy_init fuel embeddings hvd_size hvd_rank strategy
           input_table_map column_slice_threshold ;;
    if (length (global_configs s) <? hvd_size)%nat then
      Raise (NotImplementedError "")
    else
      Ok (mkLayer hvd_size hvd_rank dp_input column_slice_threshold s
            (map (fun config => set_attribute config "synchronization" "NONE")
                 (local_configs s))).

(** ** Vocabulary of the statements about the planner *)

(** What the memory_optimized loop records for a worker that was handed the
    [(size, id)] pairs [b]: their total size and their ids. *)
Definition summary (b : list (Z * nat)) : Z * list nat :=
  (Py.sum (map fst b), map snd b).

(** The largest of a list of element counts (0 for the empty list). *)
Definition largest (sizes : list Z) : Z := fold_right Z.max 0 sizes.

(** Workers ordered by their running total, as [sorted(res)] leaves them. *)
Definition by_load (p q : Z * list nat) : Prop := fst p <= fst q.

(** What every strategy returns: a partition of the slice ids into
    [world_size] buckets. *)
Definition partitions (world_size : nat) (sliced_configs : list (list Config))
  (divided_ids : list (list nat)) : Prop :=
  length divided_ids = world_size
  /\ Permutation (concat divided_ids) (flatten_ids sliced_configs).

(** The planning fields that do not belong to one rank. *)
Definition global_plan (s : Strategy) :=
  (table_ids_list s, input_ids_list s, local_configs_list s,
   widths_list_flat s, rev_global_input_ids s, sliced_out_ranges s).

(** ** DistributedGradientTape *)

Inductive VariableSynchronization : Type := AUTO | NONE | ON_WRITE | ON_READ.

Definition sync_eqb (a b : VariableSynchronization) : bool :=
  match a, b with
  | AUTO, AUTO | NONE, NONE | ON_WRITE, ON_WRITE | ON_READ, ON_READ => true
  | _, _ => false
  end.

(** A model variable, as far as [gradient] looks at it. *)
Record variable : Type := mkVariable {
  var_name : string;
  synchronization : VariableSynchronization
}.

Section GradientTape.

(** Dense tensors, and the division of a tensor by [hvd.size()]. *)
Context {T : Type}.
Variable divide : T -> nat -> T.

(** A gradient is a dense tensor or a [tf.IndexedSlices]. *)
Inductive gradient_value : Type :=
| Dense (values : T)
| IndexedSlices (values : T) (indices : list Z) (dense_shape : list nat).

(** The value [hvd.allreduce(g, name=..., op=hvd.Average)] returns on every
    worker, given the gradients the workers pass under that name, in rank
    order: the collective belongs to Horovod and is kept abstract. *)
Variable hvd_allreduce_average : string -> list gradient_value -> gradient_value.

(** The gradient of a model-parallel variable, lines 542-546. *)
Definition scale_down (hvd_size : nat) (grad : gradient_value) : gradient_value :=
  match grad with
  | IndexedSlices values indices dense_shape =>
      IndexedSlices (divide values hvd_size) indices dense_shape
  | Dense values => Dense (divide values hvd_size)
  end.

(** The four lists of [gradient]. *)
Record split : Type := mkSplit {
  dp_vars : list variable;
  dp_grads : list gradient_value;
  mp_grads : list gradient_value;
  split_infos : list (bool * nat)
}.

(** The body of [for grad, var in zip(gradients, sources)]. *)
Definition classify (hvd_size : nat) (st : split) (entry : gradient_value * variable)
  : split :=
  let '(grad, var) := entry in
  if sync_eqb (synchronization var) NONE then
    let mp_grads' := mp_grads st ++ [scale_down hvd_size grad] in
    mkSplit (dp_vars st) (dp_grads st) mp_grads'
            (split_infos st ++ [(true, (length mp_grads' - 1)%nat)])
  else
    let dp_grads' := dp_grads st ++ [grad] in
    mkSplit (dp_vars st ++ [var]) dp_grads' (mp_grads st)
            (split_infos st ++ [(false, (length dp_grads' - 1)%nat)]).

Definition split_gradients (hvd_size : nat) (gradients : list gradient_value)
  (sources : list variable) : split :=
  fold_left (classify hvd_size) (combine gradients sources) (mkSplit [] [] [] []).

(** The name [f'dp_gradient_{i}']. *)
Definition dp_gradient_name (i : nat) : string :=
  "dp_gradient_" ++ NilZero.string_of_uint (Nat.to_uint i).

(** The method [gradient] that [DistributedGradientTape] installs, on worker
    [me]; [all_gradients] holds, for every worker in rank order, the list
    [super().gradient(target, sources, output_gradients)] returns there. *)
Definition gradient (all_gradients : list (list gradient_value))
  (sources : list variable) (me : nat) : result (list gradient_value) :=
  let hvd_size := length all_gradients in
  gradients <- Py.getnat all_gradients me ;;
  let st := split_gradients hvd_size gradients sources in
  let others := map (fun gs => dp_grads (split_gradients hvd_size gs sources))
                    all_gradients in
  dp_grads' <-
    mapM (fun '(i, g) =>
            contributions <- mapM (fun grads => Py.getnat grads i) others ;;
            Ok (hvd_allreduce_average (dp_gradient_name i) contributions))
         (Py.enumerate (dp_grads st)) ;;
  mapM (fun info : bool * nat =>
          if fst info then Py.getnat (mp_grads st) (snd info)
          else Py.getnat dp_grads' (snd info))
       (split_infos st).

(** Position of the [k]-th source among the data-parallel ones. *)
Definition dp_position (sources : list variable) (k : nat) : nat :=
  length (filter (fun var => negb (sync_eqb (synchronization var) NONE))
                 (firstn k sources)).

(** The [k]-th local gradient of every worker, in rank order. *)
Definition column (all_gradients : list (list gradient_value)) (k : nat)
  : list gradient_value :=
  flat_map (fun gs => match nth_error gs k with Some g => [g] | None => [] end)
           all_gradients.

End GradientTape.

(** Whether a variable is model-parallel, as line 541 tests it. *)
Definition is_mp (var : variable) : bool := sync_eqb (synchronization var) NONE.

(** ** Arrays *)

Section Arrays.
Context {V : Type}.

(** A 1-D tensor is the list of its elements, a 2-D array the list of its
    rows.  The arrays below have at least one row, so the second dimension
    is the length of the first row. *)
Definition shape0 (a : list (list V)) : nat := length a.
Definition shape1 (a : list (list V)) : nat :=
  match a with
  | [] => 0%nat
  | row :: _ => length row
  end.

(** [a.size]. *)
Definition size (a : list (list V)) : Z := Z.of_nat (shape0 a) * Z.of_nat (shape1 a).

(** An array of shape [[r, c]]. *)
Definition has_shape (r c : nat) (a : list (list V)) : Prop :=
  length a = r /\ Forall (fun row => length row = c) a.

Definition has_shapeb (r c : nat) (a : list (list V)) : bool :=
  (length a =? r)%nat && forallb (fun row => (length row =? c)%nat) a.

(** [a[:, start:stop]]. *)
Definition columns (start stop : nat) (a : list (list V)) : list (list V) :=
  map (fun row => Py.slice row start stop) a.

(** [tf.reshape(a, [-1])]. *)
Definition flatten (a : list (list V)) : list V := concat a.

(** [r] consecutive pieces of length [k]. *)
Fixpoint rows_of (r k : nat) (l : list V) : list (list V) :=
  match r with
  | O => []
  | S r' => firstn k l :: rows_of r' k (skipn k l)
  end.

(** [tf.reshape(t, [r, c])] of a 1-D tensor. *)
Definition reshape2 (r c : nat) (t : list V) : result (list (list V)) :=
  if (length t =? r * c)%nat then Ok (rows_of r c t)
  else Raise InvalidArgumentError.

(** [tf.reshape(t, [r, -1])] of a 1-D tensor. *)
Definition reshape_rows (r : nat) (t : list V) : result (list (list V)) :=
  if (r =? 0)%nat then Raise InvalidArgumentError
  else if (length t mod r =? 0)%nat then Ok (rows_of r (length t / r) t)
  else Raise InvalidArgumentError.

(** Consecutive pieces of the given lengths. *)
Fixpoint split_at (lengths : list nat) (t : list V) : list (list V) :=
  match lengths with
  | [] => []
  | n :: rest => firstn n t :: split_at rest (skipn n t)
  end.

(** [tf.split(t, lengths)] of a 1-D tensor. *)
Definition tf_split (t : list V) (lengths : list nat) : result (list (list V)) :=
  if (Py.sumn lengths =? length t)%nat then Ok (split_at lengths t)
  else Raise InvalidArgumentError.

(** [tf.concat(ts, axis=0)] of 1-D tensors; TensorFlow rejects an empty list. *)
Definition tf_concat (ts : list (list V)) : result (list V) :=
  match ts with
  | [] => Raise (ValueError "tf.concat: empty list")
  | _ => Ok (concat ts)
  end.

(** Two arrays side by side. *)
Fixpoint hstack (a b : list (list V)) : list (list V) :=
  match a, b with
  | ra :: a', rb :: b' => (ra ++ rb) :: hstack a' b'
  | _, _ => []
  end.

(** [tf.concat(arrays, axis=1)] (also [axis=-1]) of 2-D arrays. *)
Definition tf_concat_columns (arrays : list (list (list V)))
  : result (list (list V)) :=
  match arrays with
  | [] => Raise (ValueError "tf.concat: empty list")
  | a :: rest =>
      if forallb (fun b => (shape0 b =? shape0 a)%nat) rest
      then Ok (fold_left hstack rest a)
      else Raise InvalidArgumentError
  end.

End Arrays.

(** [math.ceil(a / b)] for integers; the true division is exact below
    [2^53]. *)
Definition ceil_div (a b : Z) : Z := - ((- a) / b).

(** ** DistributedEmbedding: weights *)

Section Weights.
Context {V : Type}.

(** [_slice_weight_for_rank] of [set_weights]. *)
Definition slice_weight_for_rank (weight : list (list V)) (info : list nat)
  (global_rank offset : nat) : result (list (list V)) :=
  let num_columns := shape1 weight in
  let num_slices := Py.sumn info in
  if (num_slices =? 0)%nat then Raise ZeroDivisionError
  else
    let column_per_slice := (num_columns / num_slices)%nat in
    let remainder := (num_columns mod num_slices)%nat in
    let rank := (Py.sumn (firstn global_rank info) + offset)%nat in
    let start := (column_per_slice * rank + Nat.min rank remainder)%nat in
    let rank := (rank + 1)%nat in
    let stop := (column_per_slice * rank + Nat.min rank remainder)%nat in
    Ok (columns start stop weight).

(** Lines 333-361 of [set_weights]: the arrays this rank keeps.  Entries of
    [weights] that are file paths stand for the arrays [np.load] reads. *)
Definition local_slices (table_ids_list : list (list nat)) (rank : nat)
  (weights : list (list (list V))) : result (list (list (list V))) :=
  let slice_info :=
    map (fun tid => map (fun rank_tids => Py.count rank_tids tid) table_ids_list)
        (seq 0 (length weights)) in
  rank_ids <- Py.getnat table_ids_list rank ;;
  weights <- mapM (Py.getnat weights) rank_ids ;;
  match weights with
  | [] => Raise IndexError
  | _ =>
      local_info <- mapM (Py.getnat slice_info) rank_ids ;;
      let index_offset :=
        map (fun '(i, rank_id) => Py.count (firstn i rank_ids) rank_id)
            (Py.enumerate rank_ids) in
      mapM (fun '(weight, (info, offset)) =>
              slice_weight_for_rank weight info rank offset)
           (combine weights (combine local_info index_offset))
  end.

(** [weight.assign(arr)]. *)
Definition assign (weight arr : list (list V)) : result (list (list V)) :=
  if has_shapeb (shape0 weight) (shape1 weight) arr then Ok arr
  else Raise (ValueError "assign: shapes differ").

(** [weight.scatter_update] with the rows [start .. stop - 1] as indices
    and [values] as their new contents. *)
Definition scatter_update (weight : list (list V)) (start stop : nat)
  (values : list (list V)) : result (list (list V)) :=
  if has_shapeb (stop - start) (shape1 weight) values
     && (stop <=? shape0 weight)%nat
  then Ok (firstn start weight ++ values ++ skipn stop weight)
  else Raise InvalidArgumentError.

(** The body of the loop of lines 365-380 for one variable.  The chunk loop
    only runs with a positive [chunk_size_dim0], so its row numbers are
    non-negative. *)
Definition assign_by_chunks (chunk : Z) (weight arr : list (list V))
  : result (list (list V)) :=
  if size arr <=? chunk then assign weight arr
  else if (shape1 weight =? 0)%nat then Raise ZeroDivisionError
  else
    let chunk_size_dim0 := chunk / Z.of_nat (shape1 weight) in
    if chunk_size_dim0 =? 0 then Raise ZeroDivisionError
    else
      let num_chunks := ceil_div (Z.of_nat (shape0 weight)) chunk_size_dim0 in
      let last_size :=
        Z.of_nat (shape0 weight) - chunk_size_dim0 * (num_chunks - 1) in
      let chunk_sizes :=
        repeat chunk_size_dim0 (Z.to_nat (num_chunks - 1)) ++ [last_size] in
      foldM (fun weight i =>
               let start := i * chunk_size_dim0 in
               chunk_size <- Py.getitem chunk_sizes i ;;
               let stop := start + chunk_size in
               scatter_update weight (Z.to_nat start) (Z.to_nat stop)
                 (Py.slice arr (Z.to_nat start) (Z.to_nat stop)))
            (Py.range num_chunks) weight.

(** [for weight, arr in zip(self.weights, weights)]: variables without a
    partner keep their value. *)
Fixpoint assign_all (chunk : Z) (variables arrays : list (list (list V)))
  : result (list (list (list V))) :=
  match variables, arrays with
  | weight :: variables', arr :: arrays' =>
      weight' <- assign_by_chunks chunk weight arr ;;
      rest <- assign_all chunk variables' arrays' ;;
      Ok (weight' :: rest)
  | _, _ => Ok variables
  end.

(** A worker: its layer and the values of [self.weights], one array per
    local embedding layer. *)
Record Worker : Type := mkWorker {
  layer : Layer;
  weights : list (list (list V))
}.

(** [set_weights(weights, chunk, use_lock)]: the worker afterwards.  The
    broadcasts of lock-step mode only order the workers in time. *)
Definition set_weights (self : Worker) (new_weights : list (list (list V)))
  (chunk : Z) (use_lock : bool) : result Worker :=
  local <-
    (if (1 <? world_size (layer self))%nat
     then local_slices (table_ids_list (plan (layer self))) (rank (layer self))
            new_weights
     else Ok new_weights) ;;
  assigned <- assign_all chunk (weights self) local ;;
  Ok (mkWorker (layer self) assigned).

(** The inner [while length > 0] loop of [_split_1d]: the pieces taken for
    one requested length and the chunks that remain. *)
Fixpoint take_across (length : nat) (tensor_list : list (list V))
  : result (list (list V) * list (list V)) :=
  if (length =? 0)%nat then Ok ([], tensor_list)
  else
    match tensor_list with
    | [] => Raise IndexError
    | first :: rest =>
        if (List.length first <? length)%nat then
          '(this_slice, remaining) <- take_across (length - List.length first) rest ;;
          Ok (first :: this_slice, remaining)
        else Ok ([firstn length first], skipn length first :: rest)
    end.

Variable zero : V.

Definition split_chunking_threshold : Z := 2147483646.

(** [_split_1d]. *)
Definition split_1d (tensor : list V) (lengths : list nat) : result (list (list V)) :=
  if Z.of_nat (length tensor) <=? split_chunking_threshold then
    tf_split tensor lengths
  else
    let n := Z.of_nat (length tensor) in
    let num_chunks := ceil_div n split_chunking_threshold in
    let padding_len := ceil_div n num_chunks * num_chunks - n in
    if padding_len <? 0 then Raise InvalidArgumentError
    else
      let padded_tensor := tensor ++ repeat zero (Z.to_nat padding_len) in
      tensor_list <- reshape_rows (Z.to_nat num_chunks) padded_tensor ;;
      '(result, _) <-
        foldM (fun '(result, tensor_list) length =>
                 '(this_slice, tensor_list') <- take_across length tensor_list ;;
                 piece <- tf_concat this_slice ;;
                 Ok (result ++ [piece], tensor_list'))
              lengths ([], tensor_list) ;;
      Ok result.

Definition gather_chunking_threshold : Z := 2000000000.

(** Lines 428-432 of [get_weights]. *)
Definition gather_num_chunks (world_size : nat)
  (local_configs_list : list (list Config)) : Z :=
  fold_left
    (fun num_chunks local_configs =>
       let total_elements := Py.sum (map elements local_configs) in
       Z.max num_chunks
         (ceil_div (Z.of_nat world_size * total_elements) gather_chunking_threshold))
    local_configs_list 1.

(** Lines 435-439: what a worker passes to the collectives, its chunk sizes
    and its chunks. *)
Definition local_chunks (self : Worker) : result (list nat * list (list V)) :=
  local_configs_list <-
    attr "local_configs_list" (local_configs_list (plan (layer self))) ;;
  let num_chunks :=
    Z.to_nat (gather_num_chunks (world_size (layer self)) local_configs_list) in
  local_weights <- tf_concat (map flatten (weights self)) ;;
  let chunk_size := (length local_weights / num_chunks)%nat in
  let last_size := (length local_weights - chunk_size * (num_chunks - 1))%nat in
  let chunk_sizes := repeat chunk_size (num_chunks - 1) ++ [last_size] in
  chunks <- split_1d local_weights chunk_sizes ;;
  Ok (chunk_sizes, chunks).

(** [hvd.allgather]: the concatenation, in rank order, of what the workers
    pass. *)
Definition hvd_allgather {A : Type} (contributions : list (list A)) : list A :=
  concat contributions.

(** Lines 459-464: the flat weights of each worker cut into its arrays. *)
Definition unflatten_worker (acc : list (list (list V)))
  (entry : list V * list Config) : result (list (list (list V))) :=
  let '(local_weight, local_configs) := entry in
  let local_shapes :=
    map (fun c => (Z.to_nat (input_dim c), Z.to_nat (output_dim c))) local_configs in
  let local_sizes := map (fun shape => (fst shape * snd shape)%nat) local_shapes in
  flat_weights <- split_1d local_weight local_sizes ;;
  reshaped <- mapM (fun '(weight, shape) => reshape2 (fst shape) (snd shape) weight)
                   (combine flat_weights local_shapes) ;;
  Ok (acc ++ reshaped).

(** Lines 473-484: consecutive entries with the same table id are
    concatenated along the columns. *)
Record regroup : Type := mkRegroup {
  rg_result : list (list (list V));
  cur_id : nat;
  cur_list : list (list (list V))
}.

Definition regroup_step (st : regroup) (cur : nat * list (list V)) : result regroup :=
  if (fst cur =? cur_id st)%nat then
    Ok (mkRegroup (rg_result st) (cur_id st) (cur_list st ++ [snd cur]))
  else
    whole <- tf_concat_columns (cur_list st) ;;
    Ok (mkRegroup (rg_result st ++ [whole]) (fst cur) [snd cur]).

Definition key_leb (p q : nat * list (list V)) : bool := (fst p <=? fst q)%nat.

(** [get_weights(all_ranks)] on worker [me] of the group [cluster]. *)
Definition get_weights (cluster : list Worker) (me : nat) (all_ranks : bool)
  : result (list (list (list V))) :=
  self <- Py.getnat cluster me ;;
  let local_weights := weights self in
  if (world_size (layer self) =? 1)%nat then Ok local_weights
  else
    local_configs_list <-
      attr "local_configs_list" (local_configs_list (plan (layer self))) ;;
    let num_chunks :=
      Z.to_nat (gather_num_chunks (world_size (layer self)) local_configs_list) in
    '(chunk_sizes, local_weights) <- local_chunks self ;;
    contributions <- mapM local_chunks cluster ;;
    let all_sizes := hvd_allgather (map fst contributions) in
    chunks <-
      foldM (fun chunks '(i, _) =>
               parts <- mapM (fun c => Py.getnat (snd c) i) contributions ;;
               let w := hvd_allgather parts in
               if all_ranks || (rank (layer self) =? 0)%nat then
                 pieces <- split_1d w (Py.stride all_sizes i num_chunks) ;;
                 Ok (chunks ++ pieces)
               else Ok chunks)
            (Py.enumerate local_weights) [] ;;
    match chunks with
    | [] => Ok []
    | _ =>
        local_weights <-
          mapM (fun i => tf_concat (Py.stride chunks i (world_size (layer self))))
               (seq 0 (world_size (layer self))) ;;
        weights <- foldM unflatten_worker
                     (combine local_weights local_configs_list) [] ;;
        let worker_order_table_ids :=
          concat (table_ids_list (plan (layer self))) in
        let ids_and_weights :=
          Py.sorted key_leb (combine worker_order_table_ids weights) in
        st <- foldM regroup_step ids_and_weights (mkRegroup [] 0 []) ;;
        last <- tf_concat_columns (cur_list st) ;;
        Ok (rg_result st ++ [last])
    end.

End Weights.

(** ** Vocabulary of the statements about the plan *)

(** The width of slice [j] when [od] columns are cut into [k] slices. *)
Definition even_width (od : Z) (k j : nat) : Z :=
  od / Z.of_nat k + (if Z.of_nat j <? od mod Z.of_nat k then 1 else 0).

(** The slices of a config cut [k] ways. *)
Definition even_slices (c : Config) (k : nat) : list Config :=
  map (fun j => set_output_dim c (even_width (output_dim c) k j)) (seq 0 k).

(** [F t j] for every table id [t] of [l], where [j] counts the earlier
    occurrences of [t] in [pre ++ l]. *)
Fixpoint with_occurrence {A : Type} (F : nat -> nat -> A) (pre l : list nat)
  : list A :=
  match l with
  | [] => []
  | t :: r => F t (Py.count pre t) :: with_occurrence F (pre ++ [t]) r
  end.

(** The same, worker by worker, occurrences counted over all earlier
    workers too. *)
Fixpoint per_worker {A : Type} (F : nat -> nat -> A) (pre : list nat)
  (tids : list (list nat)) : list (list A) :=
  match tids with
  | [] => []
  | r :: rest => with_occurrence F pre r :: per_worker F (pre ++ r) rest
  end.

(** Slice [j] of table [t]. *)
Definition slice_config (sliced : list (list Config)) (t j : nat) : Config :=
  nth j (nth t sliced []) (mkConfig 0 0 []).

(** The inputs that read table [t], in input order. *)
Definition inputs_of (input_table_map : list Z) (t : nat) : list nat :=
  map fst (filter (fun e : nat * Z => Z.of_nat t =? snd e)
                  (Py.enumerate input_table_map)).

(** What is left of the sliced configs after the ids [pre] were served. *)
Definition remaining (sliced : list (list Config)) (pre : list nat)
  (sc : list (list Config)) : Prop :=
  length sc = length sliced
  /\ forall t, nth t sc [] = skipn (Py.count pre t) (nth t sliced []).

(** The widths [__init__] records for the inputs of slice [j] of table [t]. *)
Definition input_widths (sliced : list (list Config)) (input_table_map : list Z)
  (t j : nat) : list Z :=
  map (fun _ => output_dim (slice_config sliced t j)) (inputs_of input_table_map t).

(** The local table index of each input of a rank. *)
Definition local_map_of (input_table_map : list Z) (rank_table_ids : list (nat * nat))
  : list nat :=
  flat_map (fun e => map (fun _ => fst e) (inputs_of input_table_map (snd e)))
           rank_table_ids.

(** The input-table map [__init__] works with. *)
Definition effective_map (embeddings : list Config)
  (input_table_map : option (list Z)) : list Z :=
  match input_table_map with
  | None => Py.range (Z.of_nat (length embeddings))
  | Some m => m
  end.

(** The object [__init__] builds on rank [r] from the sliced configs, the
    output ranges and the assignment [tids]. *)
Definition planned_strategy (embeddings : list Config) (name : string)
  (m : list Z) (sliced : list (list Config)) (ranges : list (nat * nat))
  (tids : list (list nat)) (r : nat) : Strategy :=
  let input_ids := map (flat_map (inputs_of m)) tids in
  let local_maps := map (fun ids => local_map_of m (Py.enumerate ids)) tids in
  let configs := per_worker (slice_config sliced) [] tids in
  mkStrategy embeddings name (nth r configs [])
    (map Z.of_nat (nth r local_maps [])) input_ids tids
    (Some ranges) (Some local_maps) (Some configs)
    (Some (concat (with_occurrence (input_widths sliced m) [] (concat tids))))
    (Some (reverse_ids input_ids)).

(** ** Vocabulary of the statements about the weights *)

(** The chunk sizes of lines 436-438. *)
Definition chunk_sizes_of (n num_chunks : nat) : list nat :=
  repeat (n / num_chunks)%nat (num_chunks - 1)
  ++ [(n - n / num_chunks * (num_chunks - 1))%nat].

(** What a worker holds, flattened as [get_weights] sends it. *)
Definition flat_weights {V : Type} (w : @Worker V) : list V :=
  concat (map flatten (weights w)).

(** What a worker passes to the all-gathers of [get_weights] when the
    buffer is cut into [nc] chunks. *)
Definition contribution {V : Type} (nc : nat) (w : @Worker V)
  : list nat * list (list V) :=
  let sizes := chunk_sizes_of (length (flat_weights w)) nc in
  (sizes, split_at sizes (flat_weights w)).

(** An array has the shape its config announces. *)
Definition shaped {V : Type} (c : Config) (a : list (list V)) : Prop :=
  has_shape (Z.to_nat (input_dim c)) (Z.to_nat (output_dim c)) a.

(** Where slice [j] starts when [num_columns] columns are cut into
    [num_slices] slices, as [_slice_weight_for_rank] computes it. *)
Definition slice_start (num_columns num_slices j : nat) : nat :=
  (num_columns / num_slices * j + Nat.min j (num_columns mod num_slices))%nat.

(** The columns of table [t] that its slice [j] holds. *)
Definition weight_slice {V : Type} (new_weights : list (list (list V)))
  (tids : list (list nat)) (t j : nat) : list (list V) :=
  let weight := nth t new_weights [] in
  let k := Py.count (concat tids) t in
  columns (slice_start (shape1 weight) k j) (slice_start (shape1 weight) k (j + 1))
          weight.

(** A group of [hvd_size] workers: worker [r] holds the layer constructed
    on rank [r] from the same arguments, and one variable of the announced
    shape for each of its local embedding layers (what [build] creates). *)
Definition constructed {V : Type} (fuel : nat) (hvd_size : nat)
  (embeddings : list Config) (name : string) (threshold : option Z)
  (dp : bool) (input_table_map : option (list Z)) (cluster : list (@Worker V))
  : Prop :=
  length cluster = hvd_size
  /\ forall r w,
       nth_error cluster r = Some w ->
       DistributedEmbedding_init fuel hvd_size r embeddings name threshold
         false dp input_table_map = Ok (layer w)
       /\ Forall2 shaped (local_embedding_layers (layer w)) (weights w).

(** No worker holds fewer elements than the number of chunks the gather of
    [get_weights] is cut into; that number is 1 unless some worker holds
    more than [2 * 10^9 / world_size] elements. *)
Definition gather_fits (s : Strategy) (hvd_size : nat) : Prop :=
  match local_configs_list s with
  | Some cfgs =>
      Forall (fun cs => gather_num_chunks hvd_size cfgs <= Py.sum (map elements cs))
             cfgs
  | None => True
  end.

(** The layer [DistributedEmbedding.__init__] returns around a strategy. *)
Definition layer_of (hvd_size hvd_rank : nat) (dp : bool) (threshold : option Z)
  (s : Strategy) : Layer :=
  mkLayer hvd_size hvd_rank dp threshold s
    (map (fun config => set_attribute config "synchronization" "NONE")
         (local_configs s)).

(** The number of workers that the greedy loop has given nothing yet. *)
Definition empties (res : list (Z * list nat)) : nat :=
  length (filter (fun r => match snd r with [] => true | _ => false end) res).

(** In the greedy loop a worker has total 0 exactly as long as it has no
    slice. *)
Definition load_sound (r : Z * list nat) : Prop :=
  0 <= fst r /\ (snd r = [] <-> fst r = 0).


(** ** A group of two workers

    Two tables, the first one wide enough to be cut in two column slices
    with a threshold of 4 elements. *)

Definition example_embeddings : list Config :=
  [mkConfig 2 4 []; mkConfig 3 1 []].

Definition example_weights : list (list (list Z)) :=
  [[[1; 2; 3; 4]; [5; 6; 7; 8]]; [[9]; [10]; [11]]].

(** The variable [build] creates for a config, filled with zeros. *)
Definition zeros (c : Config) : list (list Z) :=
  repeat (repeat 0 (Z.to_nat (output_dim c))) (Z.to_nat (input_dim c)).

(** The worker of rank [r] after [__init__] and [build]. *)
Definition example_worker (hvd_size r : nat) : result (@Worker Z) :=
  l <- DistributedEmbedding_init 10 hvd_size r example_embeddings "basic" (Some 4)
         false true None ;;
  Ok (mkWorker l (map zeros (local_embedding_layers l))).

Definition example_cluster : list (@Worker Z) :=
  match mapM (example_worker 2) [0%nat; 1%nat] with
  | Ok cluster => cluster
  | _ => []
  end.

(** The group after [set_weights(example_weights)] on every worker. *)
Definition example_loaded : list (@Worker Z) :=
  match mapM (fun w => set_weights w example_weights 134217728 false)
             example_cluster with
  | Ok loaded => loaded
  | _ => []
  end.

(** The worker of rank 1 of that group. *)
Definition example_rank1 : @Worker Z :=
  nth 1 example_loaded
      (mkWorker (layer_of 0 0 true None
                   (mkStrategy [] "" [] [] [] [] None None None None None)) []).

(** ** DistributedEmbedding: the forward pass *)

Inductive DType : Type := int32 | int64.

Definition dtype_eqb (a b : DType) : bool :=
  match a, b with
  | int32, int32 | int64, int64 => true
  | _, _ => false
  end.

(** A tensor of indices: its dtype, its static shape and its elements in
    row-major order. *)
Record Tensor : Type := mkTensor {
  dtype : DType;
  shape : list nat;
  data : list Z
}.

Definition num_elements (shape : list nat) : nat := fold_right Nat.mul 1%nat shape.

Definition well_formed (t : Tensor) : Prop :=
  length (data t) = num_elements (shape t).

(** [tf.cast] between the integer types; narrowing wraps around. *)
Definition wrap32 (x : Z) : Z := (x + 2 ^ 31) mod 2 ^ 32 - 2 ^ 31.

Definition tf_cast (inp : Tensor) (d : DType) : Tensor :=
  match dtype inp, d with
  | int64, int32 => mkTensor int32 (shape inp) (map wrap32 (data inp))
  | _, _ => mkTensor d (shape inp) (data inp)
  end.

(** Lines 268-271 of [_call_base]. *)
Definition comm_dtype (inputs : list Tensor) : DType :=
  fold_left (fun comm_dtype inp =>
               match dtype inp with
               | int64 => int64
               | int32 => comm_dtype
               end)
            inputs int32.

(** What the loop of lines 273-279 builds. *)
Record resharded : Type := mkResharded {
  local_shapes : list (list (list nat));
  local_splits : list (list nat);
  global_splits : list nat;
  flat_inputs : list (list Z)
}.

Definition reshard_step (inputs : list Tensor) (st : resharded)
  (rank_input_ids : list nat) : result resharded :=
  rank_inputs <- mapM (Py.getnat inputs) rank_input_ids ;;
  let shapes := map shape rank_inputs in
  let rank_inputs := map data rank_inputs in
  let splits := map (@length Z) rank_inputs in
  Ok (mkResharded (local_shapes st ++ [shapes]) (local_splits st ++ [splits])
        (global_splits st ++ [Py.sumn splits]) (flat_inputs st ++ rank_inputs)).

(** [tf.split(a, lengths, 1)] of a 2-D array. *)
Definition tf_split_axis1 {A : Type} (a : list (list A)) (lengths : list nat)
  : result (list (list (list A))) :=
  if forallb (fun row => (Py.sumn lengths =? length row)%nat) a
  then Ok (map (fun k => map (fun row => nth k (split_at lengths row) []) a)
               (seq 0 (length lengths)))
  else Raise InvalidArgumentError.

(** [hvd.alltoall(tensor, splits)] as worker [me] sees it: the pieces that
    the workers address to it, in rank order.  The workers must pass
    tensors of one dtype. *)
Definition hvd_alltoall_splits {A : Type} (own : DType)
  (sent : list (DType * list A * list nat)) (me : nat) : result (list A) :=
  if forallb (fun s => dtype_eqb (fst (fst s)) own) sent then
    parts <- mapM (fun s =>
                     pieces <- tf_split (snd (fst s)) (snd s) ;;
                     Py.getnat pieces me)
                  sent ;;
    Ok (concat parts)
  else Raise InvalidArgumentError.

(** [hvd.alltoall(tensor)]: every worker's tensor is cut in as many equal
    pieces as there are workers. *)
Definition hvd_alltoall {A : Type} (sent : list (list A)) (me : nat)
  : result (list A) :=
  parts <- mapM (fun tensor =>
                   pieces <- reshape_rows (length sent) tensor ;;
                   Py.getnat pieces me)
                sent ;;
  Ok (concat parts).

(** Lines 267-280: what a worker passes to the first exchange. *)
Definition dp_to_mp_send (s : Strategy) (inputs : list Tensor)
  : result (DType * resharded * list Z) :=
  let comm_dtype := comm_dtype inputs in
  let inputs := map (fun inp => tf_cast inp comm_dtype) inputs in
  st <- foldM (reshard_step inputs) (input_ids_list s) (mkResharded [] [] [] []) ;;
  buffer <- tf_concat (flat_inputs st) ;;
  Ok (comm_dtype, st, buffer).

(** [tf.reshape(inp, [world_size * shape[0]] + shape[1:])] of a 2-D piece. *)
Definition reshape_batch (comm : DType) (world_size : nat) (inp : list (list Z))
  (shape : list nat) : result Tensor :=
  match shape with
  | [] => Raise IndexError
  | b :: rest =>
      let new_shape := (world_size * b)%nat :: rest in
      if (length (concat inp) =? num_elements new_shape)%nat
      then Ok (mkTensor comm new_shape (concat inp))
      else Raise InvalidArgumentError
  end.

(** Lines 282-287: the model-parallel inputs of a worker. *)
Definition dp_to_mp_recv (l : Layer) (comm : DType) (st : resharded)
  (received : list Z) : result (list Tensor) :=
  rows <- reshape_rows (world_size l) received ;;
  splits <- Py.getnat (local_splits st) (rank l) ;;
  pieces <- tf_split_axis1 rows splits ;;
  shapes <- Py.getnat (local_shapes st) (rank l) ;;
  mapM (fun '(inp, shape) => reshape_batch comm (world_size l) inp shape)
       (combine pieces shapes).

Section Forward.
Context {V : Type}.

(** Modelled from the spec: the lookup kernel of the [Embedding] layer (its
    module is not among the sources), a black box per table:
    [lookup table indices] is the row of values that the table gives for
    the indices of one sample. *)
Variable lookup : list (list V) -> list Z -> list V.

(** [tf.cast(_, self.compute_dtype)] on one value. *)
Variable cast : V -> V.

(** The samples of a batch of indices: one row of indices per entry of the
    leading dimension. *)
Definition samples (inp : Tensor) : result (list (list Z)) :=
  match shape inp with
  | [] => Raise (ValueError "Embedding: scalar input")
  | b :: rest => Ok (rows_of b (num_elements rest) (data inp))
  end.

(** Modelled from the spec: an [Embedding] layer called on a batch of
    indices returns one row of values per sample. *)
Definition embedding_call (table : list (list V)) (inp : Tensor)
  : result (list (list V)) :=
  rows <- samples inp ;;
  Ok (map (lookup table) rows).

(** [[self.local_embedding_layers[m](inp) for m, inp in zip(...)]]; the
    variable of layer [m] is [self.weights[m]]. *)
Definition local_lookups (self : @Worker V) (inputs : list Tensor)
  : result (list (list (list V))) :=
  mapM (fun '(m, inp) =>
          table <- Py.getitem (weights self) m ;;
          embedding_call table inp)
       (combine (local_input_table_map (plan (layer self))) inputs).

(** Every worker turns its data-parallel inputs into model-parallel ones
    through the exchange [inp_dp_to_mp]. *)
Definition inp_dp_to_mp (cluster : list (@Worker V)) (batch : list (list Tensor))
  : result (list (list Tensor)) :=
  sent <- mapM (fun '(w, inputs) => dp_to_mp_send (plan (layer w)) inputs)
               (combine cluster batch) ;;
  mapM (fun '(w, (comm, st, _)) =>
          received <-
            hvd_alltoall_splits comm
              (map (fun '(comm', st', buffer) => (comm', buffer, global_splits st'))
                   sent)
              (rank (layer w)) ;;
          dp_to_mp_recv (layer w) comm st received)
       (combine cluster sent).

(** Lines 290-300: what a worker passes to the exchange [out_mp_to_dp]. *)
Definition mp_to_dp_send (self : @Worker V) (inputs : list Tensor)
  : result (list V) :=
  mp_outs <- local_lookups self inputs ;;
  mp_outs <- mapM (fun mp_out =>
                     reshape_rows (world_size (layer self)) (flatten mp_out))
                  mp_outs ;;
  mp_outs <- tf_concat_columns mp_outs ;;
  Ok (map cast (flatten mp_outs)).

(** Lines 302-311. *)
Definition mp_to_dp_recv (self : @Worker V) (inputs : list Tensor)
  (dp_outs : list V) : result (list (list (list V))) :=
  first <- Py.getnat inputs 0 ;;
  batch_size <- Py.getnat (shape first) 0 ;;
  let local_bs := (batch_size / world_size (layer self))%nat in
  widths_list_flat <- attr "widths_list_flat" (widths_list_flat (plan (layer self))) ;;
  let num_elements := map (fun item => Z.of_nat local_bs * item) widths_list_flat in
  if existsb (fun n => n <? 0) num_elements then Raise InvalidArgumentError
  else
    split_outs <- tf_split dp_outs (map Z.to_nat num_elements) ;;
    worker_order_res <- mapM (reshape_rows local_bs) split_outs ;;
    rev_global_input_ids <-
      attr "rev_global_input_ids" (rev_global_input_ids (plan (layer self))) ;;
    mapM (Py.getnat worker_order_res) rev_global_input_ids.

(** [_call_base] on worker [me] of the group [cluster], where [batch] holds
    the inputs of every worker: the workers run the same program, and an
    exchange completes when each of them has passed its tensor. *)
Definition call_base (cluster : list (@Worker V)) (batch : list (list Tensor))
  (me : nat) : result (list (list (list V))) :=
  self <- Py.getnat cluster me ;;
  mp_inputs <- (if dp_input (layer self) then inp_dp_to_mp cluster batch
                else Ok batch) ;;
  sent <- mapM (fun '(w, inputs) => mp_to_dp_send w inputs)
               (combine cluster mp_inputs) ;;
  dp_outs <- hvd_alltoall sent (rank (layer self)) ;;
  inputs <- Py.getnat mp_inputs me ;;
  mp_to_dp_recv self inputs dp_outs.

(** [_concat_column_slice_outputs]. *)
Definition concat_column_slice_outputs (self : @Worker V)
  (outs : list (list (list V))) : result (list (list (list V))) :=
  sliced_out_ranges <-
    attr "sliced_out_ranges" (sliced_out_ranges (plan (layer self))) ;;
  foldM (fun outs '(start, stop) =>
           whole <- tf_concat_columns (Py.slice outs start stop) ;;
           Ok (firstn start outs ++ [whole] ++ skipn stop outs))
        sliced_out_ranges outs.

(** [DistributedEmbedding.call] on worker [me]. *)
Definition call (cluster : list (@Worker V)) (batch : list (list Tensor))
  (me : nat) : result (list (list (list V))) :=
  self <- Py.getnat cluster me ;;
  if (world_size (layer self) =? 1)%nat then
    inputs <- Py.getnat batch me ;;
    outputs <- local_lookups self inputs ;;
    Ok (map (map (map cast)) outputs)
  else
    outputs <- call_base cluster batch me ;;
    concat_column_slice_outputs self outputs.

End Forward.

(** ** Vocabulary of the statements about the forward pass *)

(** A kernel that fills one column of its output from one column of the
    table: what it returns for a range of columns is that range of what it
    returns for the whole table. *)
Definition column_wise {V : Type} (lookup : list (list V) -> list Z -> list V)
  : Prop :=
  forall (r c : nat) (table : list (list V)) (indices : list Z),
    (1 <= r)%nat -> has_shape r c table ->
    length (lookup table indices) = c
    /\ forall start stop,
         (start <= stop)%nat -> (stop <= c)%nat ->
         lookup (columns start stop table) indices
         = Py.slice (lookup table indices) start stop.

(** The data-parallel inputs of a worker: one well-formed tensor per input,
    of the given dtypes, [b] samples each. *)
Definition dp_inputs (b : nat) (dtypes : list DType) (trailing : list (list nat))
  (inputs : list Tensor) : Prop :=
  map dtype inputs = dtypes
  /\ map shape inputs = map (cons b) trailing
  /\ Forall well_formed inputs.

(** A kernel for one-hot indices: the row of the table at the first index
    of the sample (modulo the number of rows). *)
Definition row_lookup (table : list (list Z)) (indices : list Z) : list Z :=
  nth (Z.to_nat (hd 0 indices mod Z.of_nat (length table))) table [].

(** One batch of two inputs on each of the two workers. *)
Definition example_batch : list (list Tensor) :=
  [[mkTensor int32 [2%nat] [0; 1]; mkTensor int64 [2%nat] [2; 0]];
   [mkTensor int32 [2%nat] [1; 1]; mkTensor int64 [2%nat] [1; 2]]].

(** The single worker that holds [example_weights]. *)
Definition example_single : list (@Worker Z) :=
  match DistributedEmbedding_init 10 1 0 example_embeddings "basic" (Some 4)
          false true None with
  | Ok l => [mkWorker l example_weights]
  | _ => []
  end.

Definition no_tensor : Tensor := mkTensor int32 [] [].

(** Input [g] of every worker, gathered along the batch axis: what the
    worker that serves input [g] looks up. *)
Definition mp_input (comm : DType) (b : nat) (trailing : list (list nat))
  (batch : list (list Tensor)) (g : nat) : Tensor :=
  mkTensor comm ((length batch * b)%nat :: nth g trailing [])
    (concat (map (fun inputs => data (nth g inputs no_tensor)) batch)).

(** The samples of input [g] in the inputs of one worker. *)
Definition samples_of (b : nat) (trailing : list (list nat)) (inputs : list Tensor)
  (g : nat) : list (list Z) :=
  rows_of b (num_elements (nth g trailing [])) (data (nth g inputs no_tensor)).

(** What a table gives for input [g] of one worker, after the cast. *)
Definition output_of {V : Type} (lookup : list (list V) -> list Z -> list V)
  (cast : V -> V) (b : nat) (trailing : list (list nat)) (inputs : list Tensor)
  (table : list (list V)) (g : nat) : list (list V) :=
  map (fun indices => map cast (lookup table indices))
      (samples_of b trailing inputs g).

(** The table that input [g] reads. *)
Definition table_of (m : list Z) (g : nat) : nat := Z.to_nat (nth g m 0).

(** The lookups that slice [j] of table [t] serves: its columns of the
    table, for every input that reads table [t]. *)
Definition served_by {V : Type} (new_weights : list (list (list V)))
  (tids : list (list nat)) (m : list Z) (t j : nat)
  : list (list (list V) * nat) :=
  map (fun g => (weight_slice new_weights tids t j, g)) (inputs_of m t).


(** ** broadcast_variables *)

(** The loop of lines 515-520: the variables are sorted in two lists by
    their synchronization mode. *)
Definition sort_variables (model_vars : list variable)
  : list variable * list variable :=
  fold_left (fun '(dp_vars, mp_vars) var =>
               if sync_eqb (synchronization var) NONE
               then (dp_vars, mp_vars ++ [var])
               else (dp_vars ++ [var], mp_vars))
            model_vars ([], []).

(** [broadcast_variables(model_vars, root_rank)]: the arguments of the one
    call [hvd.broadcast_variables(dp_vars, root_rank=root_rank)] it makes. *)
Definition broadcast_variables (model_vars : list variable) (root_rank : nat)
  : list variable * nat :=
  let '(dp_vars, _) := sort_variables model_vars in
  (dp_vars, root_rank).


(** * Properties of the planner *)

(** ** Generic facts on results and lists *)

Lemma bind_Ok {A B : Type} (r : result A) (k : A -> result B) (b : B) :
  bind r k = Ok b -> exists a, r = Ok a /\ k a = Ok b.
Proof. destruct r; simpl; intros H; try discriminate. eauto. Qed.

Lemma sum_app (l1 l2 : list Z) : Py.sum (l1 ++ l2) = Py.sum l1 + Py.sum l2.
Proof. induction l1; simpl; lia. Qed.

Lemma range_length (n : Z) : length (Py.range n) = Z.to_nat n.
Proof. unfold Py.range. now rewrite length_map, length_seq. Qed.

(** ** ColumnSlicer *)

Lemma halve_until_fits_ge (fuel : nat) (thr : option Z) :
  forall n q r, 1 <= n -> halve_until_fits fuel thr n q = Ok r -> n <= r.
Proof.
  induction fuel as [|fuel IH]; intros n q r Hn; simpl;
    destruct (exceeds q thr); try discriminate; intros H.
  - injection H as <-. lia.
  - apply IH in H; lia.
  - injection H as <-. lia.
Qed.

Lemma halve_until_fits_one (fuel : nat) (thr : option Z) (q : Q) (r : Z) :
  halve_until_fits fuel thr 1 q = Ok r -> (r = 1 <-> exceeds q thr = false).
Proof.
  destruct fuel as [|fuel]; simpl; destruct (exceeds q thr) eqn:E;
    try discriminate; intros H.
  - injection H as <-. tauto.
  - apply halve_until_fits_ge in H; [|lia]. split; [lia|discriminate].
  - injection H as <-. tauto.
Qed.

Lemma exceeds_spec (q : Q) (t : Z) :
  exceeds q (Some t) = false <-> Qnum q <= t * Zpos (Qden q).
Proof.
  unfold exceeds, Qle_bool. simpl. rewrite negb_false_iff, Z.leb_le. lia.
Qed.

Lemma halve_until_fits_terminates (t : Z) (fuel : nat) :
  1 <= t ->
  forall n q, Qnum q <= t * Zpos (Qden q) * 2 ^ Z.of_nat fuel ->
  exists r, halve_until_fits fuel (Some t) n q = Ok r.
Proof.
  intros Ht. induction fuel as [|fuel IH]; intros n q Hq;
    cbn [halve_until_fits]; destruct (exceeds q (Some t)) eqn:E; eauto.
  - exfalso. assert (exceeds q (Some t) = false) as E'; [|congruence].
    apply exceeds_spec. simpl in Hq. lia.
  - apply IH. rewrite Nat2Z.inj_succ, Z.pow_succ_r in Hq by lia.
    destruct q as [a b]. cbn [Qnum Qden Qdiv Qmult Qinv] in *. simpl Qnum. simpl Qden.
    rewrite Pos2Z.inj_mul. lia.
Qed.

Lemma halve_until_fits_config (c : Config) (t : Z) (fuel : nat) (n : Z) :
  1 <= t -> (enough_fuel c <= fuel)%nat ->
  exists r, halve_until_fits fuel (Some t) n (inject_Z (elements c)) = Ok r.
Proof.
  intros Ht Hf. apply halve_until_fits_terminates; [assumption|]. simpl.
  unfold enough_fuel in Hf.
  destruct (Z.le_gt_cases (elements c) 1) as [Hs|Hs].
  - assert (0 < 2 ^ Z.of_nat fuel) by (apply Z.pow_pos_nonneg; lia). nia.
  - pose proof (Z.log2_up_spec (elements c) Hs) as [_ Hup].
    assert (2 ^ Z.log2_up (elements c) <= 2 ^ Z.of_nat fuel).
    { apply Z.pow_le_mono_r; [lia|].
      pose proof (Z.log2_up_nonneg (elements c)). lia. }
    nia.
Qed.

Lemma sum_even_split (a r : Z) (m : nat) :
  0 <= r ->
  Py.sum (map (fun i => if i <? r then a + 1 else a)
              (map Z.of_nat (seq 0 m)))
  = a * Z.of_nat m + Z.min r (Z.of_nat m).
Proof.
  intros Hr. induction m as [|m IH]; [simpl; lia|].
  rewrite seq_S, !map_app, sum_app, IH. simpl.
  destruct (Z.ltb_spec (Z.of_nat m) r); lia.
Qed.

Lemma slice_columns_spec (c : Config) (n : Z) (ws : nat) :
  1 <= n -> (1 <= ws)%nat -> 1 <= output_dim c ->
  exists slices,
    slice_columns c n ws = Ok slices
    /\ Py.sum (widths slices) = output_dim c
    /\ Forall (fun s => 1 <= output_dim s
                        /\ input_dim s = input_dim c
                        /\ attributes s = attributes c) slices
    /\ (1 <= length slices)%nat
    /\ Z.of_nat (length slices) <= Z.min (Z.of_nat ws) (output_dim c)
    /\ Z.of_nat (length slices) <= n
    /\ (n = 1 -> slices = [c]).
Proof.
  intros Hn Hws Hod. unfold slice_columns.
  destruct (Z.eqb_spec n 1) as [->|Hn1].
  - exists [c]. simpl. repeat split; try lia.
    all: repeat constructor; lia.
  - set (k := Z.min (Z.min n (Z.of_nat ws)) (output_dim c)).
    assert (1 <= k) as Hk by (unfold k; lia).
    destruct (Z.eqb_spec k 0) as [Hk0|_]; [lia|].
    eexists. split; [reflexivity|].
    pose proof (Z.div_mod (output_dim c) k ltac:(lia)) as Hdm.
    pose proof (Z.mod_pos_bound (output_dim c) k ltac:(lia)) as Hmod.
    assert (1 <= output_dim c / k) as Hq.
    { apply Z.div_le_lower_bound; unfold k; lia. }
    repeat split.
    + unfold widths. rewrite map_map. cbn [output_dim set_output_dim].
      unfold Py.range. rewrite sum_even_split by lia.
      rewrite Z2Nat.id by lia. lia.
    + apply Forall_forall. intros s Hs. apply in_map_iff in Hs.
      destruct Hs as [i [<- _]]. simpl.
      destruct (i <? output_dim c mod k); repeat split; lia.
    + rewrite length_map, range_length. lia.
    + rewrite length_map, range_length, Z2Nat.id by lia. unfold k. lia.
    + rewrite length_map, range_length, Z2Nat.id by lia. unfold k. lia.
    + intros ->. contradiction.
Qed.

(** C4 as stated needs the loop to finish for every integer threshold; with
    a negative one it never does, whatever the fuel. *)
Lemma halve_until_fits_negative (fuel : nat) :
  forall n q, 0 < Qnum q ->
  halve_until_fits fuel (Some (-1)) n q = Diverge.
Proof.
  induction fuel as [|fuel IH]; intros n q Hq; cbn [halve_until_fits].
  - destruct (exceeds q (Some (-1))) eqn:E; [reflexivity|].
    apply exceeds_spec in E. lia.
  - destruct (exceeds q (Some (-1))) eqn:E.
    + apply IH. destruct q as [a b]. simpl in *. lia.
    + apply exceeds_spec in E. lia.
Qed.





(** ** Sorting *)

Section SortFacts.
Context {A : Type} (leb : A -> A -> bool).

Lemma insert_perm (x : A) (l : list A) : Permutation (Py.insert leb x l) (x :: l).
Proof.
  induction l as [|y l IH]; simpl; [reflexivity|].
  destruct (leb x y); [reflexivity|].
  rewrite IH. apply perm_swap.
Qed.

Lemma sorted_perm (l : list A) : Permutation (Py.sorted leb l) l.
Proof.
  induction l as [|x l IH]; simpl; [reflexivity|].
  rewrite insert_perm. now apply perm_skip.
Qed.

Lemma sorted_length (l : list A) : length (Py.sorted leb l) = length l.
Proof. apply Permutation_length, sorted_perm. Qed.

Lemma sorted_reverse_perm (l : list A) : Permutation (Py.sorted_reverse leb l) l.
Proof.
  unfold Py.sorted_reverse.
  rewrite <- Permutation_rev, sorted_perm, <- Permutation_rev. reflexivity.
Qed.

(** The order that [leb] decides may be finer than the relation [R] one
    needs the result to be sorted by. *)
Variable R : A -> A -> Prop.
Hypothesis R_trans : forall x y z, R x y -> R y z -> R x z.
Hypothesis leb_true : forall x y, leb x y = true -> R x y.
Hypothesis leb_false : forall x y, leb x y = false -> R y x.

Lemma insert_sorted (x : A) (l : list A) :
  StronglySorted R l -> StronglySorted R (Py.insert leb x l).
Proof.
  induction 1 as [|y l Hs IH Hy]; simpl.
  - repeat constructor.
  - destruct (leb x y) eqn:E.
    + constructor; [now constructor|].
      constructor; [now apply leb_true|].
      eapply Forall_impl; [|exact Hy]. intros z Hz.
      eapply R_trans; [apply leb_true; exact E|exact Hz].
    + constructor; [assumption|].
      eapply Permutation_Forall; [symmetry; apply insert_perm|].
      constructor; [now apply leb_false|assumption].
Qed.

Lemma sorted_sorted (l : list A) : StronglySorted R (Py.sorted leb l).
Proof.
  induction l as [|x l IH]; simpl; [constructor|now apply insert_sorted].
Qed.

End SortFacts.

(** ** Strided slices *)

Lemma flat_map_nil {A B : Type} (l : list A) :
  flat_map (fun _ : A => @nil B) l = [].
Proof. induction l; simpl; auto. Qed.

Lemma flat_map_map {A B C : Type} (f : A -> B) (g : B -> list C) (l : list A) :
  flat_map g (map f l) = flat_map (fun x => g (f x)) l.
Proof. induction l; simpl; congruence. Qed.

Lemma every_perm {A : Type} (step : nat) (l : list A) :
  (1 <= step)%nat ->
  Permutation (flat_map (fun k => Py.every step k l) (seq 0 step)) l.
Proof.
  intros Hstep. destruct step as [|p]; [lia|clear Hstep].
  induction l as [|x l IH].
  - simpl. now rewrite flat_map_nil.
  - cbn [seq flat_map Py.every]. rewrite <- seq_shift, flat_map_map.
    cbn [Py.every]. replace (S p - 1)%nat with p by lia.
    simpl. apply perm_skip.
    rewrite seq_S, flat_map_app in IH. simpl in IH.
    rewrite app_nil_r in IH. rewrite Permutation_app_comm. exact IH.
Qed.

Lemma flat_map_perm {A B : Type} (f : A -> list B) (l1 l2 : list A) :
  Permutation l1 l2 -> Permutation (flat_map f l1) (flat_map f l2).
Proof.
  induction 1; simpl.
  - reflexivity.
  - now apply Permutation_app_head.
  - rewrite !app_assoc. apply Permutation_app_tail, Permutation_app_comm.
  - etransitivity; eassumption.
Qed.

Lemma every_length {A : Type} (step : nat) (l : list A) :
  (1 <= step)%nat ->
  forall k, (k < step)%nat ->
  length (Py.every step k l) = ((length l + (step - 1 - k)) / step)%nat.
Proof.
  intros Hstep. induction l as [|x l IH]; intros k Hk.
  - simpl. symmetry. apply Nat.div_small. lia.
  - destruct k as [|k]; cbn [Py.every length].
    + rewrite IH by lia.
      replace (step - 1 - (step - 1))%nat with 0%nat by lia.
      replace (S (length l) + (step - 1 - 0))%nat
        with (length l + 0 + 1 * step)%nat by lia.
      rewrite Nat.div_add by lia. lia.
    + rewrite IH by lia. f_equal. lia.
Qed.

(** ** TableAssigner *)

Lemma flatten_sizes_length (sliced : list (list Config)) :
  length (flatten_sizes sliced) = length (flatten_ids sliced).
Proof.
  unfold flatten_sizes, flatten_ids.
  induction (Py.enumerate sliced) as [|[i sc] ps IH]; simpl; [reflexivity|].
  rewrite !length_app, !length_map. lia.
Qed.

Lemma map_snd_combine {A B : Type} (l1 : list A) (l2 : list B) :
  length l1 = length l2 -> map snd (combine l1 l2) = l2.
Proof.
  revert l2. induction l1 as [|x l1 IH]; intros [|y l2] H; simpl in *;
    try discriminate; [reflexivity|]. f_equal. apply IH. lia.
Qed.

Lemma map_fst_combine {A B : Type} (l1 : list A) (l2 : list B) :
  length l1 = length l2 -> map fst (combine l1 l2) = l1.
Proof.
  revert l2. induction l1 as [|x l1 IH]; intros [|y l2] H; simpl in *;
    try discriminate; [reflexivity|]. f_equal. apply IH. lia.
Qed.

Lemma snake_perm (ws : nat) :
  Permutation (flat_map (fun i => [i; 2 * ws - 1 - i]%nat) (seq 0 ws))
              (seq 0 (2 * ws)).
Proof.
  symmetry. apply NoDup_Permutation_bis.
  - apply seq_NoDup.
  - rewrite length_seq.
    assert (forall l : list nat,
              length (flat_map (fun i => [i; 2 * ws - 1 - i]%nat) l)
              = (2 * length l)%nat) as Hlen.
    { induction l as [|i l IH]; simpl in *; lia. }
    rewrite Hlen, length_seq. lia.
  - intros x Hx. apply in_seq in Hx. apply in_flat_map.
    destruct (Nat.lt_ge_cases x ws).
    + exists x. split; [apply in_seq; lia|now left].
    + exists (2 * ws - 1 - x)%nat. split; [apply in_seq; lia|].
      right. left. lia.
Qed.

Lemma balanced_perm {A : Type} (ws : nat) (l : list A) :
  (1 <= ws)%nat ->
  Permutation
    (concat (map (fun i => Py.stride l i (2 * ws)
                           ++ Py.stride l (2 * ws - 1 - i) (2 * ws))
                 (seq 0 ws)))
    l.
Proof.
  intros Hws. rewrite <- flat_map_concat_map.
  transitivity
    (flat_map (fun k => Py.every (2 * ws) k l)
       (flat_map (fun i => [i; 2 * ws - 1 - i]%nat) (seq 0 ws))).
  - unfold Py.stride. induction (seq 0 ws) as [|i s IH]; simpl; [reflexivity|].
    rewrite <- IH, <- !app_assoc. reflexivity.
  - rewrite (flat_map_perm _ _ _ (snake_perm ws)). apply every_perm. lia.
Qed.

Lemma basic_perm {A : Type} (ws : nat) (l : list A) :
  (1 <= ws)%nat ->
  Permutation (concat (map (fun i => Py.stride l i ws) (seq 0 ws))) l.
Proof.
  intros Hws. rewrite <- flat_map_concat_map. now apply every_perm.
Qed.

Lemma concat_perm {A : Type} (l1 l2 : list (list A)) :
  Permutation l1 l2 -> Permutation (concat l1) (concat l2).
Proof.
  intros H. rewrite <- (map_id l1), <- (map_id l2), <- !flat_map_concat_map.
  now apply flat_map_perm.
Qed.

(** The greedy loop hands every pair to exactly one worker. *)
Lemma greedy_structure (pairs : list (Z * nat)) :
  forall assigned, assigned <> [] ->
  exists assigned',
    greedy pairs (map summary assigned) = Ok (map summary assigned')
    /\ length assigned' = length assigned
    /\ Permutation (concat assigned') (concat assigned ++ pairs).
Proof.
  induction pairs as [|cur rest IH]; intros assigned Hne.
  - exists assigned. simpl. rewrite app_nil_r. auto.
  - destruct assigned as [|b others]; [contradiction|].
    cbn [greedy map add_to_first summary bind].
    set (res1 := (_ :: map _ others)).
    assert (res1 = map summary ((b ++ [cur]) :: others)) as Hres1.
    { unfold res1, summary. simpl. rewrite !map_app, sum_app. simpl.
      do 3 f_equal. lia. }
    pose proof (sorted_perm Py.load_leb res1) as Hp. rewrite Hres1 in Hp at 2.
    apply Permutation_map_inv in Hp.
    destruct Hp as (assigned1 & Heq & Hperm).
    rewrite Heq.
    destruct (IH assigned1) as (assigned' & Hg & Hlen & Hc).
    { intros ->. apply Permutation_sym, Permutation_nil in Hperm. discriminate. }
    cbn [concat].
    exists assigned'. split; [exact Hg|]. split.
    + rewrite Hlen. apply Permutation_length in Hperm. simpl in *. lia.
    + rewrite Hc.
      rewrite <- (concat_perm _ _ Hperm).
      cbn [concat]. rewrite <- !app_assoc. apply Permutation_app_head.
      change (cur :: rest) with ([cur] ++ rest).
      rewrite !app_assoc. apply Permutation_app_tail, Permutation_app_comm.
Qed.

Lemma count_app (l1 l2 : list nat) (x : nat) :
  Py.count (l1 ++ l2) x = (Py.count l1 x + Py.count l2 x)%nat.
Proof. unfold Py.count. now rewrite filter_app, length_app. Qed.

Lemma count_const {A : Type} (l : list A) (j x : nat) :
  Py.count (map (fun _ => j) l) x = if (x =? j)%nat then length l else 0%nat.
Proof.
  unfold Py.count. induction l as [|y l IH]; simpl.
  - now destruct (x =? j)%nat.
  - destruct (x =? j)%nat; simpl; lia.
Qed.

Lemma count_perm (l1 l2 : list nat) (x : nat) :
  Permutation l1 l2 -> Py.count l1 x = Py.count l2 x.
Proof.
  induction 1; simpl; unfold Py.count in *; simpl; try lia.
  - destruct (x =? x0)%nat; simpl; lia.
  - destruct (x =? x0)%nat, (x =? y)%nat; simpl; lia.
Qed.

(** Table [i] occurs among the slice ids once per slice it was cut into. *)
Lemma flatten_ids_count (sliced : list (list Config)) (i : nat) :
  Py.count (flatten_ids sliced) i = length (nth i sliced []).
Proof.
  unfold flatten_ids, Py.enumerate.
  assert (forall l a,
    Py.count (flat_map (fun '(j, sc) => map (fun _ : Config => j) sc)
                (combine (seq a (length l)) l)) i
    = if (i <? a)%nat then 0%nat else length (nth (i - a) l [])) as H.
  { induction l as [|sc l IH]; intros a.
    - simpl. destruct (i <? a)%nat; [reflexivity|]. now destruct (i - a)%nat.
    - cbn [length seq combine flat_map]. rewrite count_app, count_const, IH.
      destruct (Nat.eqb_spec i a) as [->|Hne].
      + rewrite Nat.sub_diag. simpl.
        destruct (Nat.ltb_spec a (S a)); [|lia].
        destruct (Nat.ltb_spec a a); lia.
      + destruct (Nat.ltb_spec i a), (Nat.ltb_spec i (S a)); try lia.
        replace (i - a)%nat with (S (i - S a)) by lia. reflexivity. }
  rewrite (H sliced 0%nat). simpl. now rewrite Nat.sub_0_r.
Qed.

Lemma flatten_ids_length (sliced : list (list Config)) :
  length (flatten_ids sliced) = length (concat sliced).
Proof.
  unfold flatten_ids, Py.enumerate. generalize 0%nat.
  induction sliced as [|sc l IH]; intros a; simpl; [reflexivity|].
  rewrite !length_app, length_map, IH. reflexivity.
Qed.

Lemma sumn_lengths {A : Type} (ll : list (list A)) :
  Py.sumn (map (@length A) ll) = length (concat ll).
Proof. induction ll; simpl; [reflexivity|]. rewrite length_app. lia. Qed.

Lemma apply_stragety_partitions (mode : string) (ws : nat)
  (sliced : list (list Config)) :
  In mode supported_strategies -> (1 <= ws)%nat ->
  exists divided_ids,
    apply_stragety mode ws sliced = Ok divided_ids
    /\ partitions ws sliced divided_ids.
Proof.
  intros Hmode Hws. unfold apply_stragety, partitions.
  destruct Hmode as [<-|[<-|[<-|[]]]]; simpl String.eqb; cbv iota.
  - eexists. split; [reflexivity|]. split.
    + now rewrite length_map, length_seq.
    + now apply basic_perm.
  - eexists. split; [reflexivity|]. split.
    + now rewrite length_map, length_seq.
    + rewrite balanced_perm by assumption.
      rewrite sorted_reverse_perm.
      rewrite map_snd_combine by apply flatten_sizes_length. reflexivity.
  - unfold memory_optimized_loads.
    destruct (greedy_structure
                (rev (Py.sorted Py.pair_leb
                        (combine (flatten_sizes sliced) (flatten_ids sliced))))
                (repeat [] ws)) as (assigned & Hg & Hlen & Hperm).
    { destruct ws; [lia|discriminate]. }
    replace (map summary (repeat [] ws)) with (repeat (0, @nil nat) ws) in Hg
      by (now rewrite map_repeat).
    rewrite Hg. simpl. eexists. split; [reflexivity|]. split.
    + now rewrite !length_map, Hlen, repeat_length.
    + unfold summary. rewrite map_map. simpl.
      rewrite <- (map_map (map snd) (fun x => x)), map_id, <- concat_map.
      rewrite Hperm.
      replace (concat (repeat [] ws)) with (@nil (Z * nat))
        by (clear; induction ws; simpl; auto).
      simpl. rewrite <- Permutation_rev, sorted_perm.
      rewrite map_snd_combine by apply flatten_sizes_length. reflexivity.
Qed.

(** C5: for each of the three strategies and every [world_size >= 1],
    [apply_stragety] returns exactly [world_size] buckets; their lengths sum
    to the number of slices, and together they hold the slice table-ids as a
    multiset: table [i] occurs in them once per slice of table [i]. *)
Theorem apply_stragety_partition (mode : string) (ws : nat)
  (sliced : list (list Config)) :
  In mode supported_strategies -> (1 <= ws)%nat ->
  exists divided_ids,
    apply_stragety mode ws sliced = Ok divided_ids
    /\ length divided_ids = ws
    /\ Py.sumn (map (@length nat) divided_ids) = length (concat sliced)
    /\ Permutation (concat divided_ids) (flatten_ids sliced)
    /\ forall i, Py.count (concat divided_ids) i = length (nth i sliced []).
Proof.
  intros Hmode Hws.
  destruct (apply_stragety_partitions mode ws sliced Hmode Hws)
    as (divided & Heq & Hlen & Hperm).
  exists divided. repeat split; try assumption.
  - rewrite sumn_lengths, <- flatten_ids_length. now apply Permutation_length.
  - intros i. rewrite (count_perm _ _ i Hperm). apply flatten_ids_count.
Qed.

Lemma apply_stragety_partition_witness :
  exists divided_ids,
    apply_stragety "memory_balanced" 2
      [[mkConfig 100 8 []]; [mkConfig 50 16 []]; [mkConfig 200 4 []]]
    = Ok divided_ids
    /\ length divided_ids = 2%nat
    /\ Py.sumn (map (@length nat) divided_ids) = 3%nat
    /\ Permutation (concat divided_ids) [0; 1; 2]%nat
    /\ forall i, Py.count (concat divided_ids) i
                 = length (nth i [[mkConfig 100 8 []]; [mkConfig 50 16 []];
                                  [mkConfig 200 4 []]] []).
Proof.
  apply (apply_stragety_partition "memory_balanced" 2
           [[mkConfig 100 8 []]; [mkConfig 50 16 []]; [mkConfig 200 4 []]]).
  - simpl. auto.
  - lia.
Defined.

(** ** The bound of the greedy assignment *)

Lemma sum_perm (l1 l2 : list Z) : Permutation l1 l2 -> Py.sum l1 = Py.sum l2.
Proof. induction 1; simpl; lia. Qed.

Lemma min_times_length (m : Z) (res : list (Z * list nat)) :
  Forall (fun r => m <= fst r) res ->
  Z.of_nat (length res) * m <= Py.sum (map fst res).
Proof.
  induction 1 as [|r res Hr _ IH]; [simpl; lia|].
  change (length (r :: res)) with (S (length res)). rewrite Nat2Z.inj_succ.
  change (Py.sum (map fst (r :: res))) with (fst r + Py.sum (map fst res)).
  lia.
Qed.

Lemma load_leb_true (p q : Z * list nat) : Py.load_leb p q = true -> by_load p q.
Proof.
  unfold Py.load_leb, by_load.
  destruct (Z.ltb_spec (fst p) (fst q)); [lia|].
  destruct (Z.ltb_spec (fst q) (fst p)); [discriminate|lia].
Qed.

Lemma load_leb_false (p q : Z * list nat) : Py.load_leb p q = false -> by_load q p.
Proof.
  unfold Py.load_leb, by_load.
  destruct (Z.ltb_spec (fst p) (fst q)); [discriminate|lia].
Qed.

Lemma by_load_trans (x y z : Z * list nat) : by_load x y -> by_load y z -> by_load x z.
Proof. unfold by_load. lia. Qed.

Lemma greedy_bound (M : Z) (ws : nat) :
  0 <= M -> (1 <= ws)%nat ->
  forall pairs res res' acc,
    greedy pairs res = Ok res' ->
    length res = ws ->
    StronglySorted by_load res ->
    Forall (fun p => 0 <= fst p <= M) pairs ->
    Py.sum (map fst res) = acc ->
    Forall (fun r => fst r <= acc / Z.of_nat ws + M) res ->
    Forall (fun r => fst r <= (acc + Py.sum (map fst pairs)) / Z.of_nat ws + M) res'.
Proof.
  intros HM Hws. induction pairs as [|cur rest IH];
    intros res res' acc Hg Hlen Hsorted Hpairs Hsum Hbound.
  - simpl in *. injection Hg as <-. now rewrite Z.add_0_r.
  - cbn [greedy] in Hg. apply bind_Ok in Hg. destruct Hg as (res1 & Hadd & Hg).
    destruct res as [|[total ids] others]; [discriminate|].
    injection Hadd as <-.
    apply Forall_cons_iff in Hpairs. destruct Hpairs as [Hcur Hrest].
    apply StronglySorted_inv in Hsorted. destruct Hsorted as [_ Hmin].
    apply Forall_cons_iff in Hbound. destruct Hbound as [Hhead Hothers].
    change (Py.sum (map fst ((total, ids) :: others)))
      with (total + Py.sum (map fst others)) in Hsum.
    change (Py.sum (map fst (cur :: rest)))
      with (fst cur + Py.sum (map fst rest)).
    assert (0 < Z.of_nat ws) as Hw by lia.
    assert (total <= acc / Z.of_nat ws) as Htotal.
    { apply Z.div_le_lower_bound; [lia|]. rewrite <- Hsum, <- Hlen.
      apply (min_times_length total ((total, ids) :: others)).
      constructor; [simpl; lia|exact Hmin]. }
    assert (acc / Z.of_nat ws <= (acc + fst cur) / Z.of_nat ws) as Hmono
      by (apply Z.div_le_mono; lia).
    pose proof (sorted_perm Py.load_leb
                  ((total + fst cur, ids ++ [snd cur]) :: others)) as Hperm.
    replace (acc + (fst cur + Py.sum (map fst rest)))
      with ((acc + fst cur) + Py.sum (map fst rest)) by lia.
    eapply IH; [exact Hg|..].
    + rewrite sorted_length. exact Hlen.
    + apply sorted_sorted;
        [exact by_load_trans|exact load_leb_true|exact load_leb_false].
    + exact Hrest.
    + rewrite (sum_perm _ _ (Permutation_map fst Hperm)).
      change (total + fst cur + Py.sum (map fst others) = acc + fst cur). lia.
    + eapply Permutation_Forall; [symmetry; exact Hperm|].
      constructor; [simpl; lia|].
      eapply Forall_impl; [|exact Hothers]. simpl. intros r Hr. lia.
Qed.

Lemma largest_nonneg (l : list Z) : 0 <= largest l.
Proof. induction l; simpl; lia. Qed.

Lemma largest_ge (l : list Z) (x : Z) : In x l -> x <= largest l.
Proof.
  induction l as [|y l IH]; simpl; [tauto|].
  intros [->|H]; [lia|]. specialize (IH H). lia.
Qed.

Lemma flatten_sizes_concat (sliced : list (list Config)) :
  flatten_sizes sliced = map elements (concat sliced).
Proof.
  unfold flatten_sizes, Py.enumerate. generalize 0%nat.
  induction sliced as [|sc l IH]; intros a; simpl; [reflexivity|].
  now rewrite map_app, IH.
Qed.

Lemma sorted_repeat {A : Type} (R : A -> A -> Prop) (x : A) (n : nat) :
  R x x -> StronglySorted R (repeat x n).
Proof.
  intros Hx. induction n as [|n IH]; simpl; constructor; [assumption|].
  apply Forall_forall. intros y Hy. apply repeat_spec in Hy. now subst.
Qed.




(** ** memory_balanced: slice counts *)

Lemma div_lt_two (a b : nat) :
  (0 < b)%nat -> (a < 2 * b)%nat ->
  (a / b)%nat = if (a <? b)%nat then 0%nat else 1%nat.
Proof.
  intros Hb Ha. destruct (Nat.ltb_spec a b).
  - now apply Nat.div_small.
  - replace a with ((a - b) + 1 * b)%nat by lia.
    rewrite Nat.div_add by lia. rewrite Nat.div_small by lia. reflexivity.
Qed.

Lemma balanced_bucket_length {A : Type} (ws : nat) (l : list A) (i : nat) :
  (1 <= ws)%nat -> (i < ws)%nat ->
  length (Py.stride l i (2 * ws) ++ Py.stride l (2 * ws - 1 - i) (2 * ws))
  = (2 * (length l / (2 * ws))
     + (if i <? length l mod (2 * ws) then 1 else 0)
     + (if 2 * ws <=? length l mod (2 * ws) + i then 1 else 0))%nat.
Proof.
  intros Hws Hi. unfold Py.stride.
  rewrite length_app, !every_length by lia.
  set (n := length l). set (b := (2 * ws)%nat).
  assert (0 < b)%nat as Hb by (unfold b; lia).
  pose proof (Nat.div_mod_eq n b) as Hn.
  pose proof (Nat.mod_upper_bound n b ltac:(lia)) as Hr.
  set (q := (n / b)%nat) in *. set (r := (n mod b)%nat) in *.
  replace (b - 1 - (b - 1 - i))%nat with i by (unfold b; lia).
  replace (n + (b - 1 - i))%nat with (q * b + (r + (b - 1 - i)))%nat by lia.
  replace (n + i)%nat with (q * b + (r + i))%nat by lia.
  rewrite !Nat.div_add_l by lia.
  rewrite (div_lt_two (r + (b - 1 - i)) b) by (unfold b in *; lia).
  rewrite (div_lt_two (r + i) b) by (unfold b in *; lia).
  destruct (Nat.ltb_spec (r + (b - 1 - i)) b), (Nat.ltb_spec i r),
    (Nat.ltb_spec (r + i) b), (Nat.leb_spec b (r + i)); unfold b in *; lia.
Qed.

(** C6 (as stated, refuted): three slices on two workers are split 1 + 2. *)
Lemma memory_balanced_uneven :
  apply_stragety "memory_balanced" 2
    [[mkConfig 100 8 []]; [mkConfig 50 16 []]; [mkConfig 200 4 []]]
  = Ok [[2]; [1; 0]]%nat
  /\ length [2%nat] <> length [1; 0]%nat.
Proof. split; [reflexivity|discriminate]. Qed.

(** C6 (amended): for every slice list and every [world_size >= 1], the
    memory_balanced strategy gives any two workers slice counts that differ
    by at most one; when the number of slices is a multiple of [world_size],
    every worker gets the same number. *)
Theorem memory_balanced_counts (ws : nat) (sliced : list (list Config)) :
  (1 <= ws)%nat ->
  exists divided_ids,
    apply_stragety "memory_balanced" ws sliced = Ok divided_ids
    /\ (forall b1 b2, In b1 divided_ids -> In b2 divided_ids ->
                      (length b1 <= length b2 + 1)%nat)
    /\ ((length (concat sliced) mod ws)%nat = 0%nat ->
        Forall (fun b => length b = (length (concat sliced) / ws)%nat)
               divided_ids).
Proof.
  intros Hws. unfold apply_stragety. simpl String.eqb. cbv iota.
  eexists. split; [reflexivity|].
  set (ids := map snd _).
  assert (length ids = length (concat sliced)) as Hids.
  { unfold ids. rewrite length_map.
    rewrite (Permutation_length (sorted_reverse_perm _ _)).
    rewrite length_combine, flatten_sizes_length, Nat.min_id.
    apply flatten_ids_length. }
  set (n := length (concat sliced)) in *.
  set (b := (2 * ws)%nat).
  assert (0 < b)%nat as Hb by (unfold b; lia).
  pose proof (Nat.div_mod_eq n b) as Hn.
  pose proof (Nat.mod_upper_bound n b ltac:(lia)) as Hr.
  assert (forall bk, In bk (map (fun i => Py.stride ids i (2 * ws)
                                   ++ Py.stride ids (2 * ws - 1 - i) (2 * ws))
                               (seq 0 ws)) ->
           exists i, (i < ws)%nat /\
             length bk = (2 * (n / b)
                          + (if i <? n mod b then 1 else 0)
                          + (if b <=? n mod b + i then 1 else 0))%nat) as Hbk.
  { intros bk Hin. apply in_map_iff in Hin. destruct Hin as (i & <- & Hi).
    apply in_seq in Hi. exists i. split; [lia|].
    rewrite balanced_bucket_length by lia. rewrite Hids. reflexivity. }
  split.
  - intros b1 b2 H1 H2.
    destruct (Hbk b1 H1) as (i & Hi & ->). destruct (Hbk b2 H2) as (j & Hj & ->).
    destruct (Nat.ltb_spec i (n mod b)), (Nat.leb_spec b (n mod b + i)),
      (Nat.ltb_spec j (n mod b)), (Nat.leb_spec b (n mod b + j));
      unfold b in *; lia.
  - intros Hdiv. apply Forall_forall. intros bk Hin.
    destruct (Hbk bk Hin) as (i & Hi & ->).
    apply Nat.Div0.div_exact in Hdiv.
    set (k := (n / ws)%nat) in *. set (q := (n / b)%nat) in *.
    set (r := (n mod b)%nat) in *.
    assert (k = 2 * q /\ r = 0 \/ k = 2 * q + 1 /\ r = ws)%nat as Hcases.
    { unfold b in *. 
      assert (ws * k = ws * (2 * q) + r)%nat as He by lia.
      destruct (Nat.lt_trichotomy k (2 * q)) as [Hlt|[Heq|Hgt]].
      - exfalso. nia.
      - left. nia.
      - right. assert (k = 2 * q + 1)%nat by nia. nia. }
    destruct (Nat.ltb_spec i r), (Nat.leb_spec b (r + i)); unfold b in *; lia.
Qed.

Lemma memory_balanced_counts_witness :
  exists divided_ids,
    apply_stragety "memory_balanced" 2
      [[mkConfig 100 8 []]; [mkConfig 50 16 []]; [mkConfig 200 4 []];
       [mkConfig 10 4 []]]
    = Ok divided_ids
    /\ (forall b1 b2, In b1 divided_ids -> In b2 divided_ids ->
                      (length b1 <= length b2 + 1)%nat)
    /\ ((4 mod 2)%nat = 0%nat ->
        Forall (fun b => length b = (4 / 2)%nat) divided_ids).
Proof.
  apply (memory_balanced_counts 2
           [[mkConfig 100 8 []]; [mkConfig 50 16 []]; [mkConfig 200 4 []];
            [mkConfig 10 4 []]]).
  lia.
Defined.

(** ** Unsupported strategies *)

Lemma unsupported_eqb (mode : string) :
  ~ In mode supported_strategies ->
  String.eqb mode "basic" = false
  /\ String.eqb mode "memory_balanced" = false
  /\ String.eqb mode "memory_optimized" = false.
Proof.
  intros Hn. repeat split; apply String.eqb_neq; intros ->; apply Hn; simpl; auto.
Qed.

(** C9 (the defect): for a strategy name outside the three supported ones,
    [DistributedEmbedding.__init__] raises [ValueError] at once, but
    [apply_stragety] does not: building the message of its [ValueError] reads
    the name [strategy], which is not bound in that function, so what it
    raises is a [NameError].  No fallback strategy is applied in either. *)
Theorem unknown_strategy_raises (name : string) :
  ~ In name supported_strategies ->
  (forall fuel hvd_size hvd_rank embeddings threshold row_slice dp input_table_map,
      DistributedEmbedding_init fuel hvd_size hvd_rank embeddings name threshold
        row_slice dp input_table_map
      = Raise (ValueError ("Unsupported shard strategy " ++ name)))
  /\ (forall ws sliced,
         apply_stragety name ws sliced = Raise (NameError "strategy")).
Proof.
  intros Hn. destruct (unsupported_eqb name Hn) as (H1 & H2 & H3). split.
  - intros. unfold DistributedEmbedding_init, supported_strategies.
    cbn [existsb]. 
    rewrite (String.eqb_sym name "basic"), (String.eqb_sym name "memory_balanced"),
      (String.eqb_sym name "memory_optimized") in *.
    rewrite ?H1, ?H2, ?H3. reflexivity.
  - intros. unfold apply_stragety. rewrite H1, H2, H3. reflexivity.
Qed.

Lemma unknown_strategy_raises_witness :
  (forall fuel hvd_size hvd_rank embeddings threshold row_slice dp input_table_map,
      DistributedEmbedding_init fuel hvd_size hvd_rank embeddings "round_robin"
        threshold row_slice dp input_table_map
      = Raise (ValueError ("Unsupported shard strategy " ++ "round_robin")))
  /\ (forall ws sliced,
         apply_stragety "round_robin" ws sliced = Raise (NameError "strategy")).
Proof.
  apply (unknown_strategy_raises "round_robin").
  simpl. intros [H|[H|[H|[]]]]; discriminate.
Defined.

(** ** The plan does not depend on the rank *)

Lemma foldM_app {A S : Type} (body : S -> A -> result S) (xs ys : list A) (acc : S) :
  foldM body (xs ++ ys) acc = (acc' <- foldM body xs acc ;; foldM body ys acc').
Proof.
  revert acc. induction xs as [|x xs IH]; intros acc; simpl; [reflexivity|].
  destruct (body acc x); simpl; auto.
Qed.

Lemma worker_step_lengths (m : list Z) (tids : list (list nat)) :
  forall sc g sc' g',
    foldM (worker_step m) tids (sc, g) = Ok (sc', g') ->
    length (g_local_map_list g') = (length (g_local_map_list g) + length tids)%nat
    /\ length (g_local_configs_list g')
       = (length (g_local_configs_list g) + length tids)%nat
    /\ length (g_input_ids_list g')
       = (length (g_input_ids_list g) + length tids)%nat.
Proof.
  induction tids as [|t tids IH]; intros sc g sc' g' H.
  - simpl in H. injection H as <- <-. simpl. lia.
  - cbn [foldM] in H. apply bind_Ok in H. destruct H as ([sc1 g1] & Hstep & H).
    apply IH in H. unfold worker_step in Hstep.
    apply bind_Ok in Hstep. destruct Hstep as ([sc2 r] & _ & Hstep).
    injection Hstep as <- <-. cbn [g_local_map_list g_local_configs_list
      g_input_ids_list] in H. rewrite !length_app in H. simpl in *. lia.
Qed.

Lemma getnat_Ok {A : Type} (l : list A) (i : nat) :
  (i < length l)%nat -> exists x, Py.getnat l i = Ok x.
Proof.
  intros H. unfold Py.getnat. destruct (nth_error l i) eqn:E; eauto.
  apply nth_error_None in E. lia.
Qed.

(** C2: for fixed table configs, world size, strategy, threshold and
    input-table map, constructing [DistEmbeddingStrategy] on two ranks of
    the group ends the same way -- the same exception, or two objects whose
    [table_ids_list], [input_ids_list], [local_configs_list],
    [widths_list_flat], [rev_global_input_ids] and [sliced_out_ranges]
    are identical. *)
Theorem plan_independent_of_rank (fuel : nat) (embeddings : list Config)
  (ws r1 r2 : nat) (name : string) (input_table_map : option (list Z))
  (threshold : option Z) :
  (r1 < ws)%nat -> (r2 < ws)%nat ->
  match DistEmbeddingStrategy_init fuel embeddings ws r1 name input_table_map
          threshold,
        DistEmbeddingStrategy_init fuel embeddings ws r2 name input_table_map
          threshold
  with
  | Ok s1, Ok s2 => global_plan s1 = global_plan s2
  | Raise e1, Raise e2 => e1 = e2
  | Diverge, Diverge => True
  | _, _ => False
  end.
Proof.
  intros H1 H2. unfold DistEmbeddingStrategy_init.
  destruct (Nat.eqb_spec ws 1) as [_|Hws]; [reflexivity|].
  set (m := match input_table_map with
            | Some m => m
            | None => Py.range (Z.of_nat (length embeddings))
            end).
  destruct (create_sliced_configs fuel embeddings ws threshold m)
    as [[sliced ranges]| |]; simpl; auto.
  destruct (apply_stragety name ws sliced) as [tids| |] eqn:Happly; simpl; auto.
  destruct (foldM (worker_step m) tids (sliced, mkGlobal [] [] [] []))
    as [[sc g]| |] eqn:Hfold; simpl; auto.
  assert (length tids = ws) as Hlen.
  { destruct (in_dec string_dec name supported_strategies) as [Hin|Hout].
    - destruct (apply_stragety_partitions name ws sliced Hin ltac:(lia))
        as (d & Hd & Hl & _). congruence.
    - destruct (unknown_strategy_raises name Hout) as [_ Hr].
      rewrite Hr in Happly. discriminate. }
  destruct (worker_step_lengths _ _ _ _ _ _ Hfold) as (Hm & Hc & _).
  simpl in Hm, Hc.
  destruct (getnat_Ok (g_local_map_list g) r1 ltac:(lia)) as [x1 ->].
  destruct (getnat_Ok (g_local_map_list g) r2 ltac:(lia)) as [x2 ->].
  destruct (getnat_Ok (g_local_configs_list g) r1 ltac:(lia)) as [y1 ->].
  destruct (getnat_Ok (g_local_configs_list g) r2 ltac:(lia)) as [y2 ->].
  reflexivity.
Qed.

Lemma plan_independent_of_rank_witness :
  match DistEmbeddingStrategy_init 10
          [mkConfig 100 8 []; mkConfig 50 16 []; mkConfig 200 4 []] 2 0
          "basic" None (Some 500),
        DistEmbeddingStrategy_init 10
          [mkConfig 100 8 []; mkConfig 50 16 []; mkConfig 200 4 []] 2 1
          "basic" None (Some 500)
  with
  | Ok s1, Ok s2 => global_plan s1 = global_plan s2
  | Raise e1, Raise e2 => e1 = e2
  | Diverge, Diverge => True
  | _, _ => False
  end.
Proof.
  apply (plan_independent_of_rank 10
           [mkConfig 100 8 []; mkConfig 50 16 []; mkConfig 200 4 []] 2 0 1
           "basic" None (Some 500)); lia.
Defined.


(** * Gradient routing *)

Lemma mapM_nth {A B : Type} (f : A -> result B) (l : list A) (r : list B) :
  length l = length r ->
  (forall k x, nth_error l k = Some x ->
               exists y, nth_error r k = Some y /\ f x = Ok y) ->
  mapM f l = Ok r.
Proof.
  revert r. induction l as [|x l IH]; intros [|y r] Hlen H; simpl in *;
    try discriminate; [reflexivity|].
  destruct (H 0%nat x eq_refl) as (y' & Hy & Hf). injection Hy as <-.
  rewrite Hf. simpl. rewrite (IH r); [reflexivity|lia|].
  intros k x' Hk. exact (H (S k) x' Hk).
Qed.

Lemma nth_error_filter {A : Type} (P : A -> bool) (l : list A) (k : nat) (x : A) :
  nth_error l k = Some x -> P x = true ->
  nth_error (filter P l) (length (filter P (firstn k l))) = Some x.
Proof.
  revert k. induction l as [|y l IH]; intros [|k] Hk HP; simpl in *;
    try discriminate.
  - injection Hk as ->. now rewrite HP.
  - destruct (P y); simpl; now apply IH.
Qed.

Lemma nth_error_enumerate {A : Type} (l : list A) (k : nat) (x : A) :
  nth_error l k = Some x -> nth_error (Py.enumerate l) k = Some (k, x).
Proof.
  unfold Py.enumerate. intros H.
  assert (forall a (l : list A) k x, nth_error l k = Some x ->
            nth_error (combine (seq a (length l)) l) k = Some ((a + k)%nat, x)) as G.
  { clear. intros a l. revert a. induction l as [|y l IH]; intros a [|k] x H;
      simpl in *; try discriminate.
    - injection H as ->. now rewrite Nat.add_0_r.
    - rewrite (IH (S a) k x H). f_equal. f_equal. lia. }
  now rewrite (G 0%nat l k x H).
Qed.

Lemma enumerate_length {A : Type} (l : list A) : length (Py.enumerate l) = length l.
Proof. unfold Py.enumerate. rewrite length_combine, length_seq. lia. Qed.

Lemma nth_error_enumerate_inv {A : Type} (l : list A) (k : nat) (p : nat * A) :
  nth_error (Py.enumerate l) k = Some p -> p = (k, snd p) /\ nth_error l k = Some (snd p).
Proof.
  intros H. destruct (nth_error l k) as [x|] eqn:E.
  - rewrite (nth_error_enumerate l k x E) in H. injection H as <-. auto.
  - apply nth_error_None in E. rewrite <- (enumerate_length l) in E.
    apply nth_error_None in E. congruence.
Qed.

Section GradientFacts.
Context {T : Type}.
Variable divide : T -> nat -> T.
Variable hvd_allreduce_average : string -> list (@gradient_value T) -> @gradient_value T.


(** The gradients of the variables of one class, in source order. *)
Let select (P : variable -> bool) (gs : list (@gradient_value T)) (sources : list variable) :=
  map fst (filter (fun e : (@gradient_value T) * variable => P (snd e)) (combine gs sources)).

Let infos := fix infos (a b : nat) (sources : list variable) : list (bool * nat) :=
  match sources with
  | [] => []
  | v :: r => if is_mp v then (true, a) :: infos (S a) b r
              else (false, b) :: infos a (S b) r
  end.

Lemma classify_spec (ws : nat) (gs : list (@gradient_value T)) (sources : list variable) :
  length gs = length sources ->
  forall st,
    let st' := fold_left (classify divide ws) (combine gs sources) st in
    mp_grads st' = mp_grads st ++ map (scale_down divide ws) (select is_mp gs sources)
    /\ dp_grads st' = dp_grads st ++ select (fun v => negb (is_mp v)) gs sources
    /\ split_infos st'
       = split_infos st ++ infos (length (mp_grads st)) (length (dp_grads st)) sources.
Proof.
  revert sources. induction gs as [|g gs IH]; intros [|v sources] Hlen st;
    simpl in Hlen; try discriminate.
  - simpl. now rewrite !app_nil_r.
  - cbn [combine fold_left]. unfold select in *. cbn [combine filter snd].
    specialize (IH sources ltac:(lia) (classify divide ws st (g, v))).
    cbv zeta in IH. destruct IH as (Hm & Hd & Hi).
    cbv zeta. rewrite Hm, Hd, Hi. unfold classify, is_mp. cbn [infos].
    unfold is_mp.
    destruct (sync_eqb (synchronization v) NONE); cbn [negb mp_grads dp_grads
      split_infos map fst]; rewrite <- !app_assoc, ?length_app; cbn [length app];
      repeat split; do 3 f_equal; lia.
Qed.

Lemma infos_nth (sources : list variable) :
  forall a b k v, nth_error sources k = Some v ->
    nth_error (infos a b sources) k
    = Some (if is_mp v
            then (true, (a + length (filter is_mp (firstn k sources)))%nat)
            else (false, (b + dp_position sources k)%nat)).
Proof.
  unfold dp_position.
  induction sources as [|u sources IH]; intros a b [|k] v H; simpl in H;
    try discriminate.
  - injection H as ->. cbn [infos firstn filter length nth_error].
    rewrite !Nat.add_0_r. now destruct (is_mp v).
  - cbn [infos firstn filter]. unfold is_mp at 1 3.
    destruct (sync_eqb (synchronization u) NONE) eqn:E; cbn [nth_error negb];
      rewrite (IH _ _ k v H); destruct (is_mp v); cbn [length];
      do 2 f_equal; lia.
Qed.

Lemma infos_length (sources : list variable) :
  forall a b, length (infos a b sources) = length sources.
Proof.
  induction sources as [|u sources IH]; intros a b; simpl; [reflexivity|].
  destruct (is_mp u); simpl; now rewrite IH.
Qed.

Lemma select_nth (P : variable -> bool) (gs : list (@gradient_value T)) (sources : list variable)
  (k : nat) (g : (@gradient_value T)) (v : variable) :
  nth_error gs k = Some g -> nth_error sources k = Some v -> P v = true ->
  nth_error (select P gs sources) (length (filter P (firstn k sources))) = Some g.
Proof.
  intros Hg Hv HP. unfold select.
  assert (nth_error (combine gs sources) k = Some (g, v)) as Hk.
  { revert sources k Hg Hv. clear. induction gs as [|g' gs IH];
      intros [|v' sources] [|k] Hg Hv; simpl in *; try discriminate.
    - congruence.
    - now apply IH. }
  assert (length (filter P (firstn k sources))
          = length (filter (fun e : (@gradient_value T) * variable => P (snd e))
                      (firstn k (combine gs sources)))) as ->.
  { assert (k < length gs)%nat as Hlt by (apply nth_error_Some; congruence).
    clear - Hlt. revert sources k Hlt.
    induction gs as [|g' gs IH]; intros [|v' sources] [|k] Hlt; simpl in *;
      try lia; try reflexivity.
    specialize (IH sources k ltac:(lia)). destruct (P v'); simpl; lia. }
  rewrite nth_error_map.
  rewrite (nth_error_filter (fun e : (@gradient_value T) * variable => P (snd e)) _ k (g, v) Hk HP).
  reflexivity.
Qed.

Lemma select_length (P : variable -> bool) (gs : list (@gradient_value T)) (sources : list variable) :
  length gs = length sources ->
  length (select P gs sources) = length (filter P sources).
Proof.
  unfold select. rewrite length_map. revert sources.
  induction gs as [|g gs IH]; intros [|v sources] H; simpl in *; try discriminate;
    [reflexivity|]. specialize (IH sources ltac:(lia)).
  destruct (P v); simpl; lia.
Qed.

Lemma mapM_map {A B : Type} (f : A -> result B) (g : A -> B) (l : list A) :
  (forall x, In x l -> f x = Ok (g x)) -> mapM f l = Ok (map g l).
Proof.
  induction l as [|x l IH]; intros H; simpl; [reflexivity|].
  rewrite (H x (or_introl eq_refl)). simpl. rewrite IH; [reflexivity|].
  intros y Hy. apply H. now right.
Qed.

Lemma column_getnat (ll : list (list (@gradient_value T))) (i : nat) :
  (forall gs, In gs ll -> (i < length gs)%nat) ->
  mapM (fun grads => Py.getnat grads i) ll = Ok (column ll i).
Proof.
  unfold column.
  induction ll as [|gs ll IH]; intros H; cbn [mapM flat_map]; [reflexivity|].
  rewrite IH by (intros gs' Hin; apply H; now right).
  unfold Py.getnat. destruct (nth_error gs i) as [x|] eqn:E; [reflexivity|].
  exfalso.
  apply nth_error_None in E. specialize (H gs (or_introl eq_refl)). lia.
Qed.


End GradientFacts.



(** * The structure of the plan *)

Lemma mapM_Forall2 {A B : Type} (f : A -> result B) (l : list A) (r : list B) :
  mapM f l = Ok r -> Forall2 (fun x y => f x = Ok y) l r.
Proof.
  revert r. induction l as [|x l IH]; intros r H; simpl in H.
  - injection H as <-. constructor.
  - apply bind_Ok in H. destruct H as (y & Hy & H).
    apply bind_Ok in H. destruct H as (ys & Hys & H). injection H as <-.
    constructor; auto.
Qed.

Lemma Forall2_mapM {A B : Type} (f : A -> result B) (l : list A) (r : list B) :
  Forall2 (fun x y => f x = Ok y) l r -> mapM f l = Ok r.
Proof. induction 1; simpl; [reflexivity|]. now rewrite H, IHForall2. Qed.

Lemma maybe_slice_table_column_form (fuel : nat) (c : Config) (thr : option Z)
  (ws : nat) (sl : list Config) :
  maybe_slice_table_column fuel c thr ws = Ok sl ->
  1 <= output_dim c -> (1 <= ws)%nat ->
  exists k, (1 <= k)%nat /\ Z.of_nat k <= output_dim c /\ sl = even_slices c k.
Proof.
  intros H Hod Hws. unfold maybe_slice_table_column in H.
  apply bind_Ok in H. destruct H as (n & Hn & H).
  apply halve_until_fits_ge in Hn; [|lia].
  unfold slice_columns in H. destruct (Z.eqb_spec n 1) as [->|Hn1].
  - injection H as <-. exists 1%nat. repeat split; try lia.
    unfold even_slices, even_width. simpl. rewrite Z.div_1_r, Z.mod_1_r. simpl.
    rewrite Z.add_0_r. now destruct c.
  - set (K := Z.min (Z.min n (Z.of_nat ws)) (output_dim c)) in *.
    assert (1 <= K) as HK by (unfold K; lia).
    destruct (Z.eqb_spec K 0); [lia|]. injection H as <-.
    exists (Z.to_nat K). repeat split; try lia.
    unfold even_slices, even_width, Py.range. rewrite map_map.
    rewrite Z2Nat.id by lia. apply map_ext. intros j.
    destruct (Z.of_nat j <? output_dim c mod K); f_equal; lia.
Qed.

(** ** Occurrence counting *)

Lemma with_occurrence_app {A : Type} (F : nat -> nat -> A) (l1 l2 pre : list nat) :
  with_occurrence F pre (l1 ++ l2)
  = with_occurrence F pre l1 ++ with_occurrence F (pre ++ l1) l2.
Proof.
  revert pre. induction l1 as [|t l1 IH]; intros pre; simpl.
  - now rewrite app_nil_r.
  - rewrite IH, <- app_assoc. reflexivity.
Qed.

Lemma per_worker_concat {A : Type} (F : nat -> nat -> A) (tids : list (list nat)) :
  forall pre, concat (per_worker F pre tids) = with_occurrence F pre (concat tids).
Proof.
  induction tids as [|r tids IH]; intros pre; simpl; [reflexivity|].
  now rewrite IH, with_occurrence_app.
Qed.

Lemma with_occurrence_length {A : Type} (F : nat -> nat -> A) (l : list nat) :
  forall pre, length (with_occurrence F pre l) = length l.
Proof. induction l; intros pre; simpl; auto. Qed.

Lemma per_worker_length {A : Type} (F : nat -> nat -> A) (tids : list (list nat)) :
  forall pre, length (per_worker F pre tids) = length tids.
Proof. induction tids; intros pre; simpl; auto. Qed.

Lemma with_occurrence_map {A B : Type} (g : A -> B) (F : nat -> nat -> A)
  (l : list nat) :
  forall pre, map g (with_occurrence F pre l)
              = with_occurrence (fun t j => g (F t j)) pre l.
Proof. induction l; intros pre; simpl; [reflexivity|]. now rewrite IHl. Qed.

Lemma per_worker_nth {A : Type} (F : nat -> nat -> A) (tids : list (list nat)) :
  forall pre w,
    (w < length tids)%nat ->
    nth w (per_worker F pre tids) []
    = with_occurrence F (pre ++ concat (firstn w tids)) (nth w tids []).
Proof.
  induction tids as [|r tids IH]; intros pre w Hw; simpl in Hw; [lia|].
  destruct w as [|w]; simpl.
  - now rewrite app_nil_r.
  - rewrite IH by lia. now rewrite app_assoc.
Qed.

(** ** The loops of [__init__] *)

Lemma count_snoc (pre : list nat) (t t' : nat) :
  Py.count (pre ++ [t]) t' = (Py.count pre t' + if (t' =? t)%nat then 1 else 0)%nat.
Proof.
  rewrite count_app. unfold Py.count at 2. simpl.
  destruct (t' =? t)%nat; reflexivity.
Qed.

Lemma nth_setitem {A : Type} (l : list A) (i j : nat) (v d : A) :
  (i < length l)%nat ->
  nth j (setitem l i v) d = if (j =? i)%nat then v else nth j l d.
Proof.
  revert i j. induction l as [|x l IH]; intros i j Hi; simpl in Hi; [lia|].
  destruct i as [|i], j as [|j]; simpl; try reflexivity.
  apply IH. lia.
Qed.

Lemma setitem_length {A : Type} (l : list A) (i : nat) (v : A) :
  length (setitem l i v) = length l.
Proof.
  revert i. induction l as [|x l IH]; intros [|i]; simpl; auto.
Qed.

Lemma skipn_cons_nth {A : Type} (l : list A) (j : nat) (d : A) :
  (j < length l)%nat -> skipn j l = nth j l d :: skipn (S j) l.
Proof.
  revert j. induction l as [|x l IH]; intros j Hj; simpl in Hj; [lia|].
  destruct j as [|j]; [reflexivity|]. simpl. apply IH. lia.
Qed.

Lemma pop_slice_spec (sliced sc : list (list Config)) (pre : list nat) (t : nat) :
  remaining sliced pre sc ->
  (Py.count pre t < length (nth t sliced []))%nat ->
  exists sc',
    pop_slice sc t = Ok (slice_config sliced t (Py.count pre t), sc')
    /\ remaining sliced (pre ++ [t]) sc'.
Proof.
  intros [Hlen Hrem] Hlt.
  assert (t < length sliced)%nat as Ht.
  { destruct (Nat.lt_ge_cases t (length sliced)); [assumption|].
    rewrite nth_overflow in Hlt by assumption. simpl in Hlt. lia. }
  unfold pop_slice.
  rewrite (nth_error_nth' sc [] ) by lia. rewrite Hrem.
  rewrite (skipn_cons_nth _ _ (mkConfig 0 0 []) Hlt).
  eexists. split; [reflexivity|]. split.
  - now rewrite setitem_length.
  - intros t'. rewrite nth_setitem by lia. rewrite count_snoc.
    destruct (Nat.eqb_spec t' t) as [->|Hne].
    + now rewrite Nat.add_1_r.
    + now rewrite Nat.add_0_r.
Qed.

Lemma scan_inputs_spec (m t : nat) (width : Z) (input_table_map : list Z)
  (acc : rank_stats) :
  scan_inputs m t width input_table_map acc
  = mkStats (rank_widths acc
             ++ map (fun _ => width) (inputs_of input_table_map t))
            (rank_input_ids acc ++ inputs_of input_table_map t)
            (rank_input_map acc
             ++ map (fun _ => m) (inputs_of input_table_map t))
            (rank_configs acc).
Proof.
  unfold scan_inputs, inputs_of.
  generalize (Py.enumerate input_table_map). intros ps. revert acc.
  induction ps as [|[k mapped] ps IH]; intros acc; simpl.
  - rewrite !app_nil_r. now destruct acc.
  - rewrite IH. destruct (Z.of_nat t =? mapped); simpl;
      rewrite <- ?app_assoc; reflexivity.
Qed.

Section PlanLoops.
Variable sliced : list (list Config).
Variable input_table_map : list Z.

Lemma rank_loop_spec (l : list nat) :
  forall a pre sc st,
    remaining sliced pre sc ->
    (forall t, (Py.count (pre ++ l) t <= length (nth t sliced []))%nat) ->
    exists sc',
      foldM (rank_step input_table_map) (combine (seq a (length l)) l) (sc, st)
      = Ok (sc',
            mkStats
              (rank_widths st
               ++ concat (with_occurrence (input_widths sliced input_table_map) pre l))
              (rank_input_ids st ++ flat_map (inputs_of input_table_map) l)
              (rank_input_map st
               ++ local_map_of input_table_map (combine (seq a (length l)) l))
              (rank_configs st ++ with_occurrence (slice_config sliced) pre l))
      /\ remaining sliced (pre ++ l) sc'.
Proof.
  induction l as [|t l IH]; intros a pre sc st Hrem Hcount.
  - exists sc. simpl. rewrite !app_nil_r. split; [now destruct st|assumption].
  - cbn [length seq combine foldM].
    destruct (pop_slice_spec sliced sc pre t Hrem) as (sc1 & Hpop & Hrem1).
    { specialize (Hcount t). rewrite count_app in Hcount.
      unfold Py.count at 2 in Hcount. simpl in Hcount.
      rewrite Nat.eqb_refl in Hcount. simpl in Hcount. lia. }
    unfold rank_step at 1. rewrite Hpop. cbn [bind].
    rewrite scan_inputs_spec. cbn [rank_widths rank_input_ids rank_input_map
      rank_configs].
    destruct (IH (S a) (pre ++ [t]) sc1
                (mkStats
                   (rank_widths st
                    ++ map (fun _ => output_dim (slice_config sliced t (Py.count pre t)))
                         (inputs_of input_table_map t))
                   (rank_input_ids st ++ inputs_of input_table_map t)
                   (rank_input_map st
                    ++ map (fun _ => a) (inputs_of input_table_map t))
                   (rank_configs st ++ [slice_config sliced t (Py.count pre t)]))
                Hrem1) as (sc' & Hfold & Hrem').
    { intros t'. rewrite <- app_assoc. apply Hcount. }
    exists sc'. rewrite Hfold. cbn [rank_widths rank_input_ids rank_input_map
      rank_configs with_occurrence concat flat_map local_map_of fst snd].
    rewrite <- app_assoc in Hrem'. split; [|exact Hrem'].
    unfold input_widths at 2, local_map_of. rewrite <- !app_assoc. reflexivity.
Qed.

Lemma worker_loop_spec (tids : list (list nat)) :
  forall pre sc g,
    remaining sliced pre sc ->
    (forall t, (Py.count (pre ++ concat tids) t <= length (nth t sliced []))%nat) ->
    exists sc',
      foldM (worker_step input_table_map) tids (sc, g)
      = Ok (sc',
            mkGlobal
              (g_input_ids_list g
               ++ map (flat_map (inputs_of input_table_map)) tids)
              (g_local_map_list g
               ++ map (fun r => local_map_of input_table_map (Py.enumerate r)) tids)
              (g_local_configs_list g ++ per_worker (slice_config sliced) pre tids)
              (g_widths_list_flat g
               ++ concat (with_occurrence (input_widths sliced input_table_map)
                            pre (concat tids))))
      /\ remaining sliced (pre ++ concat tids) sc'.
Proof.
  induction tids as [|r tids IH]; intros pre sc g Hrem Hcount.
  - exists sc. simpl. rewrite !app_nil_r. split; [now destruct g|assumption].
  - cbn [foldM]. unfold worker_step at 1.
    destruct (rank_loop_spec r 0 pre sc (mkStats [] [] [] []) Hrem)
      as (sc1 & Hrank & Hrem1).
    { intros t. specialize (Hcount t). simpl in Hcount.
      rewrite app_assoc, count_app in Hcount. lia. }
    unfold Py.enumerate at 1. rewrite Hrank. cbn [bind rank_widths rank_input_ids
      rank_input_map rank_configs app].
    match goal with
    | |- context [foldM _ tids (sc1, ?g1)] =>
        destruct (IH (pre ++ r) sc1 g1 Hrem1) as (sc' & Hfold & Hrem')
    end.
    { intros t. rewrite <- app_assoc. apply Hcount. }
    exists sc'. rewrite Hfold.
    cbn [g_input_ids_list g_local_map_list g_local_configs_list g_widths_list_flat
         map per_worker concat].
    rewrite <- app_assoc in Hrem'. split; [|exact Hrem'].
    rewrite with_occurrence_app, concat_app, <- !app_assoc. reflexivity.
Qed.

End PlanLoops.

Lemma getnat_nth {A : Type} (l : list A) (i : nat) (d : A) :
  (i < length l)%nat -> Py.getnat l i = Ok (nth i l d).
Proof.
  intros H. unfold Py.getnat. now rewrite (nth_error_nth' l d H).
Qed.

Lemma remaining_initial (sliced : list (list Config)) : remaining sliced [] sliced.
Proof. split; [reflexivity|]. intros t. reflexivity. Qed.

(** [__init__] on a rank of a group of more than one worker. *)
Lemma init_planned (fuel : nat) (embeddings : list Config) (ws r : nat)
  (name : string) (input_table_map : option (list Z)) (thr : option Z)
  (sliced : list (list Config)) (ranges : list (nat * nat))
  (tids : list (list nat)) :
  ws <> 1%nat -> (r < ws)%nat ->
  create_sliced_configs fuel embeddings ws thr
    (effective_map embeddings input_table_map) = Ok (sliced, ranges) ->
  apply_stragety name ws sliced = Ok tids ->
  partitions ws sliced tids ->
  DistEmbeddingStrategy_init fuel embeddings ws r name input_table_map thr
  = Ok (planned_strategy embeddings name
          (effective_map embeddings input_table_map) sliced ranges tids r).
Proof.
  intros Hws Hr Hsliced Htids [Hlen Hperm]. unfold DistEmbeddingStrategy_init.
  destruct (Nat.eqb_spec ws 1) as [|_]; [contradiction|].
  fold (effective_map embeddings input_table_map).
  set (m := effective_map embeddings input_table_map) in *.
  rewrite Hsliced. cbn [bind]. rewrite Htids. cbn [bind].
  destruct (worker_loop_spec sliced m tids [] sliced (mkGlobal [] [] [] [])
              (remaining_initial sliced)) as (sc' & Hfold & _).
  { intros t. simpl. rewrite (count_perm _ _ t Hperm), flatten_ids_count. lia. }
  rewrite Hfold. cbn [bind g_local_map_list g_local_configs_list g_input_ids_list
    g_widths_list_flat app].
  rewrite (getnat_nth _ r []) by (rewrite length_map; lia). cbn [bind].
  rewrite (getnat_nth _ r []) by (rewrite per_worker_length; lia). cbn [bind].
  reflexivity.
Qed.

(** A construction that succeeded went through these steps. *)
Lemma init_inv (fuel : nat) (embeddings : list Config) (ws r : nat)
  (name : string) (input_table_map : option (list Z)) (thr : option Z)
  (s : Strategy) :
  DistEmbeddingStrategy_init fuel embeddings ws r name input_table_map thr = Ok s ->
  ws <> 1%nat ->
  exists sliced ranges tids,
    create_sliced_configs fuel embeddings ws thr
      (effective_map embeddings input_table_map) = Ok (sliced, ranges)
    /\ apply_stragety name ws sliced = Ok tids.
Proof.
  intros H Hws. unfold DistEmbeddingStrategy_init in H.
  destruct (Nat.eqb_spec ws 1) as [|_]; [contradiction|].
  fold (effective_map embeddings input_table_map) in H.
  apply bind_Ok in H. destruct H as ([sliced ranges] & Hs & H).
  apply bind_Ok in H. destruct H as (tids & Ht & H).
  exists sliced, ranges, tids. auto.
Qed.

Lemma create_sliced_configs_inv (fuel : nat) (embeddings : list Config) (ws : nat)
  (thr : option Z) (m : list Z) (sliced : list (list Config))
  (ranges : list (nat * nat)) :
  create_sliced_configs fuel embeddings ws thr m = Ok (sliced, ranges) ->
  Forall2 (fun c sl => maybe_slice_table_column fuel c thr ws = Ok sl)
          embeddings sliced
  /\ out_ranges sliced (Py.enumerate m) = Ok ranges.
Proof.
  unfold create_sliced_configs. intros H.
  apply bind_Ok in H. destruct H as (sl & Hsl & H).
  apply bind_Ok in H. destruct H as (rg & Hrg & H). injection H as <- <-.
  split; [now apply mapM_Forall2|assumption].
Qed.


(** * Weight transfer *)

Section ArrayFacts.
Context {V : Type}.

Lemma split_at_length (lengths : list nat) :
  forall t : list V, length (split_at lengths t) = length lengths.
Proof. induction lengths; intros t; simpl; auto. Qed.

Lemma split_at_concat (ls : list (list V)) (rest : list V) :
  split_at (map (@length V) ls) (concat ls ++ rest) = ls.
Proof.
  induction ls as [|l ls IH]; simpl; [reflexivity|].
  rewrite <- app_assoc, firstn_app, Nat.sub_diag, firstn_all. simpl.
  rewrite app_nil_r, skipn_app, Nat.sub_diag, skipn_all. simpl. now rewrite IH.
Qed.

Lemma split_at_pad (lengths : list nat) :
  forall t pad : list V,
    (Py.sumn lengths <= length t)%nat ->
    split_at lengths (t ++ pad) = split_at lengths t.
Proof.
  induction lengths as [|n lengths IH]; intros t pad H; simpl in *; [reflexivity|].
  rewrite firstn_app, skipn_app.
  replace (n - length t)%nat with 0%nat by lia. simpl. rewrite app_nil_r.
  rewrite IH; [reflexivity|]. rewrite length_skipn. lia.
Qed.

Lemma concat_split_at (lengths : list nat) :
  forall t : list V,
    Py.sumn lengths = length t -> concat (split_at lengths t) = t.
Proof.
  induction lengths as [|n lengths IH]; intros t H; simpl in *.
  - symmetry. now apply length_zero_iff_nil.
  - rewrite IH; [apply firstn_skipn|]. rewrite length_skipn. lia.
Qed.

Lemma split_at_lengths (lengths : list nat) :
  forall t : list V,
    Py.sumn lengths = length t ->
    map (@length V) (split_at lengths t) = lengths.
Proof.
  induction lengths as [|n lengths IH]; intros t H; simpl in *; [reflexivity|].
  rewrite length_firstn, IH; [f_equal; lia|]. rewrite length_skipn. lia.
Qed.

Lemma rows_of_concat (c : nat) (a : list (list V)) (rest : list V) :
  Forall (fun row => length row = c) a ->
  rows_of (length a) c (concat a ++ rest) = a.
Proof.
  induction 1 as [|row a Hrow _ IH]; simpl; [reflexivity|].
  rewrite <- app_assoc, firstn_app, skipn_app, <- Hrow, Nat.sub_diag, firstn_all,
    skipn_all. simpl. rewrite app_nil_r. f_equal.
  rewrite Hrow. exact IH.
Qed.

Lemma concat_rows_of (r k : nat) :
  forall l : list V, length l = (r * k)%nat -> concat (rows_of r k l) = l.
Proof.
  induction r as [|r IH]; intros l H; simpl in *.
  - symmetry. now apply length_zero_iff_nil.
  - rewrite IH; [apply firstn_skipn|]. rewrite length_skipn. lia.
Qed.

Lemma rows_of_length (r k : nat) (l : list V) : length (rows_of r k l) = r.
Proof. revert l. induction r; intros l; simpl; auto. Qed.

Lemma length_concat_shape (r c : nat) (a : list (list V)) :
  has_shape r c a -> length (concat a) = (r * c)%nat.
Proof.
  intros [<- H]. induction H as [|row a Hrow _ IH]; simpl; [reflexivity|].
  rewrite length_app. lia.
Qed.

Lemma reshape2_flatten (r c : nat) (a : list (list V)) :
  has_shape r c a -> reshape2 r c (flatten a) = Ok a.
Proof.
  intros H. unfold reshape2, flatten.
  rewrite (length_concat_shape r c a H), Nat.eqb_refl.
  destruct H as [<- H]. rewrite <- (app_nil_r (concat a)).
  now rewrite rows_of_concat.
Qed.

Lemma has_shapeb_spec (r c : nat) (a : list (list V)) :
  has_shapeb r c a = true <-> has_shape r c a.
Proof.
  unfold has_shapeb, has_shape. rewrite andb_true_iff, Nat.eqb_eq, forallb_forall,
    Forall_forall. setoid_rewrite Nat.eqb_eq. tauto.
Qed.

(** ** [_split_1d] *)

Lemma take_across_spec (tl : list (list V)) :
  forall len,
    (0 < len)%nat -> (len <= length (concat tl))%nat ->
    exists sl tl',
      take_across len tl = Ok (sl, tl')
      /\ sl <> []
      /\ concat sl = firstn len (concat tl)
      /\ concat tl' = skipn len (concat tl).
Proof.
  induction tl as [|first rest IH]; intros len Hpos Hlen; simpl in Hlen; [lia|].
  cbn [take_across]. destruct (Nat.eqb_spec len 0); [lia|].
  rewrite length_app in Hlen.
  destruct (Nat.ltb_spec (length first) len) as [Hlt|Hge].
  - destruct (IH (len - length first)%nat) as (sl & tl' & Ht & _ & Hsl & Htl);
      [lia|lia|].
    rewrite Ht. cbn [bind]. exists (first :: sl), tl'. split; [reflexivity|].
    split; [discriminate|]. simpl. rewrite Hsl, Htl.
    rewrite firstn_app, skipn_app.
    rewrite (firstn_all2 first), (skipn_all2 first) by lia. auto.
  - exists [firstn len first], (skipn len first :: rest). split; [reflexivity|].
    split; [discriminate|]. simpl.
    rewrite firstn_app, skipn_app.
    replace (len - length first)%nat with 0%nat by lia. simpl.
    now rewrite !app_nil_r.
Qed.

Lemma ceil_div_bounds (a b : Z) :
  0 < b -> a <= ceil_div a b * b < a + b.
Proof.
  intros Hb. unfold ceil_div.
  pose proof (Z.div_mod (- a) b ltac:(lia)).
  pose proof (Z.mod_pos_bound (- a) b Hb). nia.
Qed.

Variable zero : V.

Lemma split_1d_chunked_loop (lengths : list nat) :
  forall (t pad : list V) tl done,
    concat tl = t ++ pad ->
    Py.sumn lengths = length t ->
    Forall (fun n => 0 < n)%nat lengths ->
    exists tl',
      foldM (fun '(result, tensor_list) length =>
               '(this_slice, tensor_list') <- take_across length tensor_list ;;
               piece <- tf_concat this_slice ;;
               Ok (result ++ [piece], tensor_list'))
            lengths (done, tl)
      = Ok (done ++ split_at lengths t, tl').
Proof.
  induction lengths as [|n lengths IH]; intros t pad tl done Htl Hsum Hpos.
  - exists tl. simpl. now rewrite app_nil_r.
  - inversion Hpos as [|? ? Hn Hrest]; subst. simpl in Hsum. cbn [foldM].
    destruct (take_across_spec tl n Hn) as (sl & tl1 & Ht & Hne & Hsl & Htl1).
    { rewrite Htl, length_app. lia. }
    rewrite Ht. cbn [bind]. unfold tf_concat at 1.
    destruct sl as [|s sl]; [contradiction|]. cbn [bind].
    destruct (IH (skipn n t) pad tl1 (done ++ [concat (s :: sl)]))
      as (tl' & Hfold); [| |assumption|].
    + rewrite Htl1, Htl, skipn_app. replace (n - length t)%nat with 0%nat by lia.
      reflexivity.
    + rewrite length_skipn. lia.
    + exists tl'. rewrite Hfold. rewrite <- app_assoc. cbn [split_at app].
      rewrite Hsl, Htl, firstn_app. replace (n - length t)%nat with 0%nat by lia.
      simpl. now rewrite app_nil_r.
Qed.

Lemma split_1d_spec (t : list V) (lengths : list nat) :
  Py.sumn lengths = length t ->
  Z.of_nat (length t) <= split_chunking_threshold
  \/ Forall (fun n => 0 < n)%nat lengths ->
  split_1d zero t lengths = Ok (split_at lengths t).
Proof.
  intros Hsum Hcase. unfold split_1d.
  destruct (Z.leb_spec (Z.of_nat (length t)) split_chunking_threshold) as [Hle|Hgt].
  - unfold tf_split. now rewrite Hsum, Nat.eqb_refl.
  - destruct Hcase as [Hle|Hpos]; [lia|].
    set (n := Z.of_nat (length t)) in *.
    assert (0 < split_chunking_threshold) as HT by reflexivity.
    pose proof (ceil_div_bounds n split_chunking_threshold HT) as Hk.
    set (k := ceil_div n split_chunking_threshold) in *.
    assert (1 <= k) as Hk1 by nia.
    pose proof (ceil_div_bounds n k ltac:(lia)) as HL.
    set (L := ceil_div n k) in *.
    destruct (Z.ltb_spec (L * k - n) 0) as [|_]; [lia|].
    set (pad := repeat zero (Z.to_nat (L * k - n))).
    assert (length (t ++ pad) = (Z.to_nat L * Z.to_nat k)%nat) as Hlen.
    { unfold pad. rewrite length_app, repeat_length. unfold n in *. nia. }
    unfold reshape_rows. destruct (Nat.eqb_spec (Z.to_nat k) 0); [lia|].
    rewrite Hlen, Nat.Div0.mod_mul, Nat.eqb_refl, Nat.div_mul by lia. cbn [bind].
    destruct (split_1d_chunked_loop lengths t pad
                (rows_of (Z.to_nat k) (Z.to_nat L) (t ++ pad)) [])
      as (tl' & Hfold); [| assumption | assumption |].
    + apply concat_rows_of. lia.
    + rewrite Hfold. reflexivity.
Qed.

Lemma split_1d_length (t : list V) (lengths : list nat) (r : list (list V)) :
  split_1d zero t lengths = Ok r -> length r = length lengths.
Proof.
  unfold split_1d. destruct (Z.of_nat (length t) <=? split_chunking_threshold).
  - unfold tf_split. destruct (Py.sumn lengths =? length t)%nat; [|discriminate].
    intros H. injection H as <-. apply split_at_length.
  - destruct (_ <? 0); [discriminate|]. intros H.
    apply bind_Ok in H. destruct H as (tl & _ & H).
    apply bind_Ok in H. destruct H as ([res tl'] & Hfold & H). injection H as <-.
    assert (forall ls (done : list (list V)) tl res tl',
              foldM (fun '(result, tensor_list) length =>
                       '(this_slice, tensor_list') <- take_across length tensor_list ;;
                       piece <- tf_concat this_slice ;;
                       Ok (result ++ [piece], tensor_list'))
                    ls (done, tl) = Ok (res, tl') ->
              length res = (length done + length ls)%nat) as G.
    { clear. induction ls as [|n ls IH]; intros done tl res tl' H; simpl in H.
      - injection H as <- <-. simpl. lia.
      - apply bind_Ok in H. destruct H as ([d1 t1] & Hstep & H).
        apply IH in H. apply bind_Ok in Hstep.
        destruct Hstep as ([sl t2] & _ & Hstep).
        apply bind_Ok in Hstep. destruct Hstep as (p & _ & Hstep).
        injection Hstep as <- <-. rewrite length_app in H. simpl in *. lia. }
    apply G in Hfold. simpl in Hfold. exact Hfold.
Qed.

End ArrayFacts.

Section GetWeights.
Context {V : Type}.
Variable zero : V.

Lemma Forall2_nth_error {A B : Type} (R : A -> B -> Prop) (l1 : list A)
  (l2 : list B) (i : nat) (x : A) :
  Forall2 R l1 l2 -> nth_error l1 i = Some x ->
  exists y, nth_error l2 i = Some y /\ R x y.
Proof.
  intros H. revert i. induction H as [|a b l1 l2 Hab _ IH]; intros [|i] Hi;
    simpl in *; try discriminate.
  - injection Hi as <-. eauto.
  - now apply IH.
Qed.

(** The loop of lines 445-448 on a rank that keeps nothing. *)
Lemma gather_loop_idle (contributions : list (list nat * list (list V)))
  (all_sizes : list nat) (num_chunks n : nat) :
  Forall (fun c => length (snd c) = n) contributions ->
  forall (l : list (nat * list V)) acc,
    Forall (fun e => fst e < n)%nat l ->
    foldM (fun chunks '(i, _) =>
             parts <- mapM (fun c => Py.getnat (snd c) i) contributions ;;
             let w := hvd_allgather parts in
             if false then
               pieces <- split_1d zero w (Py.stride all_sizes i num_chunks) ;;
               Ok (chunks ++ pieces)
             else Ok chunks) l acc
    = Ok acc.
Proof.
  intros Hn. induction l as [|[i x] l IH]; intros acc Hl; simpl; [reflexivity|].
  inversion Hl as [|? ? Hi Hl']; subst. simpl in Hi.
  rewrite (mapM_map _ (fun c => nth i (snd c) [])).
  - simpl. now apply IH.
  - intros c Hc. apply getnat_nth. rewrite Forall_forall in Hn.
    rewrite (Hn c Hc). exact Hi.
Qed.

Lemma gather_loop_grows (contributions : list (list nat * list (list V)))
  (all_sizes : list nat) (num_chunks : nat) (cond : bool) :
  forall (l : list (nat * list V)) acc chunks,
    foldM (fun chunks '(i, _) =>
             parts <- mapM (fun c => Py.getnat (snd c) i) contributions ;;
             let w := hvd_allgather parts in
             if cond then
               pieces <- split_1d zero w (Py.stride all_sizes i num_chunks) ;;
               Ok (chunks ++ pieces)
             else Ok chunks) l acc
    = Ok chunks ->
    (length acc <= length chunks)%nat.
Proof.
  induction l as [|[i x] l IH]; intros acc chunks H; simpl in H.
  - injection H as <-. lia.
  - apply bind_Ok in H. destruct H as (acc1 & Hstep & H). apply IH in H.
    apply bind_Ok in Hstep. destruct Hstep as (parts & _ & Hstep).
    destruct cond.
    + apply bind_Ok in Hstep. destruct Hstep as (pieces & _ & Hstep).
      injection Hstep as <-. rewrite length_app in H. lia.
    + injection Hstep as <-. exact H.
Qed.

Lemma enumerate_bound {A : Type} (l : list A) :
  Forall (fun e => fst e < length l)%nat (Py.enumerate l).
Proof.
  apply Forall_forall. intros [i x] Hin. apply In_nth_error in Hin.
  destruct Hin as [k Hk]. apply nth_error_enumerate_inv in Hk.
  destruct Hk as [Heq Hk]. injection Heq as ->. simpl.
  apply nth_error_Some. simpl in Hk. congruence.
Qed.

Lemma local_chunks_inv (self : @Worker V) (sizes : list nat)
  (chunks : list (list V)) :
  local_chunks zero self = Ok (sizes, chunks) ->
  exists cfgs,
    local_configs_list (plan (layer self)) = Some cfgs
    /\ length chunks = length sizes
    /\ sizes <> [].
Proof.
  unfold local_chunks. intros H.
  apply bind_Ok in H. destruct H as (cfgs & Hattr & H).
  apply bind_Ok in H. destruct H as (flat & _ & H).
  apply bind_Ok in H. destruct H as (cs & Hsplit & H). injection H as <- <-.
  exists cfgs. split; [|split].
  - unfold attr in Hattr. destruct (local_configs_list _); congruence.
  - now apply split_1d_length in Hsplit.
  - intros E. apply app_eq_nil in E. destruct E. discriminate.
Qed.


End GetWeights.

(** ** Strides over blocks *)

Lemma every_skip_block {A : Type} (k : nat) (l1 l2 : list A) :
  forall s, (length l1 <= s)%nat ->
            Py.every k s (l1 ++ l2) = Py.every k (s - length l1) l2.
Proof.
  induction l1 as [|x l1 IH]; intros s Hs; simpl in *.
  - now rewrite Nat.sub_0_r.
  - destruct s as [|s]; [lia|]. simpl. apply IH. lia.
Qed.

Lemma every_take_block {A : Type} (k : nat) (d : A) (l1 l2 : list A) :
  forall s, (s < length l1)%nat -> (length l1 <= s + k)%nat ->
            Py.every k s (l1 ++ l2)
            = nth s l1 d :: Py.every k (s + k - length l1) l2.
Proof.
  induction l1 as [|x l1 IH]; intros s Hs Hk; simpl in *; [lia|].
  destruct s as [|s]; simpl.
  - f_equal. rewrite every_skip_block by lia. f_equal. lia.
  - apply IH; lia.
Qed.

Lemma stride_concat {A : Type} (k u : nat) (d : A) (M : list (list A)) :
  Forall (fun row => length row = k) M -> (u < k)%nat ->
  Py.stride (concat M) u k = map (fun row => nth u row d) M.
Proof.
  intros HM Hu. unfold Py.stride.
  induction HM as [|row M Hrow _ IH]; simpl; [reflexivity|].
  rewrite (every_take_block k d) by lia.
  rewrite Hrow. replace (u + k - k)%nat with u by lia. now rewrite IH.
Qed.

Lemma map_nth_seq {A : Type} (l : list A) (d : A) :
  map (fun i => nth i l d) (seq 0 (length l)) = l.
Proof.
  induction l as [|x l IH]; simpl; [reflexivity|].
  f_equal. rewrite <- seq_shift, map_map. exact IH.
Qed.

Lemma map_nth_seq_f {A B : Type} (f : A -> B) (l : list A) (d : A) :
  map (fun i => f (nth i l d)) (seq 0 (length l)) = map f l.
Proof.
  rewrite <- (map_map (fun i => nth i l d) f). now rewrite map_nth_seq.
Qed.

Lemma repeat_sumn (x n : nat) : Py.sumn (repeat x n) = (x * n)%nat.
Proof. induction n; simpl; lia. Qed.

Lemma sumn_app (l1 l2 : list nat) : Py.sumn (l1 ++ l2) = (Py.sumn l1 + Py.sumn l2)%nat.
Proof. induction l1; simpl; lia. Qed.

Lemma chunk_sizes_sum (n nc : nat) :
  (1 <= nc)%nat -> Py.sumn (chunk_sizes_of n nc) = n.
Proof.
  intros Hnc. unfold chunk_sizes_of. rewrite sumn_app, repeat_sumn. simpl.
  assert (n / nc * (nc - 1) <= n)%nat; [|lia].
  pose proof (Nat.Div0.mul_div_le n nc). nia.
Qed.

Lemma chunk_sizes_length (n nc : nat) :
  (1 <= nc)%nat -> length (chunk_sizes_of n nc) = nc.
Proof.
  intros Hnc. unfold chunk_sizes_of. rewrite length_app, repeat_length. simpl. lia.
Qed.

Lemma chunk_sizes_pos (n nc : nat) :
  (1 <= nc)%nat -> (nc <= n)%nat -> Forall (fun s => 0 < s)%nat (chunk_sizes_of n nc).
Proof.
  intros Hnc Hn. unfold chunk_sizes_of.
  assert (1 <= n / nc)%nat as Hq.
  { apply Nat.div_le_lower_bound; lia. }
  pose proof (Nat.Div0.mul_div_le n nc).
  apply Forall_app. split.
  - apply Forall_forall. intros x Hx. apply repeat_spec in Hx. lia.
  - constructor; [|constructor]. nia.
Qed.

(** ** The gather of [get_weights] *)

Lemma gather_num_chunks_ge (ws : nat) (cfgs : list (list Config)) :
  1 <= gather_num_chunks ws cfgs.
Proof.
  unfold gather_num_chunks.
  assert (forall l acc, 1 <= acc ->
            1 <= fold_left
                   (fun num_chunks local_configs =>
                      Z.max num_chunks
                        (ceil_div (Z.of_nat ws * Py.sum (map elements local_configs))
                           gather_chunking_threshold)) l acc) as G.
  { induction l as [|x l IH]; intros acc H; simpl; [assumption|].
    apply IH. lia. }
  apply G. lia.
Qed.

Lemma Forall2_In_r {A B : Type} (R : A -> B -> Prop) (l1 : list A) (l2 : list B)
  (y : B) :
  Forall2 R l1 l2 -> In y l2 -> exists x, In x l1 /\ R x y.
Proof.
  induction 1 as [|a b l1 l2 Hab _ IH]; simpl; [tauto|].
  intros [<-|Hin]; [eauto|]. destruct (IH Hin) as (x & Hx & HR). eauto.
Qed.

Lemma flat_weights_split {V : Type} (cs : list Config) (arrays : list (list (list V))) :
  Forall2 shaped cs arrays ->
  Forall (fun c => 1 <= input_dim c /\ 1 <= output_dim c) cs ->
  map (@length V) (map flatten arrays)
  = map (fun c => (Z.to_nat (input_dim c) * Z.to_nat (output_dim c))%nat) cs
  /\ Z.of_nat (length (concat (map flatten arrays))) = Py.sum (map elements cs)
  /\ Forall (fun n => 0 < n)%nat
            (map (fun c => (Z.to_nat (input_dim c) * Z.to_nat (output_dim c))%nat) cs).
Proof.
  induction 1 as [|c a cs arrays Hca _ IH]; intros Hd.
  - simpl. repeat split; constructor.
  - inversion Hd as [|? ? [Hi Ho] Hd']; subst.
    destruct (IH Hd') as (Hl & Hs & Hp). cbn [map concat Py.sum fold_right].
    unfold flatten at 1 3. rewrite (length_concat_shape _ _ _ Hca).
    rewrite Hl, length_app, (length_concat_shape _ _ _ Hca), Nat2Z.inj_add, Hs.
    split; [reflexivity|split].
    + unfold elements. rewrite Nat2Z.inj_mul, !Z2Nat.id by lia. reflexivity.
    + constructor; [nia|assumption].
Qed.

Section Unflatten.
Context {V : Type}.
Variable zero : V.

Lemma reshape_all (cs : list Config) (arrays : list (list (list V))) :
  Forall2 shaped cs arrays ->
  mapM (fun '(weight, shape) => reshape2 (fst shape) (snd shape) weight)
       (combine (map flatten arrays)
          (map (fun c => (Z.to_nat (input_dim c), Z.to_nat (output_dim c))) cs))
  = Ok arrays.
Proof.
  induction 1 as [|c a cs arrays Hca _ IH]; simpl; [reflexivity|].
  rewrite (reshape2_flatten _ _ _ Hca). simpl. now rewrite IH.
Qed.

Lemma unflatten_worker_spec (acc : list (list (list V))) (cs : list Config)
  (arrays : list (list (list V))) :
  Forall2 shaped cs arrays ->
  Forall (fun c => 1 <= input_dim c /\ 1 <= output_dim c) cs ->
  unflatten_worker zero acc (concat (map flatten arrays), cs) = Ok (acc ++ arrays).
Proof.
  intros Hsh Hd. unfold unflatten_worker. rewrite map_map. cbn [fst snd].
  destruct (flat_weights_split cs arrays Hsh Hd) as (Hl & _ & Hp).
  rewrite <- Hl in *. rewrite split_1d_spec.
  - cbn [bind]. rewrite <- (app_nil_r (concat (map flatten arrays))) at 1.
    rewrite split_at_concat, (reshape_all cs arrays Hsh). reflexivity.
  - apply sumn_lengths.
  - now right.
Qed.

Lemma unflatten_all (cfgs : list (list Config)) (cluster : list (@Worker V)) :
  Forall2 (fun cs w => Forall2 shaped cs (weights w)) cfgs cluster ->
  Forall (Forall (fun c => 1 <= input_dim c /\ 1 <= output_dim c)) cfgs ->
  forall acc,
    foldM (unflatten_worker zero) (combine (map flat_weights cluster) cfgs) acc
    = Ok (acc ++ concat (map weights cluster)).
Proof.
  induction 1 as [|cs w cfgs cluster Hcw _ IH]; intros Hd acc.
  - simpl. now rewrite app_nil_r.
  - inversion Hd as [|? ? Hd1 Hd2]; subst. cbn [map combine foldM concat].
    unfold flat_weights at 1. rewrite (unflatten_worker_spec _ _ _ Hcw Hd1).
    cbn [bind]. rewrite (IH Hd2). now rewrite <- app_assoc.
Qed.

End Unflatten.

Section Gather.
Context {V : Type}.
Variable zero : V.
Variable cluster : list (@Worker V).
Variable ws : nat.
Variable cfgs : list (list Config).
Hypothesis Hlen : length cluster = ws.
Hypothesis Hws : (2 <= ws)%nat.
Hypothesis Hlayers :
  Forall (fun w => world_size (layer w) = ws
                   /\ local_configs_list (plan (layer w)) = Some cfgs) cluster.
Hypothesis Hshapes :
  Forall2 (fun cs w => Forall2 shaped cs (weights w)) cfgs cluster.
Hypothesis Hdims :
  Forall (Forall (fun c => 1 <= input_dim c /\ 1 <= output_dim c)) cfgs.
Hypothesis Hnonempty : Forall (fun cs => cs <> []) cfgs.
Hypothesis Hbig :
  Forall (fun cs => gather_num_chunks ws cfgs <= Py.sum (map elements cs)) cfgs.

Let nc := Z.to_nat (gather_num_chunks ws cfgs).

Lemma nc_pos : (1 <= nc)%nat.
Proof. unfold nc. pose proof (gather_num_chunks_ge ws cfgs). lia. Qed.

Lemma local_chunks_contribution (w : @Worker V) :
  In w cluster -> local_chunks zero w = Ok (contribution nc w).
Proof.
  intros Hin.
  destruct (Forall2_In_r _ _ _ w Hshapes Hin) as (cs & Hcs & Hsh).
  pose proof (proj1 (Forall_forall _ _) Hlayers) as Hlayers'.
  pose proof (proj1 (Forall_forall _ _) Hdims) as Hdims'.
  pose proof (proj1 (Forall_forall _ _) Hnonempty) as Hnonempty'.
  pose proof (proj1 (Forall_forall _ _) Hbig) as Hbig'.
  destruct (Hlayers' w Hin) as [Hw Hc].
  destruct (flat_weights_split cs (weights w) Hsh (Hdims' cs Hcs)) as (_ & Hsum & _).
  unfold local_chunks. rewrite Hc, Hw. cbn [attr bind]. fold nc.
  assert (weights w <> []) as Hne.
  { intros E. rewrite E in Hsh. inversion Hsh. subst. now apply (Hnonempty' []). }
  unfold tf_concat. destruct (map flatten (weights w)) as [|f fs] eqn:Ef.
  { destruct (weights w); [contradiction|discriminate]. }
  rewrite <- Ef. cbn [bind]. fold (flat_weights w).
  change (repeat (length (flat_weights w) / nc)%nat (nc - 1)
          ++ [(length (flat_weights w) - length (flat_weights w) / nc * (nc - 1))%nat])
    with (chunk_sizes_of (length (flat_weights w)) nc).
  rewrite split_1d_spec.
  - reflexivity.
  - apply chunk_sizes_sum, nc_pos.
  - right. apply chunk_sizes_pos; [apply nc_pos|].
    specialize (Hbig' cs Hcs). cbv beta in Hbig'. rewrite <- Ef in Hsum.
    unfold flat_weights, nc. lia.
Qed.

Lemma contributions_ok :
  mapM (local_chunks zero) cluster = Ok (map (contribution nc) cluster).
Proof. apply mapM_map. intros w Hw. now apply local_chunks_contribution. Qed.

Lemma contribution_facts (w : @Worker V) :
  In w cluster ->
  length (fst (contribution nc w)) = nc
  /\ length (snd (contribution nc w)) = nc
  /\ map (@length V) (snd (contribution nc w)) = fst (contribution nc w)
  /\ Forall (fun n => 0 < n)%nat (fst (contribution nc w))
  /\ concat (snd (contribution nc w)) = flat_weights w.
Proof.
  intros Hin. unfold contribution. cbn [fst snd].
  pose proof nc_pos as Hnc.
  destruct (Forall2_In_r _ _ _ w Hshapes Hin) as (cs & Hcs & Hsh).
  pose proof (proj1 (Forall_forall _ _) Hdims cs Hcs) as Hd.
  pose proof (proj1 (Forall_forall _ _) Hbig cs Hcs) as Hb. cbv beta in Hb.
  destruct (flat_weights_split cs (weights w) Hsh Hd) as (_ & Hsum & _).
  assert (nc <= length (flat_weights w))%nat as Hle
    by (unfold flat_weights, nc; lia).
  rewrite split_at_length, chunk_sizes_length by assumption.
  rewrite split_at_lengths by (now apply chunk_sizes_sum).
  rewrite concat_split_at by (now apply chunk_sizes_sum).
  repeat split. now apply chunk_sizes_pos.
Qed.

(** Chunk [i] of every worker, in rank order. *)
Let row (i : nat) : list (list V) :=
  map (fun w => nth i (snd (contribution nc w)) []) cluster.

Lemma gather_loop_all (xs : list (list V)) :
  forall a acc,
    (a + length xs = nc)%nat ->
    foldM (fun chunks '(i, _) =>
             parts <- mapM (fun c => Py.getnat (snd c) i)
                        (map (contribution nc) cluster) ;;
             let w := hvd_allgather parts in
             if true then
               pieces <- split_1d zero w
                           (Py.stride
                              (hvd_allgather (map fst (map (contribution nc) cluster)))
                              i nc) ;;
               Ok (chunks ++ pieces)
             else Ok chunks)
          (combine (seq a (length xs)) xs) acc
    = Ok (acc ++ concat (map row (seq a (length xs)))).
Proof.
  induction xs as [|x xs IH]; intros a acc Ha; simpl in Ha.
  - simpl. now rewrite app_nil_r.
  - cbn [length seq combine foldM].
    assert (a < nc)%nat as Hlt by lia.
    rewrite (mapM_map _ (fun c => nth a (snd c) [])).
    2:{ intros c Hc. apply in_map_iff in Hc. destruct Hc as (w & <- & Hw).
        apply getnat_nth. destruct (contribution_facts w Hw) as (_ & -> & _).
        exact Hlt. }
    cbn [bind]. cbv zeta. rewrite map_map. fold (row a).
    assert (Py.stride (hvd_allgather (map fst (map (contribution nc) cluster))) a nc
            = map (@length V) (row a)) as ->.
    { unfold hvd_allgather. rewrite (stride_concat nc a 0%nat).
      - unfold row. rewrite !map_map. apply map_ext_in. intros w Hw.
        destruct (contribution_facts w Hw) as (_ & _ & <- & _).
        exact (map_nth (@length V) (snd (contribution nc w)) [] a).
      - apply Forall_forall. intros b Hb. rewrite map_map in Hb.
        apply in_map_iff in Hb. destruct Hb as (w & <- & Hw).
        now destruct (contribution_facts w Hw) as (-> & _).
      - exact Hlt. }
    rewrite split_1d_spec.
    + cbn [bind]. unfold hvd_allgather.
      rewrite <- (app_nil_r (concat (row a))), split_at_concat.
      rewrite (IH (S a)) by lia. cbn [map concat]. now rewrite <- app_assoc.
    + unfold hvd_allgather. apply sumn_lengths.
    + right. apply Forall_forall. intros n Hn. unfold row in Hn.
      rewrite map_map in Hn. apply in_map_iff in Hn. destruct Hn as (w & <- & Hw).
      destruct (contribution_facts w Hw) as (Hl & _ & Hm & Hp & _).
      pose proof (map_nth (@length V) (snd (contribution nc w)) [] a) as Hmn.
      rewrite Hm in Hmn. rewrite <- Hmn. simpl.
      rewrite Forall_forall in Hp. apply Hp. apply nth_In. lia.
Qed.

Lemma regather (u : nat) (w : @Worker V) :
  nth_error cluster u = Some w ->
  tf_concat (Py.stride (concat (map row (seq 0 nc))) u ws) = Ok (flat_weights w).
Proof.
  intros Hu. pose proof nc_pos as Hnc.
  assert (u < ws)%nat as Hlt by (rewrite <- Hlen; apply nth_error_Some; congruence).
  rewrite (stride_concat ws u []).
  - rewrite map_map.
    assert (map (fun i => nth u (row i) []) (seq 0 nc) = snd (contribution nc w)) as ->.
    { destruct (contribution_facts w (nth_error_In _ _ Hu)) as (_ & Hl & _).
      transitivity (map (fun i => nth i (snd (contribution nc w)) []) (seq 0 nc));
        [|pose proof (map_nth_seq (snd (contribution nc w)) []) as Hm;
          rewrite Hl in Hm; exact Hm].
      apply map_ext. intros i. unfold row. apply nth_error_nth.
      rewrite nth_error_map, Hu. reflexivity. }
    destruct (contribution_facts w (nth_error_In _ _ Hu)) as (_ & Hl & _ & _ & Hc).
    unfold tf_concat. destruct (snd (contribution nc w)) eqn:E.
    + simpl in Hl. lia.
    + now rewrite <- Hc.
  - apply Forall_forall. intros r Hr. apply in_map_iff in Hr.
    destruct Hr as (i & <- & _). unfold row. now rewrite length_map.
  - exact Hlt.
Qed.

Lemma regather_all :
  mapM (fun i => tf_concat (Py.stride (concat (map row (seq 0 nc))) i ws))
       (seq 0 ws)
  = Ok (map flat_weights cluster).
Proof.
  apply mapM_nth.
  - now rewrite length_seq, length_map.
  - intros k x Hk.
    assert (k < length (seq 0 ws))%nat as Hlt
      by (apply nth_error_Some; congruence).
    rewrite length_seq in Hlt.
    rewrite nth_error_seq in Hk. destruct (Nat.ltb_spec k ws); [|lia].
    injection Hk as <-. simpl.
    destruct (nth_error cluster k) as [w|] eqn:Hw;
      [|apply nth_error_None in Hw; lia].
    exists (flat_weights w). split.
    + now rewrite nth_error_map, Hw.
    + now apply regather.
Qed.

(** What [get_weights] does on a rank that keeps the gathered chunks: the
    arrays of all workers, in worker order, are regrouped by table id. *)
Lemma get_weights_gather (me : nat) (self : @Worker V) (all_ranks : bool) :
  nth_error cluster me = Some self ->
  all_ranks || (rank (layer self) =? 0)%nat = true ->
  get_weights zero cluster me all_ranks
  = (st <- foldM regroup_step
             (Py.sorted key_leb
                (combine (concat (table_ids_list (plan (layer self))))
                         (concat (map weights cluster))))
             (mkRegroup [] 0 []) ;;
     last <- tf_concat_columns (cur_list st) ;;
     Ok (rg_result st ++ [last])).
Proof.
  intros Hme Hcond. pose proof nc_pos as Hnc.
  pose proof (nth_error_In _ _ Hme) as Hin.
  destruct (proj1 (Forall_forall _ _) Hlayers self Hin) as [Hw Hc].
  unfold get_weights. unfold Py.getnat at 1. rewrite Hme. cbn [bind].
  rewrite Hw. destruct (Nat.eqb_spec ws 1) as [|_]; [lia|].
  rewrite Hc. cbn [attr bind]. rewrite (local_chunks_contribution self Hin).
  unfold contribution at 1. cbn [bind]. rewrite contributions_ok. cbn [bind].
  rewrite Hcond. fold nc.
  destruct (contribution_facts self Hin) as (_ & Hl & _).
  unfold contribution in Hl. cbn [snd] in Hl.
  match goal with
  | |- (chunks <- foldM ?body ?l [] ;; _) = _ =>
      replace (foldM body l [])
        with (@Ok (list (list V)) ([] ++ concat (map row (seq 0 nc))))
  end.
  2:{ symmetry. unfold Py.enumerate.
      rewrite <- Hl at 3.
      apply (gather_loop_all _ 0 []). simpl. exact Hl. }
  cbn [bind app].
  destruct (concat (map row (seq 0 nc))) as [|c0 cs] eqn:E.
  { exfalso. apply (f_equal (@length _)) in E. rewrite <- sumn_lengths in E.
    rewrite map_map in E. destruct nc as [|n]; [lia|].
    simpl in E. unfold row at 1 in E. rewrite length_map in E. simpl in E. lia. }
  rewrite <- E. rewrite regather_all. cbn [bind].
  rewrite (unflatten_all zero cfgs cluster Hshapes Hdims). cbn [bind app].
  reflexivity.
Qed.

End Gather.


(** * Restoring the table order *)

Section SortByKey.
Context {A : Type}.

Let leb (p q : nat * A) : bool := (fst p <=? fst q)%nat.

Lemma insert_between (x : nat * A) (before after : list (nat * A)) :
  Forall (fun y => leb x y = false) before ->
  Forall (fun y => leb x y = true) after ->
  Py.insert leb x (before ++ after) = before ++ x :: after.
Proof.
  intros Hb Ha. induction Hb as [|y before Hy _ IH]; simpl.
  - destruct Ha as [|z after Hz _]; simpl; [reflexivity|]. now rewrite Hz.
  - now rewrite Hy, IH.
Qed.

Lemma flat_map_ext_in {B C : Type} (f g : B -> list C) (l : list B) :
  (forall x, In x l -> f x = g x) -> flat_map f l = flat_map g l.
Proof.
  induction l as [|x l IH]; intros H; simpl; [reflexivity|].
  rewrite (H x (or_introl eq_refl)), IH; [reflexivity|].
  intros y Hy. apply H. now right.
Qed.

(** A stable sort by key lists the entries of key 0, then those of key 1,
    and so on, each group in its original order. *)
Lemma sorted_by_key (n : nat) (l : list (nat * A)) :
  Forall (fun e => fst e < n)%nat l ->
  Py.sorted leb l
  = flat_map (fun t => filter (fun e => (fst e =? t)%nat) l) (seq 0 n).
Proof.
  induction 1 as [|x l Hx _ IH]; simpl.
  - now rewrite flat_map_nil.
  - rewrite IH. set (k := fst x) in *.
    replace n with (k + S (n - S k))%nat at 1 2 by lia.
    rewrite !seq_app, !flat_map_app. cbn [seq flat_map].
    rewrite Nat.eqb_refl.
    rewrite (flat_map_ext_in
               (fun t => if (k =? t)%nat
                         then x :: filter (fun e => (fst e =? t)%nat) l
                         else filter (fun e => (fst e =? t)%nat) l)
               (fun t => filter (fun e => (fst e =? t)%nat) l) (seq 0 k)).
    2:{ intros t Ht. apply in_seq in Ht. destruct (Nat.eqb_spec k t); [lia|reflexivity]. }
    rewrite (flat_map_ext_in
               (fun t => if (k =? t)%nat
                         then x :: filter (fun e => (fst e =? t)%nat) l
                         else filter (fun e => (fst e =? t)%nat) l)
               (fun t => filter (fun e => (fst e =? t)%nat) l) (seq (S (0 + k)) (n - S k))).
    2:{ intros t Ht. apply in_seq in Ht. destruct (Nat.eqb_spec k t); [lia|reflexivity]. }
    rewrite <- app_comm_cons. apply insert_between.
    + apply Forall_forall. intros y Hy. apply in_flat_map in Hy.
      destruct Hy as (t & Ht & Hy). apply in_seq in Ht. apply filter_In in Hy.
      destruct Hy as [_ Hy]. apply Nat.eqb_eq in Hy. unfold leb. fold k.
      apply Nat.leb_gt. lia.
    + apply Forall_app. split; apply Forall_forall; intros y Hy.
      * apply filter_In in Hy. destruct Hy as [_ Hy]. apply Nat.eqb_eq in Hy.
        unfold leb. fold k. apply Nat.leb_le. simpl in Hy. lia.
      * apply in_flat_map in Hy. destruct Hy as (t & Ht & Hy). apply in_seq in Ht.
        apply filter_In in Hy. destruct Hy as [_ Hy]. apply Nat.eqb_eq in Hy.
        unfold leb. fold k. apply Nat.leb_le. lia.
Qed.

End SortByKey.

Lemma count_cons (t' : nat) (l : list nat) (t : nat) :
  Py.count (t' :: l) t = ((if (t =? t')%nat then 1 else 0) + Py.count l t)%nat.
Proof. unfold Py.count. simpl. now destruct (t =? t')%nat. Qed.

Lemma filter_with_occurrence {A : Type} (F : nat -> nat -> A) (t : nat)
  (l : list nat) :
  forall pre,
    filter (fun e : nat * A => (fst e =? t)%nat)
           (combine l (with_occurrence F pre l))
    = map (fun j => (t, F t j)) (seq (Py.count pre t) (Py.count l t)).
Proof.
  induction l as [|t' l IH]; intros pre; [reflexivity|].
  cbn [with_occurrence combine filter fst]. rewrite IH, count_cons, count_snoc.
  rewrite (Nat.eqb_sym t t').
  destruct (Nat.eqb_spec t' t) as [->|Hne]; simpl.
  - now rewrite Nat.add_1_r.
  - now rewrite Nat.add_0_r.
Qed.

(** ** Column slices side by side *)

Section Columns.
Context {V : Type}.

Lemma firstn_firstn_skipn (x y : nat) (m : list V) :
  firstn x m ++ firstn y (skipn x m) = firstn (x + y) m.
Proof.
  revert m. induction x as [|x IH]; intros m; simpl; [reflexivity|].
  destruct m as [|v m]; simpl.
  - now rewrite firstn_nil.
  - now rewrite IH.
Qed.

Lemma slice_app (a b c : nat) (l : list V) :
  (a <= b)%nat -> (b <= c)%nat ->
  Py.slice l a b ++ Py.slice l b c = Py.slice l a c.
Proof.
  intros Hab Hbc. unfold Py.slice.
  replace (skipn b l) with (skipn (b - a) (skipn a l))
    by (rewrite skipn_skipn; f_equal; lia).
  rewrite firstn_firstn_skipn. f_equal. lia.
Qed.

Lemma hstack_map (f g : list V -> list V) (a : list (list V)) :
  hstack (map f a) (map g a) = map (fun row => f row ++ g row) a.
Proof. induction a; simpl; congruence. Qed.

Lemma hstack_columns (a b c : nat) (arr : list (list V)) :
  (a <= b)%nat -> (b <= c)%nat ->
  hstack (columns a b arr) (columns b c arr) = columns a c arr.
Proof.
  intros Hab Hbc. unfold columns. rewrite hstack_map.
  apply map_ext. intros row. now apply slice_app.
Qed.

Lemma columns_all (r c : nat) (arr : list (list V)) :
  has_shape r c arr -> columns 0 c arr = arr.
Proof.
  intros [_ H]. unfold columns, Py.slice.
  rewrite <- (map_id arr) at 2. apply map_ext_in. intros row Hin.
  rewrite Forall_forall in H. rewrite Nat.sub_0_r, <- (H row Hin).
  apply firstn_all.
Qed.

Lemma columns_shape (r c a b : nat) (arr : list (list V)) :
  has_shape r c arr -> (a <= b)%nat -> (b <= c)%nat ->
  has_shape r (b - a) (columns a b arr).
Proof.
  intros [Hr H] Hab Hbc. split.
  - unfold columns. now rewrite length_map.
  - unfold columns. apply Forall_map. eapply Forall_impl; [|exact H].
    intros row Hrow. cbv beta in Hrow. unfold Py.slice.
    rewrite length_firstn, length_skipn. lia.
Qed.

Lemma slice_start_mono (od k j : nat) :
  (slice_start od k j <= slice_start od k (j + 1))%nat.
Proof. unfold slice_start. nia. Qed.

Lemma slice_start_0 (od k : nat) : slice_start od k 0 = 0%nat.
Proof. unfold slice_start. lia. Qed.

Lemma slice_start_end (od k : nat) : (1 <= k)%nat -> slice_start od k k = od.
Proof.
  intros Hk. unfold slice_start.
  pose proof (Nat.div_mod_eq od k). pose proof (Nat.mod_upper_bound od k). nia.
Qed.

Lemma slice_start_le (od k j : nat) :
  (1 <= k)%nat -> (j <= k)%nat -> (slice_start od k j <= od)%nat.
Proof.
  intros Hk Hj. rewrite <- (slice_start_end od k Hk) at 2.
  unfold slice_start. nia.
Qed.

Lemma slice_width (od k j : nat) :
  (1 <= k)%nat -> (j < k)%nat ->
  Z.of_nat (slice_start od k (j + 1) - slice_start od k j)
  = even_width (Z.of_nat od) k j.
Proof.
  intros Hk Hj. unfold slice_start, even_width.
  rewrite <- Nat2Z.inj_div, <- Nat2Z.inj_mod.
  destruct (Z.ltb_spec (Z.of_nat j) (Z.of_nat (od mod k))); nia.
Qed.

(** The slices of one table, side by side, are the table. *)
Lemma concat_slices (r od k : nat) (arr : list (list V)) :
  has_shape r od arr -> (1 <= k)%nat ->
  tf_concat_columns
    (map (fun j => columns (slice_start od k j) (slice_start od k (j + 1)) arr)
         (seq 0 k))
  = Ok arr.
Proof.
  intros Hsh Hk. destruct k as [|k]; [lia|]. cbn [seq map tf_concat_columns].
  assert (forall n a acc,
            acc = columns 0 (slice_start od (S k) a) arr ->
            fold_left hstack
              (map (fun j => columns (slice_start od (S k) j)
                               (slice_start od (S k) (j + 1)) arr) (seq a n)) acc
            = columns 0 (slice_start od (S k) (a + n)) arr) as G.
  { induction n as [|n IH]; intros a acc ->; simpl.
    - now rewrite Nat.add_0_r.
    - rewrite (IH (S a)).
      + f_equal. f_equal. lia.
      + rewrite hstack_columns; [f_equal; f_equal; lia|lia|apply slice_start_mono]. }
  match goal with
  | |- (if ?b then _ else _) = _ => assert (b = true) as ->
  end.
  { apply forallb_forall. intros b Hb. apply in_map_iff in Hb.
    destruct Hb as (j & <- & _).
    unfold shape0, columns. rewrite !length_map. apply Nat.eqb_refl. }
  - rewrite (G k 1%nat).
    + replace (1 + k)%nat with (S k) by lia.
      rewrite slice_start_end by lia. f_equal. eapply columns_all; eassumption.
    + now rewrite slice_start_0.
Qed.

End Columns.

(** ** The regrouping loop *)

Section Regroup.
Context {V : Type}.
Variable B : nat -> list (nat * list (list V)).
Variable whole : nat -> list (list V).
Variable n : nat.
Hypothesis B_nonempty : forall t, (t < n)%nat -> B t <> [].
Hypothesis B_keys : forall t, (t < n)%nat -> Forall (fun e => fst e = t) (B t).
Hypothesis B_whole :
  forall t, (t < n)%nat -> tf_concat_columns (map snd (B t)) = Ok (whole t).

Lemma regroup_same (block : list (nat * list (list V))) :
  forall st : @regroup V,
    Forall (fun e => fst e = cur_id st) block ->
    foldM regroup_step block st
    = Ok (mkRegroup (rg_result st) (cur_id st) (cur_list st ++ map snd block)).
Proof.
  induction block as [|e block IH]; intros st H.
  - simpl. rewrite app_nil_r. now destruct st.
  - apply Forall_cons_iff in H. destruct H as [He Hb]. cbv beta in He.
    cbn [foldM]. unfold regroup_step at 1.
    rewrite He, Nat.eqb_refl. cbn [bind]. rewrite IH by exact Hb.
    cbn [rg_result cur_id cur_list map]. now rewrite <- app_assoc.
Qed.

Lemma regroup_blocks (a : nat) :
  (a < n)%nat ->
  foldM regroup_step (flat_map B (seq 0 (S a))) (mkRegroup [] 0 [])
  = Ok (mkRegroup (map whole (seq 0 a)) a (map snd (B a))).
Proof.
  induction a as [|a IH]; intros Ha.
  - cbn [seq flat_map]. rewrite app_nil_r.
    rewrite regroup_same by (apply B_keys; lia). reflexivity.
  - rewrite seq_S, flat_map_app, foldM_app, IH by lia. cbn [bind flat_map].
    rewrite app_nil_r. unfold Nat.add.
    pose proof (B_keys (S a) Ha) as Hk. pose proof (B_nonempty (S a) Ha) as Hne.
    destruct (B (S a)) as [|e block]; [contradiction|].
    apply Forall_cons_iff in Hk. destruct Hk as [He Hb]. cbv beta in He.
    cbn [foldM]. unfold regroup_step at 1.
    cbn [cur_id cur_list rg_result]. rewrite He.
    destruct (Nat.eqb_spec (S a) a); [lia|].
    rewrite B_whole by lia. cbn [bind].
    rewrite regroup_same by (cbn [cur_id]; exact Hb).
    cbn [rg_result cur_id cur_list map app]. rewrite seq_S, map_app.
    reflexivity.
Qed.

Lemma regroup_all :
  (1 <= n)%nat ->
  (st <- foldM regroup_step (flat_map B (seq 0 n)) (mkRegroup [] 0 []) ;;
   last <- tf_concat_columns (cur_list st) ;;
   Ok (rg_result st ++ [last]))
  = Ok (map whole (seq 0 n)).
Proof.
  intros Hn. replace n with (S (n - 1)) at 1 2 by lia.
  rewrite regroup_blocks by lia. cbn [bind cur_list rg_result].
  rewrite B_whole by lia. cbn [bind]. now rewrite seq_S, map_app.
Qed.

End Regroup.


(** * Loading the weights *)

Lemma getitem_nat {A : Type} (l : list A) (i : nat) (x : A) :
  nth_error l i = Some x -> Py.getitem l (Z.of_nat i) = Ok x.
Proof.
  intros H. unfold Py.getitem.
  assert (i < length l)%nat by (apply nth_error_Some; congruence).
  destruct (Z.ltb_spec (Z.of_nat i) 0); [lia|].
  destruct (Z.ltb_spec (Z.of_nat i) 0); [lia|].
  destruct (Z.leb_spec (Z.of_nat (length l)) (Z.of_nat i)); [lia|].
  simpl. now rewrite Nat2Z.id, H.
Qed.

Lemma In_firstn {A : Type} (n : nat) (l : list A) (x : A) :
  In x (firstn n l) -> In x l.
Proof.
  intros H. rewrite <- (firstn_skipn n l). apply in_or_app. now left.
Qed.

Lemma In_skipn {A : Type} (n : nat) (l : list A) (x : A) :
  In x (skipn n l) -> In x l.
Proof.
  intros H. rewrite <- (firstn_skipn n l). apply in_or_app. now right.
Qed.

Section Assign.
Context {V : Type}.

Lemma shape_of (r c : nat) (a : list (list V)) :
  has_shape r c a -> (1 <= r)%nat -> shape0 a = r /\ shape1 a = c.
Proof.
  intros [Hr Hc] H1. split; [exact Hr|].
  destruct a as [|row a]; simpl in *; [lia|]. now inversion Hc.
Qed.

Lemma assign_spec (r c : nat) (var arr : list (list V)) :
  has_shape r c var -> has_shape r c arr -> (1 <= r)%nat ->
  assign var arr = Ok arr.
Proof.
  intros Hv Ha Hr. unfold assign.
  destruct (shape_of r c var Hv Hr) as [-> ->].
  now rewrite (proj2 (has_shapeb_spec r c arr) Ha).
Qed.

Lemma partial_shape (r c s : nat) (var arr : list (list V)) :
  has_shape r c var -> has_shape r c arr -> (s <= r)%nat ->
  has_shape r c (firstn s arr ++ skipn s var).
Proof.
  intros [Hvr Hvc] [Har Hac] Hs. split.
  - rewrite length_app, length_firstn, length_skipn. lia.
  - apply Forall_app. split.
    + apply Forall_forall. intros x Hx. apply In_firstn in Hx.
      rewrite Forall_forall in Hac. now apply Hac.
    + apply Forall_forall. intros x Hx. apply In_skipn in Hx.
      rewrite Forall_forall in Hvc. now apply Hvc.
Qed.

Lemma scatter_step (r c s e : nat) (var arr : list (list V)) :
  has_shape r c var -> has_shape r c arr -> (1 <= r)%nat ->
  (s <= e)%nat -> (e <= r)%nat ->
  scatter_update (firstn s arr ++ skipn s var) s e (Py.slice arr s e)
  = Ok (firstn e arr ++ skipn e var).
Proof.
  intros Hv Ha Hr Hse Her. unfold scatter_update.
  pose proof (partial_shape r c s var arr Hv Ha ltac:(lia)) as Hp.
  destruct (shape_of r c _ Hp Hr) as [-> ->].
  destruct Hv as [Hvr Hvc]. destruct Ha as [Har Hac].
  assert (has_shapeb (e - s) c (Py.slice arr s e) = true) as ->.
  { apply has_shapeb_spec. unfold Py.slice. split.
    - rewrite length_firstn, length_skipn. lia.
    - apply Forall_forall. intros x Hx. apply In_firstn, In_skipn in Hx.
      rewrite Forall_forall in Hac. now apply Hac. }
  destruct (Nat.leb_spec e r); [|lia]. cbn [andb].
  f_equal. unfold Py.slice.
  rewrite firstn_app, length_firstn.
  replace (s - Nat.min s (length arr))%nat with 0%nat by lia.
  rewrite firstn_firstn, Nat.min_id. simpl. rewrite app_nil_r.
  rewrite skipn_app, length_firstn.
  replace (e - Nat.min s (length arr))%nat with (e - s)%nat by lia.
  rewrite (skipn_all2 (firstn s arr)) by (rewrite length_firstn; lia).
  rewrite skipn_skipn. replace (e - s + s)%nat with e by lia. simpl.
  rewrite app_assoc. f_equal.
  rewrite firstn_firstn_skipn. f_equal. lia.
Qed.

Lemma assign_chunk_loop (r c : nat) (cs nc : nat) (last : Z)
  (var arr : list (list V)) :
  has_shape r c var -> has_shape r c arr -> (1 <= r)%nat ->
  (1 <= cs)%nat -> (1 <= nc)%nat ->
  ((nc - 1) * cs < r)%nat -> (r <= nc * cs)%nat ->
  last = Z.of_nat r - Z.of_nat cs * (Z.of_nat nc - 1) ->
  forall k i,
    (i + k = nc)%nat ->
    foldM (fun weight i =>
             let start := i * Z.of_nat cs in
             chunk_size <- Py.getitem
                             (repeat (Z.of_nat cs) (Z.to_nat (Z.of_nat nc - 1))
                              ++ [last]) i ;;
             let stop := start + chunk_size in
             scatter_update weight (Z.to_nat start) (Z.to_nat stop)
               (Py.slice arr (Z.to_nat start) (Z.to_nat stop)))
          (map Z.of_nat (seq i k))
          (firstn (Nat.min (i * cs) r) arr ++ skipn (Nat.min (i * cs) r) var)
    = Ok arr.
Proof.
  intros Hv Ha Hr Hcs Hnc Hlo Hhi Hlast.
  induction k as [|k IH]; intros i Hi.
  - simpl. replace (Nat.min (i * cs) r) with r by nia.
    destruct Hv as [Hvr _]. destruct Ha as [Har _].
    rewrite firstn_all2, skipn_all2 by lia. now rewrite app_nil_r.
  - cbn [seq map foldM]. cbv zeta.
    assert (i < nc)%nat as Hlt by lia.
    assert (i * cs <= (nc - 1) * cs)%nat as Hs by nia.
    set (e := Nat.min ((i + 1) * cs) r).
    assert (nth_error (repeat (Z.of_nat cs) (Z.to_nat (Z.of_nat nc - 1)) ++ [last]) i
            = Some (Z.of_nat e - Z.of_nat (i * cs))) as Hnth.
    { replace (Z.to_nat (Z.of_nat nc - 1)) with (nc - 1)%nat by lia.
      destruct (Nat.lt_ge_cases i (nc - 1)) as [Hi1|Hi1].
      - rewrite nth_error_app1 by (rewrite repeat_length; lia).
        rewrite nth_error_repeat by lia. f_equal.
        assert ((i + 1) * cs <= (nc - 1) * cs)%nat by nia. unfold e. lia.
      - rewrite nth_error_app2 by (rewrite repeat_length; lia).
        rewrite repeat_length. replace (i - (nc - 1))%nat with 0%nat by lia.
        simpl. f_equal. assert (i = nc - 1)%nat as -> by lia.
        unfold e. replace (nc - 1 + 1)%nat with nc by lia.
        rewrite Hlast. nia. }
    rewrite (getitem_nat _ _ _ Hnth). cbn [bind].
    replace (Z.to_nat (Z.of_nat i * Z.of_nat cs)) with (i * cs)%nat by lia.
    replace (Z.to_nat (Z.of_nat i * Z.of_nat cs + (Z.of_nat e - Z.of_nat (i * cs))))
      with e by lia.
    replace (Nat.min (i * cs) r) with (i * cs)%nat by lia.
    rewrite (scatter_step r c (i * cs) e var arr Hv Ha Hr) by (unfold e; nia).
    cbn [bind]. specialize (IH (S i) ltac:(lia)).
    replace (Nat.min (S i * cs) r) with e in IH by (unfold e; f_equal; lia).
    exact IH.
Qed.

Lemma assign_by_chunks_spec (chunk : Z) (r c : nat) (var arr : list (list V)) :
  has_shape r c var -> has_shape r c arr -> (1 <= r)%nat -> (1 <= c)%nat ->
  Z.of_nat c <= chunk ->
  assign_by_chunks chunk var arr = Ok arr.
Proof.
  intros Hv Ha Hr Hc Hchunk. unfold assign_by_chunks.
  destruct (Z.leb_spec (size arr) chunk); [now apply (assign_spec r c)|].
  destruct (shape_of r c var Hv Hr) as [-> ->].
  destruct (Nat.eqb_spec c 0); [lia|].
  assert (1 <= chunk / Z.of_nat c) as Hq
    by (apply Z.div_le_lower_bound; lia).
  destruct (Z.eqb_spec (chunk / Z.of_nat c) 0); [lia|].
  set (cs := chunk / Z.of_nat c) in *.
  pose proof (ceil_div_bounds (Z.of_nat r) cs ltac:(lia)) as Hb.
  set (nc := ceil_div (Z.of_nat r) cs) in *.
  assert (1 <= nc) as Hnc by nia.
  unfold Py.range.
  pose proof (assign_chunk_loop r c (Z.to_nat cs) (Z.to_nat nc)
                (Z.of_nat r - cs * (nc - 1)) var arr Hv Ha Hr
                ltac:(lia) ltac:(lia) ltac:(nia) ltac:(nia)
                ltac:(rewrite !Z2Nat.id by lia; reflexivity)
                (Z.to_nat nc) 0%nat ltac:(lia)) as Hloop.
  rewrite !Z2Nat.id in Hloop by lia. simpl Nat.min in Hloop.
  simpl firstn in Hloop. simpl skipn in Hloop. simpl app in Hloop.
  exact Hloop.
Qed.

Lemma assign_all_spec (chunk : Z) (cs : list Config)
  (vars arrays : list (list (list V))) :
  Forall2 shaped cs vars -> Forall2 shaped cs arrays ->
  Forall (fun c => 1 <= input_dim c /\ 1 <= output_dim c <= chunk) cs ->
  assign_all chunk vars arrays = Ok arrays.
Proof.
  intros Hv. revert arrays. induction Hv as [|c v cs vars Hcv _ IH];
    intros arrays Ha Hd; inversion Ha as [|? a ? arrays' Hca Ha']; subst.
  - reflexivity.
  - inversion Hd as [|? ? [Hi Ho] Hd']; subst. cbn [assign_all].
    rewrite (assign_by_chunks_spec chunk _ _ v a Hcv Hca) by lia.
    cbn [bind]. now rewrite (IH arrays' Ha' Hd').
Qed.

End Assign.

(** ** The slices a rank keeps *)

Lemma sumn_counts (tids : list (list nat)) (t : nat) :
  Py.sumn (map (fun rt => Py.count rt t) tids) = Py.count (concat tids) t.
Proof.
  induction tids as [|r tids IH]; simpl; [reflexivity|].
  now rewrite count_app, IH.
Qed.

Lemma offsets_with_occurrence (l2 : list nat) :
  forall l1,
    map (fun '(i, t) => Py.count (firstn i (l1 ++ l2)) t)
        (combine (seq (length l1) (length l2)) l2)
    = with_occurrence (fun _ j => j) l1 l2.
Proof.
  induction l2 as [|t l2 IH]; intros l1; [reflexivity|].
  cbn [length seq combine map with_occurrence].
  rewrite firstn_app, Nat.sub_diag, firstn_all. simpl firstn. rewrite app_nil_r.
  f_equal. specialize (IH (l1 ++ [t])).
  rewrite <- app_assoc, length_app, Nat.add_1_r in IH. exact IH.
Qed.

Section LocalSlices.
Context {V : Type}.
Variable tids : list (list nat).
Variable new_weights : list (list (list V)).
Variable r : nat.

Lemma slice_each (l : list nat) :
  (forall t, In t l -> (1 <= Py.count (concat tids) t)%nat) ->
  forall done,
    mapM (fun '(weight, (info, offset)) =>
            slice_weight_for_rank weight info r offset)
         (combine (map (fun t => nth t new_weights []) l)
            (combine (map (fun t => map (fun rt => Py.count rt t) tids) l)
               (with_occurrence (fun _ j => j) done l)))
    = Ok (with_occurrence (weight_slice new_weights tids)
            (concat (firstn r tids) ++ done) l).
Proof.
  induction l as [|t l IH]; intros Hl done; [reflexivity|].
  cbn [map with_occurrence combine mapM].
  unfold slice_weight_for_rank at 1.
  rewrite sumn_counts.
  destruct (Nat.eqb_spec (Py.count (concat tids) t) 0) as [E|_].
  { specialize (Hl t (or_introl eq_refl)). lia. }
  rewrite firstn_map, sumn_counts. cbn [bind].
  rewrite IH by (intros t' Ht'; apply Hl; now right).
  rewrite <- app_assoc. cbn [bind]. do 2 f_equal.
  unfold weight_slice, slice_start. now rewrite count_app.
Qed.

Lemma local_slices_spec :
  (r < length tids)%nat ->
  nth r tids [] <> [] ->
  (forall t, In t (concat tids) -> (t < length new_weights)%nat) ->
  local_slices tids r new_weights
  = Ok (with_occurrence (weight_slice new_weights tids)
          (concat (firstn r tids)) (nth r tids [])).
Proof.
  intros Hr Hne Hin. unfold local_slices.
  rewrite (getnat_nth tids r [] Hr). cbn [bind].
  set (rank_ids := nth r tids []) in *.
  assert (forall t, In t rank_ids -> In t (concat tids)) as Hsub.
  { intros t Ht. apply in_concat. exists rank_ids. split; [|assumption].
    apply nth_In. exact Hr. }
  rewrite (mapM_map _ (fun t => nth t new_weights [])).
  2:{ intros t Ht. apply getnat_nth. auto. }
  cbn [bind].
  destruct (map (fun t => nth t new_weights []) rank_ids) as [|w0 ws0] eqn:Ew.
  { destruct rank_ids; [contradiction|discriminate]. }
  rewrite <- Ew.
  rewrite (mapM_map _ (fun t => map (fun rank_tids => Py.count rank_tids t) tids)).
  2:{ intros t Ht. rewrite (getnat_nth _ t []).
      - f_equal. rewrite (nth_indep _ [] (map (fun rt => Py.count rt 0%nat) tids)).
        + rewrite (map_nth (fun tid => map (fun rank_tids => Py.count rank_tids tid) tids)).
          now rewrite seq_nth by auto.
        + rewrite length_map, length_seq. auto.
      - rewrite length_map, length_seq. auto. }
  cbn [bind].
  pose proof (offsets_with_occurrence rank_ids []) as Hoff. simpl in Hoff.
  unfold Py.enumerate. rewrite Hoff.
  rewrite slice_each.
  - now rewrite app_nil_r.
  - intros t Ht. unfold Py.count.
    assert (In t (filter (Nat.eqb t) (concat tids))) as Hf.
    { apply filter_In. split; [auto|apply Nat.eqb_refl]. }
    destruct (filter (Nat.eqb t) (concat tids)); [contradiction|simpl; lia].
Qed.

End LocalSlices.


(** * The round trip of the weights *)

Lemma Forall2_nth_error_intro {A B : Type} (R : A -> B -> Prop) (l1 : list A)
  (l2 : list B) :
  length l1 = length l2 ->
  (forall k x y, nth_error l1 k = Some x -> nth_error l2 k = Some y -> R x y) ->
  Forall2 R l1 l2.
Proof.
  revert l2. induction l1 as [|x l1 IH]; intros [|y l2] Hlen H; simpl in Hlen;
    try discriminate; constructor.
  - exact (H 0%nat x y eq_refl eq_refl).
  - apply IH; [lia|]. intros k x' y' Hx Hy. exact (H (S k) x' y' Hx Hy).
Qed.

Lemma Forall2_with_occurrence {A B : Type} (R : A -> B -> Prop)
  (F : nat -> nat -> A) (G : nat -> nat -> B) (l : list nat) :
  forall pre,
    (forall t j, (j < Py.count (pre ++ l) t)%nat -> R (F t j) (G t j)) ->
    Forall2 R (with_occurrence F pre l) (with_occurrence G pre l).
Proof.
  induction l as [|t l IH]; intros pre H; simpl; constructor.
  - apply H. rewrite count_app, count_cons, Nat.eqb_refl. lia.
  - apply IH. intros t' j Hj. apply H. now rewrite <- app_assoc in Hj.
Qed.

Lemma Forall_with_occurrence {A : Type} (P : A -> Prop)
  (F : nat -> nat -> A) (l : list nat) :
  forall pre,
    (forall t j, (j < Py.count (pre ++ l) t)%nat -> P (F t j)) ->
    Forall P (with_occurrence F pre l).
Proof.
  induction l as [|t l IH]; intros pre H; simpl; constructor.
  - apply H. rewrite count_app, count_cons, Nat.eqb_refl. lia.
  - apply IH. intros t' j Hj. apply H. now rewrite <- app_assoc in Hj.
Qed.

Lemma count_prefix (tids : list (list nat)) (r t : nat) :
  (Py.count (concat (firstn r tids) ++ nth r tids []) t
   <= Py.count (concat tids) t)%nat.
Proof.
  revert r. induction tids as [|x tids IH]; intros r.
  - destruct r; simpl; unfold Py.count; simpl; lia.
  - destruct r as [|r]; simpl.
    + rewrite count_app. lia.
    + specialize (IH r). rewrite <- app_assoc, !count_app in *. lia.
Qed.

Lemma count_pos_In (l : list nat) (t : nat) :
  In t l -> (1 <= Py.count l t)%nat.
Proof.
  intros H. unfold Py.count.
  assert (In t (filter (Nat.eqb t) l)) as Hf
    by (apply filter_In; split; [auto|apply Nat.eqb_refl]).
  destruct (filter (Nat.eqb t) l); [contradiction|simpl; lia].
Qed.

Lemma In_count_pos (l : list nat) (t : nat) :
  (1 <= Py.count l t)%nat -> In t l.
Proof.
  unfold Py.count. intros H.
  destruct (filter (Nat.eqb t) l) as [|x f] eqn:E; [simpl in H; lia|].
  assert (In x (filter (Nat.eqb t) l)) as Hx by (rewrite E; now left).
  apply filter_In in Hx. destruct Hx as [Hx He]. apply Nat.eqb_eq in He.
  now subst.
Qed.

(** [DistributedEmbedding.__init__] around a strategy that was built. *)
Lemma DistributedEmbedding_init_layer (fuel ws r : nat) (embeddings : list Config)
  (name : string) (thr : option Z) (dp : bool) (m : option (list Z))
  (l : Layer) :
  DistributedEmbedding_init fuel ws r embeddings name thr false dp m = Ok l ->
  In name supported_strategies
  /\ (ws <= length embeddings)%nat
  /\ exists s,
       DistEmbeddingStrategy_init fuel embeddings ws r name m thr = Ok s
       /\ l = layer_of ws r dp thr s.
Proof.
  unfold DistributedEmbedding_init. intros H.
  destruct (existsb (String.eqb name) supported_strategies) eqn:E;
    [|discriminate]. cbn [negb] in H.
  apply bind_Ok in H. destruct H as (s & Hs & H).
  assert (global_configs s = embeddings) as Hg.
  { unfold DistEmbeddingStrategy_init in Hs.
    destruct (ws =? 1)%nat.
    - injection Hs as <-. reflexivity.
    - apply bind_Ok in Hs. destruct Hs as ([? ?] & _ & Hs).
      apply bind_Ok in Hs. destruct Hs as (? & _ & Hs).
      apply bind_Ok in Hs. destruct Hs as ([? ?] & _ & Hs).
      apply bind_Ok in Hs. destruct Hs as (? & _ & Hs).
      apply bind_Ok in Hs. destruct Hs as (? & _ & Hs).
      injection Hs as <-. reflexivity. }
  rewrite Hg in H.
  destruct (Nat.ltb_spec (length embeddings) ws); [discriminate|].
  injection H as <-. split; [|split; [assumption|eauto]].
  apply existsb_exists in E. destruct E as (x & Hx & Heq).
  apply String.eqb_eq in Heq. now subst.
Qed.

(** ** Every worker gets a slice *)

Lemma empties_perm (l1 l2 : list (Z * list nat)) :
  Permutation l1 l2 -> empties l1 = empties l2.
Proof.
  unfold empties. induction 1; simpl; try lia.
  - destruct (snd x); simpl; lia.
  - destruct (snd x), (snd y); simpl; lia.
Qed.

Lemma greedy_empties (pairs : list (Z * nat)) :
  forall res res',
    greedy pairs res = Ok res' ->
    StronglySorted by_load res ->
    Forall load_sound res ->
    Forall (fun p => 0 < fst p) pairs ->
    (empties res' <= empties res - length pairs)%nat.
Proof.
  induction pairs as [|cur rest IH]; intros res res' Hg Hsorted Hsound Hpos.
  - simpl in Hg. injection Hg as <-. simpl. lia.
  - cbn [greedy] in Hg. apply bind_Ok in Hg. destruct Hg as (res1 & Hadd & Hg).
    destruct res as [|[total ids] others]; [discriminate|]. injection Hadd as <-.
    apply Forall_cons_iff in Hpos. destruct Hpos as [Hcur Hrest].
    apply Forall_cons_iff in Hsound. destruct Hsound as [[Hnn Hiff] Hothers].
    apply StronglySorted_inv in Hsorted. destruct Hsorted as [_ Hmin].
    cbn [fst snd] in *.
    pose proof (sorted_perm Py.load_leb
                  ((total + fst cur, ids ++ [snd cur]) :: others)) as Hperm.
    apply IH in Hg.
    + rewrite (empties_perm _ _ Hperm) in Hg. unfold empties in *.
      cbn [filter snd length] in *.
      destruct (ids ++ [snd cur]) eqn:E; [now destruct ids|].
      destruct ids as [|i ids'].
      * simpl. simpl in Hg. lia.
      * assert (filter (fun r : Z * list nat =>
                          match snd r with [] => true | _ :: _ => false end) others
                = []) as Hnone.
        { destruct (filter _ others) as [|[z zl] f] eqn:Ef; [reflexivity|].
          exfalso. assert (In (z, zl) (filter (fun r : Z * list nat =>
                          match snd r with [] => true | _ :: _ => false end) others))
            as Hin by (rewrite Ef; now left).
          apply filter_In in Hin. destruct Hin as [Hin Hl]. simpl in Hl.
          destruct zl; [|discriminate].
          rewrite Forall_forall in Hothers, Hmin.
          destruct (Hothers _ Hin) as [_ Hz]. specialize (Hmin _ Hin).
          unfold by_load in Hmin. simpl in *.
          assert (z = 0) by (now apply Hz).
          assert (total = 0) by lia.
          assert (i :: ids' = []) by (now apply Hiff). discriminate. }
        rewrite Hnone in *. simpl in *. lia.
    + apply sorted_sorted;
        [exact by_load_trans|exact load_leb_true|exact load_leb_false].
    + eapply Permutation_Forall; [symmetry; exact Hperm|].
      constructor; [|assumption]. unfold load_sound. cbn [fst snd].
      split; [lia|]. split; [intros E; now destruct ids|lia].
    + assumption.
Qed.

Lemma apply_stragety_nonempty (name : string) (ws : nat)
  (sliced : list (list Config)) (tids : list (list nat)) :
  (1 <= ws)%nat -> (ws <= length (concat sliced))%nat ->
  Forall (fun c => 0 < elements c) (concat sliced) ->
  apply_stragety name ws sliced = Ok tids ->
  Forall (fun ids => ids <> []) tids.
Proof.
  intros Hws Hn Hpos. unfold apply_stragety.
  destruct (String.eqb name "basic").
  { intros H. injection H as <-. apply Forall_forall. intros ids Hin.
    apply in_map_iff in Hin. destruct Hin as (i & <- & Hi). apply in_seq in Hi.
    intros E. apply (f_equal (@length nat)) in E. unfold Py.stride in E.
    rewrite every_length, flatten_ids_length in E by lia.
    change (length (@nil nat)) with 0%nat in E.
    assert (1 <= (length (concat sliced) + (ws - 1 - i)) / ws)%nat
      by (apply Nat.div_le_lower_bound; lia). lia. }
  destruct (String.eqb name "memory_balanced").
  { intros H. injection H as <-. apply Forall_forall. intros ids Hin.
    apply in_map_iff in Hin. destruct Hin as (i & <- & Hi). apply in_seq in Hi.
    intros E. apply app_eq_nil in E. destruct E as [E _].
    apply (f_equal (@length nat)) in E. unfold Py.stride in E.
    rewrite every_length in E by lia. rewrite length_map in E.
    rewrite (Permutation_length (sorted_reverse_perm _ _)) in E.
    rewrite length_combine, flatten_sizes_length, Nat.min_id, flatten_ids_length in E.
    change (length (@nil nat)) with 0%nat in E.
    assert (1 <= (length (concat sliced) + (2 * ws - 1 - i)) / (2 * ws))%nat.
    { apply Nat.div_le_lower_bound; lia. }
    change (ws + (ws + 0))%nat with (2 * ws)%nat in E. lia. }
  destruct (String.eqb name "memory_optimized"); [|destruct (name_bound _ _); discriminate].
  intros H. apply bind_Ok in H. destruct H as (res & Hres & H). injection H as <-.
  unfold memory_optimized_loads in Hres.
  set (pairs := rev (Py.sorted Py.pair_leb
                       (combine (flatten_sizes sliced) (flatten_ids sliced)))) in *.
  assert (Permutation pairs (combine (flatten_sizes sliced) (flatten_ids sliced)))
    as Hpairs by (unfold pairs; now rewrite <- Permutation_rev, sorted_perm).
  apply greedy_empties in Hres.
  - assert (empties (repeat (0, []) ws) = ws) as Hinit.
    { clear. unfold empties. induction ws; simpl; lia. }
    assert (length pairs = length (concat sliced)) as Hlen.
    { rewrite (Permutation_length Hpairs), length_combine, flatten_sizes_length,
        Nat.min_id. apply flatten_ids_length. }
    rewrite Hinit, Hlen in Hres. apply Forall_map. apply Forall_forall.
    intros [z l] Hin E. simpl in E. subst l. unfold empties in Hres.
    assert (In (z, @nil nat)
              (filter (fun r : Z * list nat =>
                         match snd r with [] => true | _ :: _ => false end) res))
      as Hf by (apply filter_In; split; [assumption|reflexivity]).
    destruct (filter _ res); [contradiction|simpl in Hres; lia].
  - apply sorted_repeat. unfold by_load. lia.
  - apply Forall_forall. intros x Hx. apply repeat_spec in Hx. subst x.
    unfold load_sound. simpl. split; [lia|tauto].
  - eapply Permutation_Forall; [symmetry; exact Hpairs|].
    apply Forall_forall. intros [s i] Hin. apply in_combine_l in Hin. simpl.
    rewrite flatten_sizes_concat in Hin. apply in_map_iff in Hin.
    destruct Hin as (c & <- & Hc). rewrite Forall_forall in Hpos. now apply Hpos.
Qed.

(** ** The plan of a group of several workers *)

Lemma Forall2_impl_l {A B : Type} (P : A -> Prop) (R R' : A -> B -> Prop)
  (l1 : list A) (l2 : list B) :
  (forall x y, P x -> R x y -> R' x y) ->
  Forall2 R l1 l2 -> Forall P l1 -> Forall2 R' l1 l2.
Proof.
  intros H. induction 1 as [|x y l1 l2 Hxy _ IH]; intros HP; constructor.
  - apply H; [now apply Forall_inv in HP|assumption].
  - apply IH. now apply Forall_inv_tail in HP.
Qed.

Section Plan.
Variables (fuel : nat) (embeddings : list Config) (ws : nat) (name : string)
  (thr : option Z) (m : list Z).
Variables (sliced : list (list Config)) (ranges : list (nat * nat))
  (tids : list (list nat)).
Hypothesis Hws : (1 <= ws)%nat.
Hypothesis Hsup : In name supported_strategies.
Hypothesis Hemb : (ws <= length embeddings)%nat.
Hypothesis Hdims :
  Forall (fun c => 1 <= input_dim c /\ 1 <= output_dim c) embeddings.
Hypothesis Hsliced :
  create_sliced_configs fuel embeddings ws thr m = Ok (sliced, ranges).
Hypothesis Htids : apply_stragety name ws sliced = Ok tids.

Lemma sliced_form :
  Forall2 (fun c sl => exists k, (1 <= k)%nat /\ Z.of_nat k <= output_dim c
                                 /\ sl = even_slices c k)
          embeddings sliced.
Proof.
  destruct (create_sliced_configs_inv _ _ _ _ _ _ _ Hsliced) as [H _].
  eapply Forall2_impl_l; [|exact H|exact Hdims].
  intros c sl [_ Ho] Hc. cbv beta in Hc.
  exact (maybe_slice_table_column_form fuel c thr ws sl Hc Ho Hws).
Qed.

Lemma sliced_length : length sliced = length embeddings.
Proof. symmetry. eapply Forall2_length. apply sliced_form. Qed.

Lemma tids_partition : partitions ws sliced tids.
Proof.
  destruct (apply_stragety_partitions name ws sliced Hsup Hws) as (d & Hd & Hp).
  congruence.
Qed.

Lemma tids_count (t : nat) :
  Py.count (concat tids) t = length (nth t sliced []).
Proof.
  destruct tids_partition as [_ Hp].
  rewrite (count_perm _ _ t Hp). apply flatten_ids_count.
Qed.

Lemma even_slices_length (c : Config) (k : nat) : length (even_slices c k) = k.
Proof. unfold even_slices. now rewrite length_map, length_seq. Qed.

Lemma even_width_bounds (od : Z) (k j : nat) :
  (1 <= k)%nat -> Z.of_nat k <= od -> 1 <= even_width od k j <= od.
Proof.
  intros Hk Hod. unfold even_width.
  assert (1 <= od / Z.of_nat k) by (apply Z.div_le_lower_bound; lia).
  pose proof (Z.div_mod od (Z.of_nat k) ltac:(lia)).
  pose proof (Z.mod_pos_bound od (Z.of_nat k) ltac:(lia)).
  destruct (Z.ltb_spec (Z.of_nat j) (od mod Z.of_nat k)); nia.
Qed.

(** Table [t] is cut into [Py.count (concat tids) t] slices, at least one,
    according to the even split. *)
Lemma table_slices (t : nat) (c : Config) :
  nth_error embeddings t = Some c ->
  let k := Py.count (concat tids) t in
  (1 <= k)%nat /\ Z.of_nat k <= output_dim c
  /\ nth t sliced [] = even_slices c k.
Proof.
  intros Hc. destruct (Forall2_nth_error _ _ _ t c sliced_form Hc)
    as (sl & Hsl & k & Hk & Hod & ->).
  rewrite tids_count, (nth_error_nth _ _ _ Hsl), even_slices_length. auto.
Qed.

Lemma tids_in_range (t : nat) :
  In t (concat tids) -> (t < length embeddings)%nat.
Proof.
  intros Hin. apply count_pos_In in Hin. rewrite tids_count in Hin.
  rewrite <- sliced_length.
  destruct (Nat.lt_ge_cases t (length sliced)); [assumption|].
  rewrite nth_overflow in Hin by assumption. simpl in Hin. lia.
Qed.

Lemma slice_config_form (t j : nat) (c : Config) :
  nth_error embeddings t = Some c ->
  (j < Py.count (concat tids) t)%nat ->
  slice_config sliced t j
  = set_output_dim c (even_width (output_dim c) (Py.count (concat tids) t) j).
Proof.
  intros Hc Hj. destruct (table_slices t c Hc) as (Hk & Hod & Hsl).
  unfold slice_config. rewrite Hsl. unfold even_slices.
  rewrite (nth_indep _ _ (set_output_dim c
             (even_width (output_dim c) (Py.count (concat tids) t) 0)))
    by (now rewrite length_map, length_seq).
  rewrite (map_nth (fun j => set_output_dim c
             (even_width (output_dim c) (Py.count (concat tids) t) j))).
  now rewrite seq_nth.
Qed.

Lemma slices_positive : Forall (fun c => 0 < elements c) (concat sliced).
Proof.
  apply Forall_concat.
  assert (Forall2 (fun (c : Config) sl => Forall (fun s => 0 < elements s) sl)
            embeddings sliced) as H.
  { eapply Forall2_impl_l; [|exact sliced_form|exact Hdims].
    intros c sl [Hi Ho] (k & Hk & Hod & ->).
    unfold even_slices. apply Forall_map, Forall_forall. intros j _.
    unfold elements. simpl.
    pose proof (even_width_bounds (output_dim c) k j Hk Hod). nia. }
  clear - H. induction H; constructor; assumption.
Qed.

Lemma slices_enough : (ws <= length (concat sliced))%nat.
Proof.
  assert (length sliced <= length (concat sliced))%nat; [|rewrite sliced_length in *; lia].
  pose proof sliced_form as H. clear - H.
  induction H as [|c sl cs sls (k & Hk & Hod & ->) _ IH]; simpl; [lia|].
  rewrite length_app, even_slices_length. lia.
Qed.

Lemma tids_nonempty : Forall (fun ids => ids <> []) tids.
Proof.
  eapply apply_stragety_nonempty;
    [exact Hws|exact slices_enough|exact slices_positive|exact Htids].
Qed.

(** *** Loading and dumping in a group of several workers *)

Context {V : Type}.
Variable zero : V.
Variables (dp : bool) (mo : option (list Z)).
Variable cluster : list (@Worker V).
Variable new_weights : list (list (list V)).
Variables (chunk : Z) (use_lock : bool).
Hypothesis Hmulti : ws <> 1%nat.
Hypothesis Hm : m = effective_map embeddings mo.
Hypothesis Hcluster : constructed fuel ws embeddings name thr dp mo cluster.
Hypothesis Hweights : Forall2 shaped embeddings new_weights.
Hypothesis Hchunk : Forall (fun c => output_dim c <= chunk) embeddings.

Let cfgs := per_worker (slice_config sliced) [] tids.
Let arrays := per_worker (weight_slice new_weights tids) [] tids.

Hypothesis Hfits :
  Forall (fun cs => gather_num_chunks ws cfgs <= Py.sum (map elements cs)) cfgs.

Lemma tids_length : length tids = ws.
Proof. now destruct tids_partition. Qed.

Lemma worker_layer (r : nat) (w : @Worker V) :
  nth_error cluster r = Some w ->
  (r < ws)%nat
  /\ layer w = layer_of ws r dp thr
                 (planned_strategy embeddings name m sliced ranges tids r).
Proof.
  intros Hr. destruct Hcluster as [Hlen Hall].
  assert (r < ws)%nat as Hlt by (rewrite <- Hlen; apply nth_error_Some; congruence).
  split; [exact Hlt|].
  destruct (Hall r w Hr) as [Hinit _].
  apply DistributedEmbedding_init_layer in Hinit.
  destruct Hinit as (_ & _ & s & Hs & ->).
  rewrite (init_planned fuel embeddings ws r name mo thr sliced ranges tids
             Hmulti Hlt) in Hs.
  - injection Hs as <-. now rewrite Hm.
  - now rewrite <- Hm.
  - exact Htids.
  - exact tids_partition.
Qed.

Lemma table_weight (t : nat) :
  (t < length embeddings)%nat ->
  exists c, nth_error embeddings t = Some c
            /\ shaped c (nth t new_weights [])
            /\ 1 <= input_dim c /\ 1 <= output_dim c <= chunk
            /\ shape1 (nth t new_weights []) = Z.to_nat (output_dim c).
Proof.
  intros Ht. destruct (nth_error embeddings t) as [c|] eqn:Hc;
    [|apply nth_error_None in Hc; lia].
  exists c. destruct (Forall2_nth_error _ _ _ t c Hweights Hc) as (a & Ha & Hsh).
  rewrite (nth_error_nth _ _ _ Ha).
  pose proof (proj1 (Forall_forall _ _) Hdims c (nth_error_In _ _ Hc)) as [Hi Ho].
  pose proof (proj1 (Forall_forall _ _) Hchunk c (nth_error_In _ _ Hc)) as Hch.
  cbv beta in Hch. split; [reflexivity|]. split; [exact Hsh|].
  split; [exact Hi|]. split; [lia|].
  apply (shape_of _ _ _ Hsh). lia.
Qed.

Lemma slice_shaped (t j : nat) :
  (j < Py.count (concat tids) t)%nat ->
  shaped (slice_config sliced t j) (weight_slice new_weights tids t j)
  /\ 1 <= input_dim (slice_config sliced t j)
  /\ 1 <= output_dim (slice_config sliced t j) <= chunk.
Proof.
  intros Hj.
  assert (In t (concat tids)) as Hin by (apply In_count_pos; lia).
  destruct (table_weight t (tids_in_range t Hin))
    as (c & Hc & Hsh & Hi & Ho & Hs1).
  destruct (table_slices t c Hc) as (Hk & Hkod & _).
  rewrite (slice_config_form t j c Hc Hj). cbn [input_dim output_dim set_output_dim].
  pose proof (even_width_bounds (output_dim c) _ j Hk Hkod) as Hb.
  split; [|lia].
  unfold shaped, weight_slice. cbn [input_dim output_dim set_output_dim].
  rewrite Hs1.
  set (od := Z.to_nat (output_dim c)). set (k := Py.count (concat tids) t) in *.
  replace (Z.to_nat (even_width (output_dim c) k j))
    with (slice_start od k (j + 1) - slice_start od k j)%nat.
  - apply (columns_shape _ od); [exact Hsh|apply slice_start_mono|].
    apply slice_start_le; lia.
  - pose proof (slice_width od k j Hk Hj) as Hw. unfold od in *.
    rewrite Z2Nat.id in Hw by lia. lia.
Qed.

Lemma row_shaped (r : nat) :
  (r < ws)%nat ->
  Forall2 shaped (nth r cfgs []) (nth r arrays [])
  /\ Forall (fun c => 1 <= input_dim c /\ 1 <= output_dim c <= chunk)
            (nth r cfgs [])
  /\ nth r cfgs [] <> [].
Proof.
  intros Hr. unfold cfgs, arrays.
  rewrite !per_worker_nth by (rewrite tids_length; exact Hr). cbn [app].
  split; [|split].
  - apply Forall2_with_occurrence. intros t j Hj. apply slice_shaped.
    pose proof (count_prefix tids r t). lia.
  - apply Forall_with_occurrence. intros t j Hj. apply slice_shaped.
    pose proof (count_prefix tids r t). lia.
  - intros E. apply (f_equal (@length _)) in E.
    rewrite with_occurrence_length in E.
    pose proof (proj1 (Forall_forall _ _) tids_nonempty (nth r tids [])) as Hne.
    destruct (nth r tids []) eqn:En; [|discriminate].
    apply Hne; [|reflexivity]. rewrite <- En. apply nth_In.
    rewrite tids_length. exact Hr.
Qed.

Lemma Forall2_map_l {A B C : Type} (f : A -> B) (R : B -> C -> Prop)
  (l1 : list A) (l2 : list C) :
  Forall2 (fun x y => R (f x) y) l1 l2 -> Forall2 R (map f l1) l2.
Proof. induction 1; simpl; constructor; auto. Qed.

Lemma set_weights_worker (r : nat) (w : @Worker V) :
  nth_error cluster r = Some w ->
  set_weights w new_weights chunk use_lock
  = Ok (mkWorker (layer w) (nth r arrays [])).
Proof.
  intros Hr. destruct (worker_layer r w Hr) as [Hlt Hl].
  destruct Hcluster as [_ Hall]. destruct (Hall r w Hr) as [_ Hvars].
  destruct (row_shaped r Hlt) as (Hsh & Hd & _).
  unfold set_weights. rewrite Hl in *.
  cbn [world_size layer_of plan rank planned_strategy table_ids_list
       local_embedding_layers local_configs] in *.
  destruct (Nat.ltb_spec 1 ws); [|lia].
  rewrite local_slices_spec.
  - cbn [bind]. fold arrays. 
    replace (with_occurrence (weight_slice new_weights tids)
               (concat (firstn r tids)) (nth r tids []))
      with (nth r arrays [])
      by (unfold arrays; now rewrite per_worker_nth by (rewrite tids_length; lia)).
    fold cfgs in Hvars.
    rewrite (assign_all_spec chunk
               (map (fun config => set_attribute config "synchronization" "NONE")
                    (nth r cfgs [])) (weights w) (nth r arrays [])).
    + reflexivity.
    + exact Hvars.
    + apply Forall2_map_l. exact Hsh.
    + apply Forall_map. exact Hd.
  - rewrite tids_length. exact Hlt.
  - pose proof (proj1 (Forall_forall _ _) tids_nonempty (nth r tids [])) as Hne.
    apply Hne. apply nth_In. rewrite tids_length. exact Hlt.
  - intros t Ht. rewrite <- (Forall2_length Hweights). now apply tids_in_range.
Qed.

Lemma nth_error_combine {A B : Type} (l1 : list A) (l2 : list B) (k : nat)
  (x : A) (y : B) :
  nth_error l1 k = Some x -> nth_error l2 k = Some y ->
  nth_error (combine l1 l2) k = Some (x, y).
Proof.
  revert l2 k. induction l1 as [|a l1 IH]; intros [|b l2] [|k] H1 H2;
    simpl in *; try discriminate; [congruence|now apply IH].
Qed.

Let loaded : list (@Worker V) :=
  map (fun p => mkWorker (layer (fst p)) (snd p)) (combine cluster arrays).

Lemma arrays_length : length arrays = ws.
Proof. unfold arrays. now rewrite per_worker_length, tids_length. Qed.

Lemma cfgs_length : length cfgs = ws.
Proof. unfold cfgs. now rewrite per_worker_length, tids_length. Qed.

Lemma loaded_nth (r : nat) (w : @Worker V) :
  nth_error cluster r = Some w ->
  nth_error loaded r = Some (mkWorker (layer w) (nth r arrays [])).
Proof.
  intros Hr. destruct (worker_layer r w Hr) as [Hlt _].
  unfold loaded. rewrite nth_error_map.
  rewrite (nth_error_combine cluster arrays r w (nth r arrays []) Hr).
  - reflexivity.
  - apply nth_error_nth'. rewrite arrays_length. exact Hlt.
Qed.

Lemma loaded_length : length loaded = ws.
Proof.
  unfold loaded. rewrite length_map, length_combine, arrays_length.
  destruct Hcluster as [-> _]. apply Nat.min_id.
Qed.

Lemma loaded_inv (r : nat) (w' : @Worker V) :
  nth_error loaded r = Some w' ->
  exists w, nth_error cluster r = Some w
            /\ w' = mkWorker (layer w) (nth r arrays []).
Proof.
  intros Hr.
  assert (r < ws)%nat as Hlt by (rewrite <- loaded_length; apply nth_error_Some; congruence).
  destruct (nth_error cluster r) as [w|] eqn:Hw.
  - exists w. split; [reflexivity|]. rewrite (loaded_nth r w Hw) in Hr. congruence.
  - apply nth_error_None in Hw. destruct Hcluster as [Hlen _]. lia.
Qed.

Lemma set_weights_all :
  mapM (fun w => set_weights w new_weights chunk use_lock) cluster = Ok loaded.
Proof.
  apply mapM_nth.
  - rewrite loaded_length. now destruct Hcluster.
  - intros k w Hk. exists (mkWorker (layer w) (nth k arrays [])).
    split; [exact (loaded_nth k w Hk)|exact (set_weights_worker k w Hk)].
Qed.

Lemma loaded_weights : map weights loaded = arrays.
Proof.
  unfold loaded. rewrite map_map. cbn [weights].
  apply map_snd_combine. rewrite arrays_length. now destruct Hcluster.
Qed.

Lemma get_weights_loaded (r : nat) (self : @Worker V) (all_ranks : bool) :
  (2 <= ws)%nat ->
  nth_error loaded r = Some self ->
  all_ranks || (rank (layer self) =? 0)%nat = true ->
  get_weights zero loaded r all_ranks = Ok new_weights.
Proof.
  intros Hws2 Hr Hcond.
  rewrite (get_weights_gather zero loaded ws cfgs loaded_length Hws2) with (self := self).
  - destruct (loaded_inv r self Hr) as (w & Hw & ->).
    destruct (worker_layer r w Hw) as [Hlt Hl]. cbn [layer]. rewrite Hl.
    cbn [layer_of plan planned_strategy table_ids_list].
    rewrite loaded_weights. unfold arrays. rewrite per_worker_concat.
    change key_leb with (fun p q : nat * list (list V) => (fst p <=? fst q)%nat).
    rewrite (sorted_by_key (length embeddings)).
    + rewrite (regroup_all _ (fun t => nth t new_weights []) (length embeddings)).
      * rewrite (Forall2_length Hweights). now rewrite map_nth_seq.
      * intros t Ht. rewrite (filter_with_occurrence _ t (concat tids) []).
        destruct (nth_error embeddings t) as [c|] eqn:Hc;
          [|apply nth_error_None in Hc; lia].
        destruct (table_slices t c Hc) as (Hk & _).
        destruct (Py.count (concat tids) t); [lia|discriminate].
      * intros t Ht. rewrite (filter_with_occurrence _ t (concat tids) []).
        apply Forall_map, Forall_forall. reflexivity.
      * intros t Ht. rewrite (filter_with_occurrence _ t (concat tids) []).
        rewrite map_map. cbn [snd]. change (Py.count [] t) with 0%nat.
        destruct (table_weight t Ht) as (c & Hc & Hsh & Hi & Ho & Hs1).
        destruct (table_slices t c Hc) as (Hk & _).
        unfold weight_slice.
        apply (concat_slices (Z.to_nat (input_dim c))); [|exact Hk].
        rewrite Hs1. exact Hsh.
      * lia.
    + apply Forall_forall. intros [t a] Hin. apply in_combine_l in Hin.
      simpl. now apply tids_in_range.
  - apply Forall_forall. intros w' Hin. apply In_nth_error in Hin.
    destruct Hin as [k Hk]. destruct (loaded_inv k w' Hk) as (w & Hw & ->).
    destruct (worker_layer k w Hw) as [_ Hl]. cbn [layer]. rewrite Hl.
    split; reflexivity.
  - apply Forall2_nth_error_intro.
    + now rewrite cfgs_length, loaded_length.
    + intros k cs w' Hcs Hk. destruct (loaded_inv k w' Hk) as (w & Hw & ->).
      destruct (worker_layer k w Hw) as [Hlt _]. cbn [weights].
      apply (nth_error_nth _ _ []) in Hcs. subst cs.
      now destruct (row_shaped k Hlt).
  - apply Forall_forall. intros cs Hin. apply In_nth_error in Hin.
    destruct Hin as [k Hk].
    assert (k < ws)%nat as Hlt by (rewrite <- cfgs_length; apply nth_error_Some; congruence).
    apply (nth_error_nth _ _ []) in Hk. subst cs.
    destruct (row_shaped k Hlt) as (_ & Hd & _).
    eapply Forall_impl; [|exact Hd]. cbv beta. intros c Hc. lia.
  - apply Forall_forall. intros cs Hin. apply In_nth_error in Hin.
    destruct Hin as [k Hk].
    assert (k < ws)%nat as Hlt by (rewrite <- cfgs_length; apply nth_error_Some; congruence).
    apply (nth_error_nth _ _ []) in Hk. subst cs.
    now destruct (row_shaped k Hlt) as (_ & _ & Hne).
  - exact Hfits.
  - exact Hr.
  - exact Hcond.
Qed.

End Plan.

(** ** The round trip *)

Lemma set_get_single {V : Type} (zero : V) (fuel : nat) (embeddings : list Config)
  (name : string) (thr : option Z) (dp : bool) (mo : option (list Z))
  (cluster : list (@Worker V)) (new_weights : list (list (list V)))
  (chunk : Z) (use_lock : bool) :
  constructed fuel 1 embeddings name thr dp mo cluster ->
  Forall (fun c => 1 <= input_dim c /\ 1 <= output_dim c <= chunk) embeddings ->
  Forall2 shaped embeddings new_weights ->
  exists loaded,
    mapM (fun w => set_weights w new_weights chunk use_lock) cluster = Ok loaded
    /\ forall all_ranks, get_weights zero loaded 0 all_ranks = Ok new_weights.
Proof.
  intros [Hlen Hall] Hd Hw.
  destruct cluster as [|w [|w' rest]]; try discriminate.
  destruct (Hall 0%nat w eq_refl) as [Hinit Hvars].
  apply DistributedEmbedding_init_layer in Hinit.
  destruct Hinit as (_ & _ & s & Hs & Hl).
  unfold DistEmbeddingStrategy_init in Hs. simpl in Hs. injection Hs as <-.
  rewrite Hl in Hvars. cbn [layer_of local_embedding_layers local_configs] in Hvars.
  exists [mkWorker (layer w) new_weights]. split.
  - cbn [mapM]. unfold set_weights. rewrite Hl at 1. cbn [layer_of world_size].
    change (1 <? 1)%nat with false. cbv iota. cbn [bind].
    rewrite (assign_all_spec chunk
               (map (fun config => set_attribute config "synchronization" "NONE")
                    embeddings) (weights w) new_weights Hvars).
    + reflexivity.
    + apply Forall2_map_l. exact Hw.
    + apply Forall_map. exact Hd.
  - intros all_ranks. unfold get_weights. cbn [Py.getnat nth_error bind layer].
    rewrite Hl. cbn [layer_of world_size]. reflexivity.
Qed.



(** * The weights of a group of two workers *)

Lemma example_constructed :
  constructed 10 2 example_embeddings "basic" (Some 4) true None example_cluster.
Proof.
  split; [reflexivity|].
  intros [|[|r]] w Hw; simpl in Hw.
  - injection Hw as <-. split; [reflexivity|]. repeat constructor.
  - injection Hw as <-. split; [reflexivity|]. repeat constructor.
  - destruct r; discriminate.
Qed.

Lemma example_dims :
  Forall (fun c => 1 <= input_dim c /\ 1 <= output_dim c <= 134217728)
         example_embeddings.
Proof. repeat constructor; simpl; lia. Qed.

Lemma example_shaped : Forall2 shaped example_embeddings example_weights.
Proof. repeat constructor. Qed.

Lemma example_fits (w : @Worker Z) :
  In w example_cluster -> gather_fits (plan (layer w)) 2.
Proof.
  intros [<-|[<-|[]]]; vm_compute; repeat constructor; discriminate.
Qed.





(** * The forward pass: from data-parallel to model-parallel inputs *)

Lemma comm_dtype_spec (inputs : list Tensor) :
  comm_dtype inputs
  = if existsb (fun inp => dtype_eqb (dtype inp) int64) inputs then int64 else int32.
Proof.
  unfold comm_dtype.
  assert (forall acc,
             fold_left (fun comm_dtype inp =>
                          match dtype inp with
                          | int64 => int64
                          | int32 => comm_dtype
                          end) inputs acc
             = if existsb (fun inp => dtype_eqb (dtype inp) int64) inputs
               then int64 else acc) as G.
  { induction inputs as [|inp inputs IH]; intros acc; simpl; [reflexivity|].
    rewrite IH. destruct (dtype inp); simpl; [reflexivity|].
    now destruct (existsb _ inputs). }
  apply G.
Qed.

Lemma tf_cast_comm (inputs : list Tensor) (inp : Tensor) :
  In inp inputs ->
  tf_cast inp (comm_dtype inputs)
  = mkTensor (comm_dtype inputs) (shape inp) (data inp).
Proof.
  intros Hin. unfold tf_cast. destruct (dtype inp) eqn:E; [reflexivity|].
  rewrite comm_dtype_spec.
  replace (existsb (fun inp => dtype_eqb (dtype inp) int64) inputs) with true;
    [reflexivity|].
  symmetry. apply existsb_exists. exists inp. split; [exact Hin|].
  now rewrite E.
Qed.

Lemma comm_dtype_ext (xs ys : list Tensor) :
  map dtype xs = map dtype ys -> comm_dtype xs = comm_dtype ys.
Proof.
  intros H. rewrite !comm_dtype_spec.
  replace (existsb (fun inp => dtype_eqb (dtype inp) int64) xs)
    with (existsb (fun d => dtype_eqb d int64) (map dtype xs)).
  - rewrite H. clear H. induction ys as [|y ys IH]; simpl; [reflexivity|].
    destruct (dtype_eqb (dtype y) int64); simpl; [reflexivity|exact IH].
  - clear H. induction xs as [|x xs IH]; simpl; [reflexivity|]. now rewrite IH.
Qed.

Lemma combine_map {A B C : Type} (f : A -> B) (g : A -> C) (l : list A) :
  combine (map f l) (map g l) = map (fun x => (f x, g x)) l.
Proof. induction l as [|x l IH]; simpl; [reflexivity|]. now rewrite IH. Qed.

Lemma mapM_compose {A B C : Type} (f : B -> result C) (g : A -> B) (l : list A) :
  mapM f (map g l) = mapM (fun x => f (g x)) l.
Proof. induction l as [|x l IH]; simpl; [reflexivity|]. now rewrite IH. Qed.

Lemma reshard_loop (xs : list Tensor) (d : Tensor) (idss : list (list nat)) :
  Forall (Forall (fun g => (g < length xs)%nat)) idss ->
  forall st,
    foldM (reshard_step xs) idss st
    = Ok (mkResharded
            (local_shapes st ++ map (map (fun g => shape (nth g xs d))) idss)
            (local_splits st
             ++ map (map (fun g => length (data (nth g xs d)))) idss)
            (global_splits st
             ++ map (fun ids => Py.sumn (map (fun g => length (data (nth g xs d))) ids))
                    idss)
            (flat_inputs st ++ concat (map (map (fun g => data (nth g xs d))) idss))).
Proof.
  induction 1 as [|ids idss Hids _ IH]; intros st.
  - simpl. rewrite !app_nil_r. now destruct st.
  - cbn [foldM]. unfold reshard_step at 1.
    rewrite (mapM_map (Py.getnat xs) (fun g => nth g xs d)).
    + cbn [bind]. rewrite IH. cbn [local_shapes local_splits global_splits flat_inputs].
      rewrite !map_map. cbn [map concat]. now rewrite <- !app_assoc.
    + intros g Hg. apply getnat_nth.
      rewrite Forall_forall in Hids. now apply Hids.
Qed.

Lemma concat_map_length {A : Type} (ll : list (list A)) :
  length (concat ll) = Py.sumn (map (@length A) ll).
Proof.
  induction ll as [|l ll IH]; simpl; [reflexivity|].
  now rewrite length_app, IH.
Qed.

Lemma sumn_const {A : Type} (l : list A) (c : nat) :
  Py.sumn (map (fun _ => c) l) = (length l * c)%nat.
Proof. induction l as [|x l IH]; simpl; [reflexivity|]. rewrite IH. lia. Qed.

(** Cutting the concatenation of equally long blocks into rows. *)
Lemma rows_of_blocks {A : Type} (b p : nat) (blocks : list (list A)) :
  Forall (fun block => length block = (b * p)%nat) blocks ->
  rows_of (length blocks * b) p (concat blocks)
  = concat (map (rows_of b p) blocks).
Proof.
  induction 1 as [|block blocks Hb _ IH]; [reflexivity|].
  cbn [length concat map]. rewrite <- IH. clear IH.
  change (S (length blocks) * b)%nat with (b + length blocks * b)%nat.
  generalize (length blocks * b)%nat as n. generalize (concat blocks) as rest.
  revert block Hb. induction b as [|b IHb]; intros block Hb rest n.
  - destruct block; [reflexivity|discriminate].
  - cbn [Nat.add rows_of app]. f_equal.
    + rewrite firstn_app. replace (p - length block)%nat with 0%nat by lia.
      rewrite firstn_O, app_nil_r. reflexivity.
    + rewrite skipn_app. replace (p - length block)%nat with 0%nat by lia.
      rewrite skipn_O. apply IHb. rewrite length_skipn. lia.
Qed.

Lemma mapM_indexed {A B : Type} (f : A -> result B) (g : nat -> B) (l : list A) :
  (forall k x, nth_error l k = Some x -> f x = Ok (g k)) ->
  mapM f l = Ok (map g (seq 0 (length l))).
Proof.
  intros H. apply mapM_nth.
  - now rewrite length_map, length_seq.
  - intros k x Hx. exists (g k). split; [|now apply H].
    assert (k < length l)%nat as Hk by (apply nth_error_Some; congruence).
    rewrite nth_error_map, nth_error_seq.
    destruct (Nat.ltb_spec k (length l)); [reflexivity|lia].
Qed.

Lemma nth_error_combine_inv {A B : Type} (l1 : list A) (l2 : list B) (k : nat)
  (p : A * B) :
  nth_error (combine l1 l2) k = Some p ->
  nth_error l1 k = Some (fst p) /\ nth_error l2 k = Some (snd p).
Proof.
  revert l2 k. induction l1 as [|x l1 IH]; intros [|y l2] [|k] H; simpl in H;
    try discriminate.
  - injection H as <-. now split.
  - simpl. now apply IH.
Qed.

Lemma tf_concat_Ok {A : Type} (ts : list (list A)) :
  ts <> [] -> tf_concat ts = Ok (concat ts).
Proof. destruct ts; [congruence|reflexivity]. Qed.

Lemma concat_concat {A : Type} (lll : list (list (list A))) :
  concat (concat lll) = concat (map (@concat A) lll).
Proof.
  induction lll as [|ll lll IH]; simpl; [reflexivity|].
  now rewrite concat_app, IH.
Qed.

Lemma dtype_eqb_refl (d : DType) : dtype_eqb d d = true.
Proof. now destruct d. Qed.

Lemma hvd_alltoall_splits_spec {A : Type} (own : DType)
  (blocks : list (list (list A))) (me : nat) :
  Forall (fun bl => (me < length bl)%nat) blocks ->
  hvd_alltoall_splits own
    (map (fun bl => (own, concat bl, map (@length A) bl)) blocks) me
  = Ok (concat (map (fun bl => nth me bl []) blocks)).
Proof.
  intros H. unfold hvd_alltoall_splits.
  replace (forallb _ _) with true.
  - rewrite mapM_compose.
    rewrite (mapM_map _ (fun bl => nth me bl [])); [reflexivity|].
    intros bl Hbl. cbn [fst snd]. unfold tf_split.
    rewrite <- concat_map_length, Nat.eqb_refl. cbn [bind].
    rewrite <- (app_nil_r (concat bl)), split_at_concat.
    apply getnat_nth. rewrite Forall_forall in H. now apply H.
  - symmetry. apply forallb_forall. intros x Hx. apply in_map_iff in Hx.
    destruct Hx as (bl & <- & _). apply dtype_eqb_refl.
Qed.

Lemma reshape_rows_concat {A : Type} (n c : nat) (rows : list (list A)) :
  (1 <= n)%nat -> length rows = n ->
  Forall (fun row => length row = c) rows ->
  reshape_rows n (concat rows) = Ok rows.
Proof.
  intros Hn Hl Hrows. unfold reshape_rows.
  assert (length (concat rows) = (c * n)%nat) as E.
  { rewrite concat_map_length. rewrite (map_ext_in _ (fun _ => c)).
    - rewrite sumn_const. lia.
    - intros row Hr. rewrite Forall_forall in Hrows. now apply Hrows. }
  destruct (Nat.eqb_spec n 0); [lia|].
  rewrite E, Nat.Div0.mod_mul, Nat.eqb_refl, Nat.div_mul by lia.
  rewrite <- Hl, <- (app_nil_r (concat rows)). now rewrite rows_of_concat.
Qed.

Lemma dp_inputs_facts (b : nat) (dtypes : list DType) (trailing : list (list nat))
  (inputs : list Tensor) (g : nat) :
  dp_inputs b dtypes trailing inputs -> (g < length trailing)%nat ->
  shape (nth g inputs no_tensor) = b :: nth g trailing []
  /\ length (data (nth g inputs no_tensor))
     = (b * num_elements (nth g trailing []))%nat
  /\ length inputs = length trailing.
Proof.
  intros (_ & Hshape & Hwf) Hg.
  assert (length inputs = length trailing) as Hl.
  { apply (f_equal (@length _)) in Hshape. now rewrite !length_map in Hshape. }
  assert (shape (nth g inputs no_tensor) = b :: nth g trailing []) as Hs.
  { pose proof (map_nth shape inputs no_tensor g) as E. rewrite Hshape in E.
    rewrite <- E.
    rewrite (nth_indep _ (shape no_tensor) (b :: []))
      by (rewrite length_map; lia).
    apply (map_nth (cons b) trailing [] g). }
  split; [exact Hs|]. split; [|exact Hl].
  pose proof (proj1 (Forall_forall _ _) Hwf (nth g inputs no_tensor)) as Hw.
  rewrite Hw; [|apply nth_In; lia].
  rewrite Hs. reflexivity.
Qed.

Section InputResharder.
Context {V : Type}.
Variables (ws b : nat) (idss : list (list nat)) (dtypes : list DType)
  (trailing : list (list nat)).
Variable cluster : list (@Worker V).
Variable batch : list (list Tensor).
Hypothesis Hws : (1 <= ws)%nat.
Hypothesis Hlen : length cluster = ws.
Hypothesis Hbatch_len : length batch = ws.
Hypothesis Hidss_len : length idss = ws.
Hypothesis Hlayers :
  forall r w, nth_error cluster r = Some w ->
              world_size (layer w) = ws /\ rank (layer w) = r
              /\ input_ids_list (plan (layer w)) = idss.
Hypothesis Hbatch : Forall (dp_inputs b dtypes trailing) batch.
Hypothesis Hids : Forall (Forall (fun g => (g < length trailing)%nat)) idss.
Hypothesis Hne : Forall (fun ids => ids <> []) idss.

Let sz (g : nat) : nat := (b * num_elements (nth g trailing []))%nat.
Let comm : DType := comm_dtype (nth 0 batch []).
Let col (inputs : list Tensor) (g : nat) : list Z := data (nth g inputs no_tensor).
Let sent_state (inputs : list Tensor) : resharded :=
  mkResharded (map (map (fun g => b :: nth g trailing [])) idss)
    (map (map sz) idss) (map (fun ids => Py.sumn (map sz ids)) idss)
    (concat (map (map (col inputs)) idss)).

Lemma input_facts (inputs : list Tensor) (g : nat) :
  In inputs batch -> (g < length trailing)%nat ->
  shape (nth g inputs no_tensor) = b :: nth g trailing []
  /\ length (col inputs g) = sz g
  /\ length inputs = length trailing.
Proof.
  intros Hin Hg. apply (dp_inputs_facts b dtypes); [|exact Hg].
  exact (proj1 (Forall_forall _ _) Hbatch inputs Hin).
Qed.

Lemma comm_same (inputs : list Tensor) : In inputs batch -> comm_dtype inputs = comm.
Proof.
  intros Hin. apply comm_dtype_ext.
  assert (In (nth 0 batch []) batch) as H0 by (apply nth_In; lia).
  destruct (proj1 (Forall_forall _ _) Hbatch inputs Hin) as (-> & _).
  destruct (proj1 (Forall_forall _ _) Hbatch _ H0) as (-> & _).
  reflexivity.
Qed.

Lemma idss_flat_nonempty (f : nat -> list Z) : concat (map (map f) idss) <> [].
Proof.
  destruct idss as [|ids rest]; [simpl in Hidss_len; lia|].
  pose proof (Forall_inv Hne) as H. destruct ids; [congruence|]. discriminate.
Qed.

Lemma dp_to_mp_send_spec (s : Strategy) (inputs : list Tensor) :
  input_ids_list s = idss -> In inputs batch ->
  dp_to_mp_send s inputs
  = Ok (comm, sent_state inputs, concat (concat (map (map (col inputs)) idss))).
Proof.
  intros Hs Hin. unfold dp_to_mp_send. rewrite Hs, (comm_same inputs Hin).
  rewrite (map_ext_in (fun inp => tf_cast inp comm)
             (fun inp => mkTensor comm (shape inp) (data inp)));
    [|intros inp Hinp; rewrite <- (comm_same inputs Hin); now apply tf_cast_comm].
  rewrite (reshard_loop _ (mkTensor comm [] [])).
  - cbn [local_shapes local_splits global_splits flat_inputs app bind].
    assert (forall g, (g < length trailing)%nat ->
                      nth g (map (fun inp => mkTensor comm (shape inp) (data inp)) inputs)
                          (mkTensor comm [] [])
                      = mkTensor comm (b :: nth g trailing []) (col inputs g)) as Hnth.
    { intros g Hg.
      etransitivity;
        [exact (map_nth (fun inp => mkTensor comm (shape inp) (data inp))
                        inputs no_tensor g)|].
      destruct (input_facts inputs g Hin Hg) as (-> & _). reflexivity. }
    assert (forall {B : Type} (F : Tensor -> B) (G : nat -> B),
               (forall g, (g < length trailing)%nat ->
                          F (mkTensor comm (b :: nth g trailing []) (col inputs g)) = G g) ->
               map (map (fun g => F (nth g (map (fun inp => mkTensor comm (shape inp)
                                                                     (data inp)) inputs)
                                         (mkTensor comm [] [])))) idss
               = map (map G) idss) as Hmap.
    { intros B F G HFG. apply map_ext_in. intros ids Hids'.
      apply map_ext_in. intros g Hg.
      pose proof (proj1 (Forall_forall _ _) Hids ids Hids') as Hb.
      pose proof (proj1 (Forall_forall _ _) Hb g Hg) as Hlt. cbv beta in Hlt.
      rewrite (Hnth g Hlt). now apply HFG. }
    rewrite (Hmap _ (fun t => shape t) (fun g => b :: nth g trailing []))
      by reflexivity.
    rewrite (Hmap _ (fun t => data t) (col inputs)) by reflexivity.
    rewrite (Hmap _ (fun t => length (data t)) sz)
      by (intros g Hg; now destruct (input_facts inputs g Hin Hg) as (_ & ? & _)).
    replace (map (fun ids => Py.sumn (map (fun g => length (data (nth g _ _))) ids)) idss)
      with (map (fun ids => Py.sumn (map sz ids)) idss).
    + rewrite tf_concat_Ok by apply idss_flat_nonempty. reflexivity.
    + apply map_ext_in. intros ids Hids'. f_equal. apply map_ext_in. intros g Hg.
      pose proof (proj1 (Forall_forall _ _) Hids ids Hids') as Hb.
      pose proof (proj1 (Forall_forall _ _) Hb g Hg) as Hlt. cbv beta in Hlt.
      rewrite (Hnth g Hlt). cbn [data].
      now destruct (input_facts inputs g Hin Hlt) as (_ & ? & _).
  - apply Forall_forall. intros ids Hids'. apply Forall_forall. intros g Hg.
    pose proof (proj1 (Forall_forall _ _) Hids ids Hids') as Hb.
    pose proof (proj1 (Forall_forall _ _) Hb g Hg) as Hlt. cbv beta in Hlt.
    rewrite length_map. destruct (input_facts inputs g Hin Hlt) as (_ & _ & ->).
    exact Hlt.
Qed.


Lemma sent_blocks (inputs : list Tensor) :
  In inputs batch ->
  concat (concat (map (map (col inputs)) idss))
  = concat (map (fun ids => concat (map (col inputs) ids)) idss)
  /\ map (fun ids => Py.sumn (map sz ids)) idss
     = map (@length Z) (map (fun ids => concat (map (col inputs) ids)) idss).
Proof.
  intros Hin. split.
  - now rewrite concat_concat, map_map.
  - rewrite map_map. apply map_ext_in. intros ids Hids'.
    rewrite concat_map_length, map_map. f_equal. apply map_ext_in. intros g Hg.
    pose proof (proj1 (Forall_forall _ _) Hids ids Hids') as Hb.
    pose proof (proj1 (Forall_forall _ _) Hb g Hg) as Hlt. cbv beta in Hlt.
    now destruct (input_facts inputs g Hin Hlt) as (_ & ? & _).
Qed.

Lemma row_length (inputs : list Tensor) (ids : list nat) :
  In inputs batch -> In ids idss ->
  map (@length Z) (map (col inputs) ids) = map sz ids.
Proof.
  intros Hin Hids'. rewrite map_map. apply map_ext_in. intros g Hg.
  pose proof (proj1 (Forall_forall _ _) Hids ids Hids') as Hb.
  pose proof (proj1 (Forall_forall _ _) Hb g Hg) as Hlt. cbv beta in Hlt.
  now destruct (input_facts inputs g Hin Hlt) as (_ & ? & _).
Qed.

Lemma dp_to_mp_recv_spec (l : Layer) (r : nat) (inputs0 : list Tensor) :
  world_size l = ws -> rank l = r -> (r < ws)%nat ->
  dp_to_mp_recv l comm (sent_state inputs0)
    (concat (map (fun inputs => concat (map (col inputs) (nth r idss []))) batch))
  = Ok (map (mp_input comm b trailing batch) (nth r idss [])).
Proof.
  intros Hw Hr Hlt. unfold dp_to_mp_recv. rewrite Hw, Hr.
  assert (In (nth r idss []) idss) as Hin_ids by (apply nth_In; lia).
  set (ids := nth r idss []) in *.
  rewrite (reshape_rows_concat ws (Py.sumn (map sz ids))); [|lia| |].
  2: now rewrite length_map.
  2: { apply Forall_forall. intros row Hrow. apply in_map_iff in Hrow.
       destruct Hrow as (inputs & <- & Hin).
       now rewrite concat_map_length, row_length. }
  cbn [bind sent_state local_splits local_shapes].
  rewrite (getnat_nth _ _ []) by (rewrite length_map; lia).
  rewrite (getnat_nth _ _ []) by (rewrite length_map; lia).
  change (nth r (map (map sz) idss) []) with (nth r (map (map sz) idss) (map sz [])).
  change (nth r (map (map (fun g => b :: nth g trailing [])) idss) [])
    with (nth r (map (map (fun g => b :: nth g trailing [])) idss)
              (map (fun g => b :: nth g trailing []) [])).
  rewrite !map_nth. fold ids. cbn [bind].
  unfold tf_split_axis1.
  replace (forallb _ _) with true.
  2: { symmetry. apply forallb_forall. intros row Hrow. apply in_map_iff in Hrow.
       destruct Hrow as (inputs & <- & Hin). apply Nat.eqb_eq.
       now rewrite concat_map_length, row_length. }
  cbn [bind]. rewrite length_map.
  replace (map (fun k => map (fun row => nth k (split_at (map sz ids) row) [])
                             (map (fun inputs => concat (map (col inputs) ids)) batch))
               (seq 0 (length ids)))
    with (map (fun g => map (fun inputs => col inputs g) batch) ids).
  2: { rewrite <- (map_nth_seq_f (fun g => map (fun inputs => col inputs g) batch)
                                ids 0%nat).
       apply map_ext_in. intros k Hk. apply in_seq in Hk.
       rewrite map_map. apply map_ext_in. intros inputs Hin.
       rewrite <- (row_length inputs ids Hin Hin_ids).
       rewrite <- (app_nil_r (concat _)), split_at_concat.
       rewrite (nth_indep _ [] (col inputs 0%nat)) by (rewrite length_map; lia).
       symmetry. apply (map_nth (col inputs) ids 0%nat k). }
  rewrite combine_map, mapM_compose.
  apply mapM_map. intros g Hg.
  pose proof (proj1 (Forall_forall _ _) Hids ids Hin_ids) as Hb.
  pose proof (proj1 (Forall_forall _ _) Hb g Hg) as Hg_lt. cbv beta in Hg_lt.
  unfold reshape_batch, mp_input. rewrite Hbatch_len.
  replace (length (concat (map (fun inputs => col inputs g) batch)))
    with (num_elements ((ws * b)%nat :: nth g trailing [])).
  - rewrite Nat.eqb_refl. reflexivity.
  - rewrite concat_map_length, map_map.
    rewrite (map_ext_in _ (fun _ => sz g)).
    + rewrite sumn_const, Hbatch_len. unfold sz.
      change (num_elements ((ws * b)%nat :: nth g trailing []))
        with ((ws * b) * num_elements (nth g trailing []))%nat.
      symmetry. apply Nat.mul_assoc.
    + intros inputs Hin. now destruct (input_facts inputs g Hin Hg_lt) as (_ & ? & _).
Qed.

Lemma inp_dp_to_mp_spec :
  inp_dp_to_mp cluster batch
  = Ok (map (map (mp_input comm b trailing batch)) idss).
Proof.
  unfold inp_dp_to_mp.
  assert (length (combine cluster batch) = ws) as Hcb
    by (rewrite length_combine; lia).
  rewrite (mapM_indexed _
             (fun k => (comm, sent_state (nth k batch []),
                        concat (concat (map (map (col (nth k batch []))) idss))))).
  2: { intros k [w inputs] Hk. apply nth_error_combine_inv in Hk.
       destruct Hk as [Hw Hi]. cbn [fst snd] in Hw, Hi.
       destruct (Hlayers k w Hw) as (_ & _ & Hplan).
       rewrite (nth_error_nth _ _ [] Hi).
       apply dp_to_mp_send_spec; [exact Hplan|]. eapply nth_error_In; eassumption. }
  rewrite Hcb. cbn [bind].
  set (sent := map _ (seq 0 ws)).
  assert (length sent = ws) as Hsent by (unfold sent; now rewrite length_map, length_seq).
  assert (map (fun '(comm', st', buffer) => (comm', buffer, global_splits st')) sent
          = map (fun bl => (comm, concat bl, map (@length Z) bl))
                (map (fun inputs => map (fun ids => concat (map (col inputs) ids)) idss)
                     batch)) as Hsends.
  { unfold sent. rewrite !map_map.
    rewrite <- (map_nth_seq_f
                  (fun inputs =>
                     (comm, concat (map (fun ids => concat (map (col inputs) ids)) idss),
                      map (@length Z)
                          (map (fun ids => concat (map (col inputs) ids)) idss)))
                  batch []).
    rewrite Hbatch_len. apply map_ext_in. intros k Hk. apply in_seq in Hk.
    assert (In (nth k batch []) batch) as Hin by (apply nth_In; lia).
    destruct (sent_blocks _ Hin) as [E1 E2].
    cbn [sent_state global_splits]. now rewrite E1, E2. }
  rewrite Hsends.
  rewrite (mapM_indexed _
             (fun r => map (mp_input comm b trailing batch) (nth r idss []))).
  - rewrite length_combine, Hsent, Hlen, Nat.min_id.
    rewrite <- Hidss_len. now rewrite map_nth_seq_f.
  - intros k [w [[c st] buf]] Hk. apply nth_error_combine_inv in Hk.
    destruct Hk as [Hw Hs]. cbn [fst snd] in Hw, Hs.
    destruct (Hlayers k w Hw) as (Hws' & Hrank & _).
    assert (k < ws)%nat as Hlt by (rewrite <- Hlen; apply nth_error_Some; congruence).
    unfold sent in Hs. rewrite nth_error_map, nth_error_seq in Hs.
    destruct (Nat.ltb_spec k ws); [|lia]. cbn [option_map Nat.add] in Hs.
    injection Hs as <- <- <-.
    rewrite Hrank, hvd_alltoall_splits_spec.
    + cbn [bind]. rewrite map_map.
      rewrite (map_ext_in _ (fun inputs => concat (map (col inputs) (nth k idss [])))).
      * now apply dp_to_mp_recv_spec.
      * intros inputs Hin.
        change (@nil Z) with ((fun ids => concat (map (col inputs) ids)) []).
        apply map_nth.
    + apply Forall_forall. intros bl Hbl. apply in_map_iff in Hbl.
      destruct Hbl as (inputs & <- & _). rewrite length_map. lia.
Qed.

End InputResharder.


(** * The forward pass: lookups and the way back *)

Lemma hstack_pointwise {A B : Type} (f g : A -> list B) (l : list A) :
  hstack (map f l) (map g l) = map (fun x => f x ++ g x) l.
Proof. induction l as [|x l IH]; simpl; [reflexivity|]. now rewrite IH. Qed.

Lemma tf_concat_columns_pointwise {A B E : Type} (f : E -> A -> list B)
  (l : list A) (es : list E) :
  es <> [] ->
  tf_concat_columns (map (fun e => map (f e) l) es)
  = Ok (map (fun x => concat (map (fun e => f e x) es)) l).
Proof.
  destruct es as [|e es]; [congruence|]. intros _. cbn [map tf_concat_columns].
  replace (forallb _ _) with true.
  - f_equal.
    assert (forall h : A -> list B,
               fold_left hstack (map (fun e => map (f e) l) es) (map h l)
               = map (fun x => h x ++ concat (map (fun e => f e x) es)) l) as G.
    { induction es as [|e' es IH]; intros h; cbn [map fold_left concat].
      - apply map_ext. intros x. now rewrite app_nil_r.
      - rewrite hstack_pointwise, IH. apply map_ext. intros x.
        now rewrite <- app_assoc. }
    apply G.
  - symmetry. apply forallb_forall. intros a Ha. apply in_map_iff in Ha.
    destruct Ha as (e' & <- & _). unfold shape0. rewrite !length_map.
    apply Nat.eqb_refl.
Qed.

Lemma flatten_lookup_length {A B : Type} (f : A -> list B) (c : nat) (rows : list A) :
  (forall x, length (f x) = c) ->
  length (flatten (map f rows)) = (length rows * c)%nat.
Proof.
  intros H. unfold flatten. rewrite concat_map_length, map_map.
  rewrite (map_ext _ (fun _ => c)) by exact H. apply sumn_const.
Qed.

Lemma reverse_ids_bound (idss : list (list nat)) :
  Forall (fun i => (i < length (concat idss))%nat) (reverse_ids idss).
Proof.
  unfold reverse_ids. apply Forall_forall. intros i Hi.
  apply in_map_iff in Hi. destruct Hi as ([g i'] & <- & Hin).
  eapply Permutation_in in Hin; [|apply sorted_perm].
  apply in_combine_r in Hin. apply in_seq in Hin. cbn [snd]. lia.
Qed.

Lemma mapM_getnat {A : Type} (l : list A) (d : A) (ids : list nat) :
  Forall (fun i => (i < length l)%nat) ids ->
  mapM (Py.getnat l) ids = Ok (map (fun i => nth i l d) ids).
Proof.
  intros H. apply mapM_map. intros i Hi. apply getnat_nth.
  rewrite Forall_forall in H. now apply H.
Qed.

Lemma flatten_map_cast {A B : Type} (cast : A -> B) (rows : list (list A)) :
  map cast (flatten rows) = flatten (map (map cast) rows).
Proof. unfold flatten. apply concat_map. Qed.

Section OutputResharder.
Context {V : Type}.
Variable lookup : list (list V) -> list Z -> list V.
Variable cast : V -> V.
Variables (ws b : nat) (dtypes : list DType) (trailing : list (list nat)).
Variable batch : list (list Tensor).
Variable cluster : list (@Worker V).
Variable idss : list (list nat).
Variable served : list (list (list (list V) * nat)).
Hypothesis Hws : (1 <= ws)%nat.
Hypothesis Hb : (1 <= b)%nat.
Hypothesis Hlen : length cluster = ws.
Hypothesis Hbatch_len : length batch = ws.
Hypothesis Hidss_len : length idss = ws.
Hypothesis Hbatch : Forall (dp_inputs b dtypes trailing) batch.
Hypothesis Hids : Forall (Forall (fun g => (g < length trailing)%nat)) idss.
Hypothesis Hne : Forall (fun ids => ids <> []) idss.
Hypothesis Hserved : map (map snd) served = idss.
Hypothesis Htables :
  Forall (Forall (fun e : list (list V) * nat =>
                    exists rws, (1 <= rws)%nat /\ has_shape rws (shape1 (fst e)) (fst e)))
         served.
Hypothesis Hlookup : column_wise lookup.
Hypothesis Hlayers :
  forall r w,
    nth_error cluster r = Some w ->
    world_size (layer w) = ws /\ rank (layer w) = r
    /\ dp_input (layer w) = true
    /\ input_ids_list (plan (layer w)) = idss
    /\ Forall2 (fun m e => Py.getitem (weights w) m = Ok (fst e))
               (local_input_table_map (plan (layer w))) (nth r served [])
    /\ widths_list_flat (plan (layer w))
       = Some (map (fun e => Z.of_nat (shape1 (fst e))) (concat served))
    /\ rev_global_input_ids (plan (layer w)) = Some (reverse_ids idss).

Let comm : DType := comm_dtype (nth 0 batch []).
Let out (inputs : list Tensor) (e : list (list V) * nat) : list (list V) :=
  output_of lookup cast b trailing inputs (fst e) (snd e).
Let row (sv : list (list (list V) * nat)) (inputs : list Tensor) : list V :=
  concat (map (fun e => flatten (out inputs e)) sv).

Lemma served_length : length served = ws.
Proof. rewrite <- Hidss_len, <- Hserved. now rewrite length_map. Qed.

Lemma served_nth (r : nat) : map snd (nth r served []) = nth r idss [].
Proof.
  rewrite <- Hserved. symmetry.
  change (@nil nat) with (map (@snd (list (list V)) nat) []). apply map_nth.
Qed.

Lemma served_facts (r : nat) (e : list (list V) * nat) :
  (r < ws)%nat -> In e (nth r served []) ->
  (snd e < length trailing)%nat
  /\ forall indices, length (lookup (fst e) indices) = shape1 (fst e).
Proof.
  intros Hr He. split.
  - assert (In (nth r idss []) idss) as Hin by (apply nth_In; lia).
    pose proof (proj1 (Forall_forall _ _) Hids _ Hin) as H.
    rewrite <- served_nth in H. rewrite Forall_forall in H. apply H.
    now apply in_map.
  - intros indices.
    assert (In (nth r served []) served) as Hin
      by (apply nth_In; rewrite served_length; lia).
    pose proof (proj1 (Forall_forall _ _) Htables _ Hin) as H.
    destruct (proj1 (Forall_forall _ _) H e He) as (rws & Hrws & Hshape).
    now destruct (Hlookup rws _ (fst e) indices Hrws Hshape).
Qed.

Lemma samples_mp_input (g : nat) :
  (g < length trailing)%nat ->
  samples (mp_input comm b trailing batch g)
  = Ok (concat (map (fun inputs => samples_of b trailing inputs g) batch)).
Proof.
  intros Hg. unfold samples, mp_input. cbn [shape data]. f_equal.
  rewrite <- (length_map (fun inputs => data (nth g inputs no_tensor)) batch).
  rewrite rows_of_blocks.
  - now rewrite map_map.
  - apply Forall_forall. intros block Hblock. apply in_map_iff in Hblock.
    destruct Hblock as (inputs & <- & Hin).
    pose proof (proj1 (Forall_forall _ _) Hbatch inputs Hin) as Hd.
    now destruct (dp_inputs_facts b dtypes trailing inputs g Hd Hg) as (_ & ? & _).
Qed.

Lemma lookups_loop (tables : list (list (list V))) (lm : list Z)
  (sv : list (list (list V) * nat)) :
  Forall2 (fun m e => Py.getitem tables m = Ok (fst e)) lm sv ->
  Forall (fun e => (snd e < length trailing)%nat) sv ->
  mapM (fun '(m, inp) =>
          table <- Py.getitem tables m ;;
          embedding_call lookup table inp)
       (combine lm (map (mp_input comm b trailing batch) (map snd sv)))
  = Ok (map (fun e =>
               concat (map (fun inputs =>
                              map (lookup (fst e))
                                  (samples_of b trailing inputs (snd e)))
                           batch))
            sv).
Proof.
  induction 1 as [|m e lm sv Hm _ IH]; intros Hsv; [reflexivity|].
  cbn [map combine mapM]. rewrite Hm. cbn [bind].
  unfold embedding_call at 1.
  rewrite samples_mp_input by (now apply Forall_inv in Hsv). cbn [bind].
  rewrite IH by (now apply Forall_inv_tail in Hsv). cbn [bind].
  now rewrite concat_map, map_map.
Qed.

Lemma out_shape (r : nat) (e : list (list V) * nat) (inputs : list Tensor) :
  (r < ws)%nat -> In e (nth r served []) ->
  has_shape b (shape1 (fst e)) (out inputs e).
Proof.
  intros Hr He. destruct (served_facts r e Hr He) as [_ Hw].
  unfold out, output_of, samples_of. split.
  - now rewrite length_map, rows_of_length.
  - apply Forall_forall. intros x Hx. apply in_map_iff in Hx.
    destruct Hx as (indices & <- & _). now rewrite length_map.
Qed.

Lemma row_length_of (r : nat) (inputs : list Tensor) :
  (r < ws)%nat ->
  length (row (nth r served []) inputs)
  = Py.sumn (map (fun e => (b * shape1 (fst e))%nat) (nth r served [])).
Proof.
  intros Hr. unfold row. rewrite concat_map_length, map_map. f_equal.
  apply map_ext_in. intros e He. unfold flatten.
  now apply length_concat_shape, (out_shape r).
Qed.

Lemma served_nonempty (r : nat) : (r < ws)%nat -> nth r served [] <> [].
Proof.
  intros Hr E.
  assert (In (nth r idss []) idss) as Hin by (apply nth_In; lia).
  pose proof (proj1 (Forall_forall _ _) Hne _ Hin) as H. cbv beta in H.
  rewrite <- served_nth, E in H. now apply H.
Qed.

Lemma row_cast (sv : list (list (list V) * nat)) (inputs : list Tensor) :
  map cast
      (concat (map (fun e => flatten (map (lookup (fst e))
                                          (samples_of b trailing inputs (snd e))))
                   sv))
  = row sv inputs.
Proof.
  unfold row, out, output_of. rewrite concat_map, map_map. f_equal.
  apply map_ext. intros e. now rewrite flatten_map_cast, map_map.
Qed.

Lemma mp_to_dp_send_spec (r : nat) (w : @Worker V) :
  nth_error cluster r = Some w ->
  mp_to_dp_send lookup cast w (map (mp_input comm b trailing batch) (nth r idss []))
  = Ok (concat (map (row (nth r served [])) batch)).
Proof.
  intros Hw.
  assert (r < ws)%nat as Hr by (rewrite <- Hlen; apply nth_error_Some; congruence).
  destruct (Hlayers r w Hw) as (Hsize & _ & _ & _ & Hmap & _).
  unfold mp_to_dp_send, local_lookups. rewrite <- served_nth.
  rewrite lookups_loop; [|exact Hmap|].
  2: { apply Forall_forall. intros e He. now destruct (served_facts r e Hr He). }
  cbn [bind]. rewrite mapM_compose, Hsize.
  rewrite (mapM_map _
             (fun e => map (fun inputs =>
                              flatten (map (lookup (fst e))
                                           (samples_of b trailing inputs (snd e))))
                           batch)).
  - cbn [bind].
    rewrite (tf_concat_columns_pointwise
               (fun e inputs => flatten (map (lookup (fst e))
                                             (samples_of b trailing inputs (snd e)))))
      by (now apply served_nonempty).
    cbn [bind]. f_equal. unfold flatten at 1. rewrite concat_map, map_map.
    f_equal. apply map_ext. intros inputs. apply row_cast.
  - intros e He. destruct (served_facts r e Hr He) as [_ Hwd].
    unfold flatten at 1. rewrite concat_concat, map_map.
    apply (reshape_rows_concat ws (b * shape1 (fst e))); [lia| |].
    + now rewrite length_map.
    + apply Forall_forall. intros x Hx. apply in_map_iff in Hx.
      destruct Hx as (inputs & <- & _).
      rewrite (flatten_lookup_length _ (shape1 (fst e))) by exact Hwd.
      unfold samples_of. now rewrite rows_of_length.
Qed.

Lemma hvd_alltoall_rows (me : nat) :
  (me < ws)%nat ->
  hvd_alltoall (map (fun sv => concat (map (row sv) batch)) served) me
  = Ok (concat (map (fun sv => row sv (nth me batch [])) served)).
Proof.
  intros Hme. unfold hvd_alltoall. rewrite length_map, served_length.
  rewrite mapM_compose.
  rewrite (mapM_map _ (fun sv => row sv (nth me batch []))); [reflexivity|].
  intros sv Hsv. apply In_nth with (d := []) in Hsv.
  destruct Hsv as (r & Hr & <-). rewrite served_length in Hr.
  rewrite (reshape_rows_concat ws
             (Py.sumn (map (fun e => (b * shape1 (fst e))%nat) (nth r served []))));
    [|lia| |].
  - cbn [bind]. rewrite (getnat_nth _ _ (row (nth r served []) []))
      by (rewrite length_map; lia).
    f_equal. apply (map_nth (row (nth r served []))).
  - now rewrite length_map.
  - apply Forall_forall. intros x Hx. apply in_map_iff in Hx.
    destruct Hx as (inputs & <- & _). now apply row_length_of.
Qed.

Lemma flat_served_facts (e : list (list V) * nat) (inputs : list Tensor) :
  In e (concat served) -> has_shape b (shape1 (fst e)) (out inputs e).
Proof.
  intros He. apply in_concat in He. destruct He as (sv & Hsv & He).
  apply In_nth with (d := []) in Hsv. destruct Hsv as (r & Hr & <-).
  rewrite served_length in Hr. now apply (out_shape r).
Qed.

Lemma flat_served_length : length (concat served) = length (concat idss).
Proof. rewrite <- Hserved, <- concat_map. now rewrite length_map. Qed.

Lemma mp_to_dp_recv_spec (me : nat) (w : @Worker V) :
  nth_error cluster me = Some w ->
  mp_to_dp_recv w (map (mp_input comm b trailing batch) (nth me idss []))
    (concat (map (fun sv => row sv (nth me batch [])) served))
  = Ok (map (fun i => nth i (map (out (nth me batch [])) (concat served)) [])
            (reverse_ids idss)).
Proof.
  intros Hw.
  assert (me < ws)%nat as Hme by (rewrite <- Hlen; apply nth_error_Some; congruence).
  destruct (Hlayers me w Hw) as (Hsize & _ & _ & _ & _ & Hwidths & Hrev).
  unfold mp_to_dp_recv.
  assert (In (nth me idss []) idss) as Hin by (apply nth_In; lia).
  pose proof (proj1 (Forall_forall _ _) Hne _ Hin) as Hids_ne. cbv beta in Hids_ne.
  destruct (nth me idss []) as [|g0 rest]; [congruence|]. clear Hin Hids_ne.
  cbn [map Py.getnat nth_error bind mp_input shape].
  rewrite Hsize, Hbatch_len, Hwidths, Hrev. cbn [attr bind].
  replace (ws * b / ws)%nat with b by (rewrite Nat.mul_comm, Nat.div_mul; lia).
  set (X := nth me batch []).
  replace (existsb _ _) with false.
  2: { symmetry. apply not_true_is_false. intros E. apply existsb_exists in E.
       destruct E as (x & Hx & Hneg). rewrite map_map in Hx.
       apply in_map_iff in Hx. destruct Hx as (e & <- & _).
       apply Z.ltb_lt in Hneg. lia. }
  replace (map Z.to_nat _)
    with (map (@length V) (map (fun e => flatten (out X e)) (concat served))).
  2: { rewrite !map_map. apply map_ext_in. intros e He.
       rewrite <- Nat2Z.inj_mul, Nat2Z.id. unfold flatten.
       now apply length_concat_shape, flat_served_facts. }
  replace (concat (map (fun sv => row sv X) served))
    with (concat (map (fun e => flatten (out X e)) (concat served))).
  2: { rewrite concat_map, concat_concat, map_map. reflexivity. }
  unfold tf_split. rewrite <- concat_map_length, Nat.eqb_refl. cbn [bind].
  rewrite <- (app_nil_r (concat (map _ (concat served)))), split_at_concat.
  rewrite mapM_compose, (mapM_map _ (out X)).
  - cbn [bind]. apply mapM_getnat.
    eapply Forall_impl; [|apply reverse_ids_bound]. cbv beta. intros i Hi.
    now rewrite length_map, flat_served_length.
  - intros e He. destruct (flat_served_facts e X He) as [Hrows Hcols].
    now apply (reshape_rows_concat b (shape1 (fst e))).
Qed.

Lemma call_base_spec (me : nat) :
  (me < ws)%nat ->
  call_base lookup cast cluster batch me
  = Ok (map (fun i => nth i (map (out (nth me batch [])) (concat served)) [])
            (reverse_ids idss)).
Proof.
  intros Hme. unfold call_base.
  destruct (nth_error cluster me) as [self|] eqn:Hself;
    [|apply nth_error_None in Hself; lia].
  unfold Py.getnat at 1. rewrite Hself. cbn [bind].
  destruct (Hlayers me self Hself) as (_ & Hrank & Hdp & _).
  rewrite Hdp.
  rewrite (inp_dp_to_mp_spec ws b idss dtypes trailing cluster batch);
    try assumption.
  2: { intros r w Hw. destruct (Hlayers r w Hw) as (? & ? & _ & ? & _). auto. }
  cbn [bind]. fold comm.
  rewrite (mapM_indexed _ (fun r => concat (map (row (nth r served [])) batch))).
  - rewrite length_combine, length_map, Hlen, Hidss_len, Nat.min_id.
    rewrite <- served_length at 1.
    rewrite (map_nth_seq_f (fun sv => concat (map (row sv) batch)) served []).
    cbn [bind].
    rewrite Hrank, hvd_alltoall_rows by exact Hme. cbn [bind].
    rewrite (getnat_nth _ _ []) by (rewrite length_map; lia). cbn [bind].
    change (@nil Tensor) with (map (mp_input comm b trailing batch) []).
    rewrite map_nth. now apply mp_to_dp_recv_spec.
  - intros r [w inputs] Hr. apply nth_error_combine_inv in Hr.
    destruct Hr as [Hw Hi]. cbn [fst snd] in Hw, Hi.
    rewrite nth_error_map in Hi.
    destruct (nth_error idss r) as [ids|] eqn:Eids; [|discriminate].
    injection Hi as <-. rewrite <- (nth_error_nth _ _ [] Eids).
    now apply mp_to_dp_send_spec.
Qed.

End OutputResharder.


(** * The forward pass: back to the order of the inputs *)

Lemma insert_by_position (x : nat * nat) (l : list (nat * nat)) :
  Forall (fun y => (snd x < snd y)%nat) l ->
  Py.insert Py.natpair_leb x l
  = Py.insert (fun p q : nat * nat => (fst p <=? fst q)%nat) x l.
Proof.
  induction 1 as [|y l Hy _ IH]; [reflexivity|].
  cbn [Py.insert]. rewrite IH.
  replace (Py.natpair_leb x y) with (fst x <=? fst y)%nat; [reflexivity|].
  unfold Py.natpair_leb.
  destruct (Nat.ltb_spec (fst x) (fst y)).
  - apply Nat.leb_le. lia.
  - destruct (Nat.ltb_spec (fst y) (fst x)).
    + apply Nat.leb_gt. lia.
    + transitivity true; [apply Nat.leb_le|symmetry; apply Nat.leb_le]; lia.
Qed.

Lemma sorted_by_position (ids : list nat) :
  forall a,
    Py.sorted Py.natpair_leb (combine ids (seq a (length ids)))
    = Py.sorted (fun p q : nat * nat => (fst p <=? fst q)%nat)
                (combine ids (seq a (length ids))).
Proof.
  induction ids as [|g ids IH]; intros a; [reflexivity|].
  cbn [length seq combine Py.sorted fold_right].
  change (fold_right (Py.insert Py.natpair_leb) [] (combine ids (seq (S a) (length ids))))
    with (Py.sorted Py.natpair_leb (combine ids (seq (S a) (length ids)))).
  rewrite IH. apply insert_by_position.
  apply Forall_forall. intros [g' i] Hy.
  eapply Permutation_in in Hy; [|apply sorted_perm].
  apply in_combine_r in Hy. apply in_seq in Hy. cbn [snd]. lia.
Qed.

Lemma insert_payload {A B : Type} (f : A -> B) (x : nat * A) (l : list (nat * A)) :
  Py.insert (fun p q : nat * B => (fst p <=? fst q)%nat) (fst x, f (snd x))
            (map (fun p => (fst p, f (snd p))) l)
  = map (fun p => (fst p, f (snd p)))
        (Py.insert (fun p q : nat * A => (fst p <=? fst q)%nat) x l).
Proof.
  induction l as [|y l IH]; [reflexivity|].
  cbn [map Py.insert fst]. destruct (fst x <=? fst y)%nat; [reflexivity|].
  cbn [map]. now rewrite IH.
Qed.

Lemma sorted_payload {A B : Type} (f : A -> B) (l : list (nat * A)) :
  Py.sorted (fun p q : nat * B => (fst p <=? fst q)%nat)
            (map (fun p => (fst p, f (snd p))) l)
  = map (fun p => (fst p, f (snd p)))
        (Py.sorted (fun p q : nat * A => (fst p <=? fst q)%nat) l).
Proof.
  induction l as [|x l IH]; [reflexivity|].
  cbn [map Py.sorted fold_right].
  change (fold_right (Py.insert (fun p q : nat * B => (fst p <=? fst q)%nat)) []
                     (map (fun p => (fst p, f (snd p))) l))
    with (Py.sorted (fun p q : nat * B => (fst p <=? fst q)%nat)
                    (map (fun p => (fst p, f (snd p))) l)).
  rewrite IH. apply insert_payload.
Qed.

Lemma combine_payload {B C : Type} (f : B -> C) (ids : list nat) (l : list B) :
  combine ids (map f l) = map (fun p => (fst p, f (snd p))) (combine ids l).
Proof.
  revert l. induction ids as [|g ids IH]; intros [|x l]; try reflexivity.
  cbn [map combine fst snd]. now rewrite IH.
Qed.

Lemma filter_map_key {B C : Type} (f : B -> nat) (o : B -> C) (g : nat) (l : list B) :
  filter (fun p : nat * C => (fst p =? g)%nat) (map (fun e => (f e, o e)) l)
  = map (fun e => (f e, o e)) (filter (fun e => (f e =? g)%nat) l).
Proof.
  induction l as [|x l IH]; [reflexivity|].
  cbn [map filter fst]. destruct (f x =? g)%nat; cbn [map]; now rewrite IH.
Qed.

(** Reading the worker-ordered results through [rev_global_input_ids]
    sorts them by the id of their input, keeping the worker order among
    the results of one input. *)
Lemma reorder_spec {A : Type} (n : nat) (ids : list nat) (res : list A) (d : A) :
  length ids = length res ->
  Forall (fun g => (g < n)%nat) ids ->
  map (fun i => nth i res d)
      (map snd (Py.sorted Py.natpair_leb (combine ids (seq 0 (length ids)))))
  = flat_map (fun g => map snd (filter (fun p : nat * A => (fst p =? g)%nat)
                                       (combine ids res)))
             (seq 0 n).
Proof.
  intros Hlen Hids. rewrite sorted_by_position, map_map.
  transitivity
    (map snd (map (fun p : nat * nat => (fst p, nth (snd p) res d))
                  (Py.sorted (fun p q : nat * nat => (fst p <=? fst q)%nat)
                             (combine ids (seq 0 (length ids)))))).
  { now rewrite map_map. }
  pose proof (sorted_payload (fun i => nth i res d)
                (combine ids (seq 0 (length ids)))) as E.
  cbv beta in E. rewrite <- E. clear E.
  pose proof (combine_payload (fun i => nth i res d) ids (seq 0 (length ids))) as E.
  cbv beta in E. rewrite <- E. clear E.
  rewrite Hlen, map_nth_seq.
  rewrite (sorted_by_key n).
  - rewrite flat_map_concat_map, concat_map, map_map.
    now rewrite <- flat_map_concat_map.
  - apply Forall_forall. intros [g x] Hp. apply in_combine_l in Hp.
    rewrite Forall_forall in Hids. now apply Hids.
Qed.

(** ** The inputs of a table *)

Lemma inputs_of_filter_from (g t : nat) (l : list Z) :
  forall a,
    filter (fun g' => (g' =? g)%nat)
           (map fst (filter (fun e : nat * Z => Z.of_nat t =? snd e)
                            (combine (seq a (length l)) l)))
    = if (a <=? g)%nat && (g <? a + length l)%nat
         && (Z.of_nat t =? nth (g - a) l 0)
      then [g] else [].
Proof.
  induction l as [|x l IH]; intros a.
  - cbn [length seq combine filter map].
    destruct (Nat.leb_spec a g); [|reflexivity].
    replace (g <? a + 0)%nat with false; [reflexivity|].
    symmetry. apply Nat.ltb_ge. lia.
  - cbn [length seq combine filter snd].
    assert (filter (fun g' => (g' =? g)%nat)
                   (map fst (filter (fun e : nat * Z => Z.of_nat t =? snd e)
                                    (combine (seq (S a) (length l)) l)))
            = if (S a <=? g)%nat && (g <? S a + length l)%nat
                 && (Z.of_nat t =? nth (g - S a) l 0)
              then [g] else []) as IH' by apply IH.
    destruct (Nat.eq_dec a g) as [->|Hne].
    + replace (g - g)%nat with 0%nat by lia. cbn [nth].
      replace (g <=? g)%nat with true by (symmetry; apply Nat.leb_le; lia).
      replace (g <? g + S (length l))%nat with true
        by (symmetry; apply Nat.ltb_lt; lia).
      replace (S g <=? g)%nat with false in IH'
        by (symmetry; apply Nat.leb_gt; lia).
      cbn [andb] in IH' |- *.
      destruct (Z.of_nat t =? x); cbn [map filter fst].
      * rewrite Nat.eqb_refl, IH'. reflexivity.
      * exact IH'.
    + assert (filter (fun g' => (g' =? g)%nat)
                     (map fst (if Z.of_nat t =? x
                               then (a, x) :: filter (fun e : nat * Z => Z.of_nat t =? snd e)
                                                     (combine (seq (S a) (length l)) l)
                               else filter (fun e : nat * Z => Z.of_nat t =? snd e)
                                           (combine (seq (S a) (length l)) l)))
              = filter (fun g' => (g' =? g)%nat)
                       (map fst (filter (fun e : nat * Z => Z.of_nat t =? snd e)
                                        (combine (seq (S a) (length l)) l)))) as E.
      { destruct (Z.of_nat t =? x); [|reflexivity].
        cbn [map filter fst]. destruct (Nat.eqb_spec a g); [congruence|reflexivity]. }
      rewrite E, IH'. clear E IH'.
      destruct (Nat.leb_spec (S a) g) as [Hle|Hgt].
      * replace (a <=? g)%nat with true by (symmetry; apply Nat.leb_le; lia).
        replace (g <? a + S (length l))%nat with (g <? S a + length l)%nat
          by (f_equal; lia).
        replace (g - a)%nat with (S (g - S a)) by lia. reflexivity.
      * replace (a <=? g)%nat with false by (symmetry; apply Nat.leb_gt; lia).
        reflexivity.
Qed.

Lemma inputs_of_filter (m : list Z) (g t : nat) :
  (g < length m)%nat -> 0 <= nth g m 0 ->
  filter (fun g' => (g' =? g)%nat) (inputs_of m t)
  = if (t =? table_of m g)%nat then [g] else [].
Proof.
  intros Hg Hpos. unfold inputs_of, Py.enumerate.
  rewrite inputs_of_filter_from. rewrite Nat.sub_0_r. cbn [Nat.leb Nat.add andb].
  replace (g <? length m)%nat with true by (symmetry; apply Nat.ltb_lt; lia).
  cbn [andb]. unfold table_of.
  destruct (Z.eqb_spec (Z.of_nat t) (nth g m 0)) as [E|E];
    destruct (Nat.eqb_spec t (Z.to_nat (nth g m 0))) as [E'|E'];
    try reflexivity; exfalso; lia.
Qed.

Lemma inputs_of_bound (m : list Z) (t g : nat) :
  In g (inputs_of m t) -> (g < length m)%nat /\ nth g m 0 = Z.of_nat t.
Proof.
  unfold inputs_of. intros H. apply in_map_iff in H.
  destruct H as ([g' x] & <- & H). apply filter_In in H. destruct H as [H Ht].
  cbn [fst snd] in *. apply Z.eqb_eq in Ht.
  apply In_nth_error in H. destruct H as [k Hk].
  apply nth_error_enumerate_inv in Hk. destruct Hk as [E Hk]. cbn [snd] in Hk.
  injection E as ->. split.
  - apply nth_error_Some. congruence.
  - rewrite (nth_error_nth _ _ 0 Hk). lia.
Qed.

(** ** What the workers serve *)

Section Served.
Context {V : Type}.
Variable W : list (list (list V)).
Variable tids : list (list nat).
Variable m : list Z.

Lemma served_ids (l : list nat) :
  forall pre,
    map snd (concat (with_occurrence (served_by W tids m) pre l))
    = flat_map (inputs_of m) l.
Proof.
  induction l as [|t l IH]; intros pre; [reflexivity|].
  cbn [with_occurrence concat flat_map]. rewrite map_app, IH. f_equal.
  unfold served_by. rewrite map_map. cbn [snd]. apply map_id.
Qed.

Lemma served_ids_per_worker (ts : list (list nat)) :
  forall pre,
    map (map snd) (map (@concat _) (per_worker (served_by W tids m) pre ts))
    = map (flat_map (inputs_of m)) ts.
Proof.
  induction ts as [|l ts IH]; intros pre; [reflexivity|].
  cbn [per_worker map]. now rewrite served_ids, IH.
Qed.

Lemma filter_served (g : nat) (l : list nat) :
  (g < length m)%nat -> 0 <= nth g m 0 ->
  forall pre,
    filter (fun e : list (list V) * nat => (snd e =? g)%nat)
           (concat (with_occurrence (served_by W tids m) pre l))
    = map (fun j => (weight_slice W tids (table_of m g) j, g))
          (seq (Py.count pre (table_of m g)) (Py.count l (table_of m g))).
Proof.
  intros Hg Hpos. induction l as [|t l IH]; intros pre; [reflexivity|].
  cbn [with_occurrence concat]. rewrite filter_app, IH, count_snoc, count_cons.
  assert (filter (fun e : list (list V) * nat => (snd e =? g)%nat)
                 (served_by W tids m t (Py.count pre t))
          = if (t =? table_of m g)%nat
            then [(weight_slice W tids t (Py.count pre t), g)] else []) as E.
  { unfold served_by.
    transitivity (map (fun g' => (weight_slice W tids t (Py.count pre t), g'))
                      (filter (fun g' => (g' =? g)%nat) (inputs_of m t))).
    - generalize (inputs_of m t) as l0. intros l0.
      induction l0 as [|g' l0 IH0]; [reflexivity|].
      cbn [map filter snd]. destruct (g' =? g)%nat; cbn [map]; now rewrite IH0.
    - rewrite (inputs_of_filter m g t Hg Hpos).
      destruct (t =? table_of m g)%nat; reflexivity. }
  rewrite E. clear E.
  rewrite (Nat.eqb_sym (table_of m g) t).
  destruct (Nat.eqb_spec t (table_of m g)) as [->|Hne].
  - cbn [app]. rewrite Nat.add_1_r. reflexivity.
  - cbn [app]. now rewrite Nat.add_0_r.
Qed.

End Served.

(** ** Column slices of the outputs *)

Lemma slice_map {A B : Type} (f : A -> B) (l : list A) (s e : nat) :
  Py.slice (map f l) s e = map f (Py.slice l s e).
Proof. unfold Py.slice. now rewrite skipn_map, firstn_map. Qed.

Section ColumnSlices.
Context {V : Type}.
Variable lookup : list (list V) -> list Z -> list V.
Variable cast : V -> V.
Variables (b : nat) (trailing : list (list nat)) (inputs : list Tensor).
Hypothesis Hlookup : column_wise lookup.

Lemma output_of_columns (table : list (list V)) (g rws c s e : nat) :
  (1 <= rws)%nat -> has_shape rws c table -> (s <= e)%nat -> (e <= c)%nat ->
  output_of lookup cast b trailing inputs (columns s e table) g
  = columns s e (output_of lookup cast b trailing inputs table g).
Proof.
  intros Hr Hshape Hse Hec. unfold output_of, columns at 2. rewrite map_map.
  apply map_ext. intros indices.
  destruct (Hlookup rws c table indices Hr Hshape) as [_ Hc].
  rewrite (Hc s e Hse Hec). symmetry. apply slice_map.
Qed.

Lemma output_of_shape (table : list (list V)) (g rws c : nat) :
  (1 <= rws)%nat -> has_shape rws c table ->
  has_shape b c (output_of lookup cast b trailing inputs table g).
Proof.
  intros Hr Hshape. unfold output_of, samples_of. split.
  - now rewrite length_map, rows_of_length.
  - apply Forall_forall. intros x Hx. apply in_map_iff in Hx.
    destruct Hx as (indices & <- & _). rewrite length_map.
    now destruct (Hlookup rws c table indices Hr Hshape).
Qed.

Lemma sliced_outputs (W : list (list (list V))) (tids : list (list nat))
  (t g rws : nat) :
  (1 <= rws)%nat -> has_shape rws (shape1 (nth t W [])) (nth t W []) ->
  (1 <= Py.count (concat tids) t)%nat ->
  tf_concat_columns
    (map (fun j => output_of lookup cast b trailing inputs (weight_slice W tids t j) g)
         (seq 0 (Py.count (concat tids) t)))
  = Ok (output_of lookup cast b trailing inputs (nth t W []) g)
  /\ (Py.count (concat tids) t = 1%nat ->
      map (fun j => output_of lookup cast b trailing inputs (weight_slice W tids t j) g)
          (seq 0 (Py.count (concat tids) t))
      = [output_of lookup cast b trailing inputs (nth t W []) g]).
Proof.
  intros Hr Hshape Hk.
  set (k := Py.count (concat tids) t) in *.
  set (od := shape1 (nth t W [])) in *.
  pose proof (output_of_shape (nth t W []) g rws od Hr Hshape) as Hout.
  assert (map (fun j => output_of lookup cast b trailing inputs
                                  (weight_slice W tids t j) g) (seq 0 k)
          = map (fun j => columns (slice_start od k j) (slice_start od k (j + 1))
                                  (output_of lookup cast b trailing inputs
                                             (nth t W []) g))
                (seq 0 k)) as E.
  { apply map_ext_in. intros j Hj. apply in_seq in Hj.
    unfold weight_slice. fold k. fold od.
    apply (output_of_columns _ g rws od); try assumption.
    - apply slice_start_mono.
    - apply slice_start_le; lia. }
  rewrite E. split.
  - now apply (concat_slices b).
  - intros E1. rewrite E1. cbn [seq map Nat.add].
    rewrite slice_start_0, (slice_start_end od 1) by lia.
    now rewrite (columns_all b).
Qed.

End ColumnSlices.

Section ConcatRanges.
Context {V : Type}.
Variable sliced : list (list Config).
Variable parts : nat -> list (list (list V)).
Variable whole : nat -> list (list V).

Lemma concat_ranges_loop (l : list Z) :
  forall a ranges done,
    out_ranges sliced (combine (seq a (length l)) l) = Ok ranges ->
    length done = a ->
    (forall i sl, (i < length l)%nat ->
                  Py.getitem sliced (nth i l 0) = Ok sl ->
                  length (parts (a + i)) = length sl
                  /\ tf_concat_columns (parts (a + i)) = Ok (whole (a + i))
                  /\ (length sl <= 1 -> parts (a + i) = [whole (a + i)])%nat) ->
    foldM (fun outs '(start, stop) =>
             whole <- tf_concat_columns (Py.slice outs start stop) ;;
             Ok (firstn start outs ++ [whole] ++ skipn stop outs))
          ranges (done ++ flat_map parts (seq a (length l)))
    = Ok (done ++ map whole (seq a (length l))).
Proof.
  induction l as [|x l IH]; intros a ranges done Hr Hdone Hparts.
  - cbn in Hr. injection Hr as <-. reflexivity.
  - cbn [length seq combine out_ranges] in Hr.
    destruct (Py.getitem sliced x) as [sl| |] eqn:Hsl; try discriminate.
    cbn [bind] in Hr.
    destruct (out_ranges sliced (combine (seq (S a) (length l)) l))
      as [ranges'| |] eqn:Hrest; try discriminate.
    cbn [bind] in Hr. injection Hr as <-.
    destruct (Hparts 0%nat sl ltac:(cbn [length]; lia) Hsl) as (Hlen & Hcat & Hone).
    rewrite Nat.add_0_r in Hlen, Hcat, Hone.
    assert (forall i sl', (i < length l)%nat ->
                          Py.getitem sliced (nth i l 0) = Ok sl' ->
                          length (parts (S a + i)) = length sl'
                          /\ tf_concat_columns (parts (S a + i)) = Ok (whole (S a + i))
                          /\ (length sl' <= 1 ->
                              parts (S a + i) = [whole (S a + i)])%nat) as Hparts'.
    { intros i sl' Hi Hsl'.
      replace (S a + i)%nat with (a + S i)%nat by lia.
      apply Hparts; [cbn [length]; lia|exact Hsl']. }
    specialize (IH (S a) ranges' (done ++ [whole a]) Hrest
                   ltac:(rewrite length_app; cbn [length]; lia) Hparts').
    cbn [length seq flat_map map].
    replace (done ++ whole a :: map whole (seq (S a) (length l)))
      with ((done ++ [whole a]) ++ map whole (seq (S a) (length l)))
      by (now rewrite <- app_assoc).
    set (rest := flat_map parts (seq (S a) (length l))) in *.
    destruct (Nat.ltb_spec 1 (length sl)) as [Hbig|Hsmall].
    + cbn [foldM].
      assert (skipn a (done ++ parts a ++ rest) = parts a ++ rest) as Eskip.
      { rewrite skipn_app, skipn_all2 by lia.
        replace (a - length done)%nat with 0%nat by lia. reflexivity. }
      assert (Py.slice (done ++ parts a ++ rest) a (a + length sl) = parts a)
        as Eslice.
      { unfold Py.slice. rewrite Eskip.
        replace (a + length sl - a)%nat with (length (parts a)) by lia.
        rewrite firstn_app, firstn_all, Nat.sub_diag, firstn_O. apply app_nil_r. }
      rewrite Eslice, Hcat. cbn [bind].
      replace (firstn a (done ++ parts a ++ rest)) with done.
      2: { rewrite firstn_app, firstn_all2 by lia.
           replace (a - length done)%nat with 0%nat by lia.
           rewrite firstn_O. now rewrite app_nil_r. }
      replace (skipn (a + length sl) (done ++ parts a ++ rest)) with rest.
      2: { rewrite <- Hlen, <- Hdone, <- length_app, app_assoc.
           rewrite skipn_app, skipn_all, Nat.sub_diag. reflexivity. }
      rewrite <- IH. now rewrite <- app_assoc.
    + rewrite (Hone Hsmall). rewrite <- IH. now rewrite <- app_assoc.
Qed.

End ConcatRanges.


(** * The forward pass of a constructed group *)

Lemma Forall_per_worker {A : Type} (Q : A -> Prop) (F : nat -> nat -> A)
  (ts : list (list nat)) :
  forall pre,
    (forall t j, (j < Py.count (pre ++ concat ts) t)%nat -> Q (F t j)) ->
    Forall (Forall Q) (per_worker F pre ts).
Proof.
  induction ts as [|l ts IH]; intros pre H; [constructor|].
  cbn [per_worker]. constructor.
  - apply Forall_with_occurrence. intros t j Hj. apply H.
    cbn [concat]. rewrite app_assoc, count_app. lia.
  - apply IH. intros t j Hj. apply H. cbn [concat]. now rewrite app_assoc.
Qed.

Lemma with_occurrence_ext {A : Type} (F G : nat -> nat -> A) (l : list nat) :
  forall pre,
    (forall t j, (j < Py.count (pre ++ l) t)%nat -> F t j = G t j) ->
    with_occurrence F pre l = with_occurrence G pre l.
Proof.
  induction l as [|t l IH]; intros pre H; [reflexivity|].
  cbn [with_occurrence]. f_equal.
  - apply H. rewrite count_app, count_cons, Nat.eqb_refl. lia.
  - apply IH. intros t' j Hj. apply H. now rewrite <- app_assoc in Hj.
Qed.

Lemma nth_error_with_occurrence {A : Type} (F : nat -> nat -> A) (l : list nat) :
  forall pre i t,
    nth_error l i = Some t ->
    nth_error (with_occurrence F pre l) i
    = Some (F t (Py.count (pre ++ firstn i l) t)).
Proof.
  induction l as [|t' l IH]; intros pre [|i] t H; try discriminate.
  - injection H as ->. cbn [with_occurrence nth_error firstn].
    now rewrite app_nil_r.
  - cbn [with_occurrence nth_error firstn]. rewrite (IH _ _ _ H).
    now rewrite <- app_assoc.
Qed.

(** The local table that each local input of a rank reads. *)
Lemma local_tables {V : Type} (W : list (list (list V))) (tids : list (list nat))
  (m : list Z) (pre : list nat) (l : list nat) :
  forall done,
    Forall2 (fun mi e =>
               Py.getitem (with_occurrence (weight_slice W tids) pre (done ++ l)) mi
               = Ok (fst e))
            (map Z.of_nat (local_map_of m (combine (seq (length done) (length l)) l)))
            (concat (with_occurrence (served_by W tids m) (pre ++ done) l)).
Proof.
  induction l as [|t l IH]; intros done; [constructor|].
  cbn [length seq combine with_occurrence concat].
  unfold local_map_of. cbn [flat_map fst snd]. rewrite map_app.
  apply Forall2_app.
  - unfold served_by. rewrite map_map.
    generalize (inputs_of m t) as ids. intros ids.
    induction ids as [|g ids IHg]; cbn [map]; constructor; [|exact IHg].
    cbn [fst]. apply getitem_nat.
    rewrite (nth_error_with_occurrence _ _ _ _ t).
    + rewrite firstn_app, firstn_all, Nat.sub_diag, firstn_O, app_nil_r.
      reflexivity.
    + rewrite nth_error_app2, Nat.sub_diag by lia. reflexivity.
  - specialize (IH (done ++ [t])).
    rewrite length_app, Nat.add_1_r in IH.
    rewrite <- (app_assoc done [t] l) in IH.
    rewrite (app_assoc pre done [t]) in IH. exact IH.
Qed.

Lemma flat_map_concat {A B : Type} (f : A -> list B) (ll : list (list A)) :
  flat_map f (concat ll) = concat (map (flat_map f) ll).
Proof.
  induction ll as [|l ll IH]; [reflexivity|].
  cbn [concat map]. now rewrite flat_map_app, IH.
Qed.

Section ForwardPlan.
Variables (fuel : nat) (embeddings : list Config) (ws : nat) (name : string)
  (thr : option Z) (m : list Z).
Variables (sliced : list (list Config)) (ranges : list (nat * nat))
  (tids : list (list nat)).
Context {V : Type}.
Variable lookup : list (list V) -> list Z -> list V.
Variable cast : V -> V.
Variable W : list (list (list V)).
Variable chunk : Z.
Variables (b : nat) (dtypes : list DType) (trailing : list (list nat)).
Variable batch : list (list Tensor).
Variable loaded : list (@Worker V).
Hypothesis Hws : (2 <= ws)%nat.
Hypothesis Hsup : In name supported_strategies.
Hypothesis Hemb : (ws <= length embeddings)%nat.
Hypothesis Hdims :
  Forall (fun c => 1 <= input_dim c /\ 1 <= output_dim c) embeddings.
Hypothesis Hsliced :
  create_sliced_configs fuel embeddings ws thr m = Ok (sliced, ranges).
Hypothesis Htids : apply_stragety name ws sliced = Ok tids.
Hypothesis Hweights : Forall2 shaped embeddings W.
Hypothesis Hchunk : Forall (fun c => output_dim c <= chunk) embeddings.
Hypothesis Hvalid : Forall (fun t => 0 <= t < Z.of_nat (length embeddings)) m.
Hypothesis Hlookup : column_wise lookup.
Hypothesis Hserving :
  Forall (fun ids => ids <> []) (map (flat_map (inputs_of m)) tids).
Hypothesis Hb : (1 <= b)%nat.
Hypothesis Hbatch_len : length batch = ws.
Hypothesis Hbatch : Forall (dp_inputs b dtypes trailing) batch.
Hypothesis Htrailing : length trailing = length m.
Hypothesis Hloaded_len : length loaded = ws.
Hypothesis Hloaded :
  forall r w,
    nth_error loaded r = Some w ->
    layer w = layer_of ws r true thr
                (planned_strategy embeddings name m sliced ranges tids r)
    /\ weights w = nth r (per_worker (weight_slice W tids) [] tids) [].

Let idss : list (list nat) := map (flat_map (inputs_of m)) tids.
Let served : list (list (list (list V) * nat)) :=
  map (@concat _) (per_worker (served_by W tids m) [] tids).

Lemma plan_tids_length : length tids = ws.
Proof. apply (tids_length ws name sliced tids); [lia|assumption..]. Qed.

Lemma slice_table (t j : nat) :
  (j < Py.count (concat tids) t)%nat ->
  exists rws,
    (1 <= rws)%nat
    /\ has_shape rws (shape1 (weight_slice W tids t j)) (weight_slice W tids t j)
    /\ Z.of_nat (shape1 (weight_slice W tids t j))
       = output_dim (slice_config sliced t j).
Proof.
  intros Hj.
  destruct (slice_shaped fuel embeddings ws name thr m sliced ranges tids
              ltac:(lia) Hsup Hemb Hdims Hsliced Htids W chunk ltac:(lia)
              Hweights Hchunk t j Hj) as (Hshape & Hid & Hod & _).
  unfold shaped in Hshape.
  destruct (shape_of _ _ _ Hshape ltac:(lia)) as [_ H1].
  exists (Z.to_nat (input_dim (slice_config sliced t j))).
  split; [lia|]. rewrite H1. split; [exact Hshape|lia].
Qed.

Lemma whole_table (t : nat) :
  (t < length embeddings)%nat ->
  exists rws, (1 <= rws)%nat /\ has_shape rws (shape1 (nth t W [])) (nth t W []).
Proof.
  intros Ht.
  destruct (table_weight embeddings ws ltac:(lia) Hemb Hdims W chunk ltac:(lia)
              Hweights Hchunk t Ht) as (c & _ & Hshape & Hid & _ & H1).
  exists (Z.to_nat (input_dim c)). split; [lia|]. now rewrite H1.
Qed.

Lemma idss_bound : Forall (Forall (fun g => (g < length trailing)%nat)) idss.
Proof.
  unfold idss. apply Forall_map. apply Forall_forall. intros l _.
  apply Forall_forall. intros g Hg. apply in_flat_map in Hg.
  destruct Hg as (t & _ & Hg). apply inputs_of_bound in Hg. lia.
Qed.

Lemma served_concat :
  concat served = concat (with_occurrence (served_by W tids m) [] (concat tids)).
Proof.
  unfold served. now rewrite <- concat_concat, per_worker_concat.
Qed.

Lemma served_tables :
  Forall (Forall (fun e : list (list V) * nat =>
                    exists rws, (1 <= rws)%nat
                                /\ has_shape rws (shape1 (fst e)) (fst e)))
         served.
Proof.
  unfold served. apply Forall_map.
  eapply Forall_impl;
    [|apply (Forall_per_worker
               (Forall (fun e : list (list V) * nat =>
                          exists rws, (1 <= rws)%nat
                                      /\ has_shape rws (shape1 (fst e)) (fst e))))].
  - intros ll Hll. now apply Forall_concat.
  - intros t j Hj. cbn [app] in Hj. unfold served_by. apply Forall_map.
    apply Forall_forall. intros g _. cbn [fst].
    destruct (slice_table t j Hj) as (rws & H1 & H2 & _). now exists rws.
Qed.

Lemma served_widths :
  concat (with_occurrence (input_widths sliced m) [] (concat tids))
  = map (fun e : list (list V) * nat => Z.of_nat (shape1 (fst e))) (concat served).
Proof.
  rewrite served_concat, concat_map, with_occurrence_map. f_equal.
  apply with_occurrence_ext. intros t j Hj. cbn [app] in Hj.
  unfold input_widths, served_by. rewrite map_map. cbn [fst].
  destruct (slice_table t j Hj) as (_ & _ & _ & ->). reflexivity.
Qed.

Lemma loaded_layers (r : nat) (w : @Worker V) :
  nth_error loaded r = Some w ->
  world_size (layer w) = ws /\ rank (layer w) = r
  /\ dp_input (layer w) = true
  /\ input_ids_list (plan (layer w)) = idss
  /\ Forall2 (fun mi e => Py.getitem (weights w) mi = Ok (fst e))
             (local_input_table_map (plan (layer w))) (nth r served [])
  /\ widths_list_flat (plan (layer w))
     = Some (map (fun e => Z.of_nat (shape1 (fst e))) (concat served))
  /\ rev_global_input_ids (plan (layer w)) = Some (reverse_ids idss).
Proof.
  intros Hw. destruct (Hloaded r w Hw) as [Hl Hwt].
  assert (r < length tids)%nat as Hr.
  { rewrite plan_tids_length, <- Hloaded_len. apply nth_error_Some. congruence. }
  rewrite Hl, Hwt.
  cbn [layer_of world_size rank dp_input plan planned_strategy input_ids_list
       local_input_table_map widths_list_flat rev_global_input_ids].
  repeat (split; [reflexivity|]).
  split; [|split; [now rewrite served_widths|reflexivity]].
  assert (nth r (map (fun ids => local_map_of m (Py.enumerate ids)) tids) []
          = local_map_of m (Py.enumerate (nth r tids []))) as E1
    by exact (map_nth (fun ids => local_map_of m (Py.enumerate ids)) tids [] r).
  assert (nth r served []
          = concat (nth r (per_worker (served_by W tids m) [] tids) [])) as E2
    by exact (map_nth (@concat _) (per_worker (served_by W tids m) [] tids) [] r).
  rewrite E1, E2.
  rewrite !per_worker_nth by exact Hr. cbn [app].
  pose proof (local_tables W tids m (concat (firstn r tids)) (nth r tids []) [])
    as H.
  cbn [app length] in H. rewrite app_nil_r in H. exact H.
Qed.

Lemma tables_valid (g : nat) :
  (g < length m)%nat ->
  0 <= nth g m 0 /\ (table_of m g < length embeddings)%nat
  /\ nth g m 0 = Z.of_nat (table_of m g).
Proof.
  intros Hg. pose proof (proj1 (Forall_forall _ _) Hvalid (nth g m 0)) as H.
  specialize (H (nth_In _ _ Hg)). cbv beta in H. unfold table_of. lia.
Qed.

Lemma call_base_loaded (me : nat) :
  (me < ws)%nat ->
  call_base lookup cast loaded batch me
  = Ok (flat_map
          (fun g => map (fun j => output_of lookup cast b trailing (nth me batch [])
                                            (weight_slice W tids (table_of m g) j) g)
                        (seq 0 (Py.count (concat tids) (table_of m g))))
          (seq 0 (length m))).
Proof.
  intros Hme.
  rewrite (call_base_spec lookup cast ws b dtypes trailing batch loaded idss served);
    try assumption; try lia.
  - f_equal. unfold reverse_ids.
    assert (concat idss = map snd (concat served)) as Hids.
    { rewrite served_concat, served_ids. unfold idss.
      symmetry. apply flat_map_concat. }
    cbv zeta.
    rewrite (reorder_spec (length m)).
    + apply flat_map_ext_in. intros g Hg. apply in_seq in Hg.
      destruct (tables_valid g ltac:(lia)) as (Hpos & _ & _).
      rewrite Hids, combine_map, filter_map_key, map_map. cbn [snd].
      rewrite served_concat, filter_served by (assumption || lia).
      rewrite map_map. reflexivity.
    + now rewrite Hids, !length_map.
    + rewrite <- Htrailing. apply Forall_concat. apply idss_bound.
  - unfold idss. now rewrite length_map, plan_tids_length.
  - apply idss_bound.
  - unfold served, idss. apply served_ids_per_worker.
  - apply served_tables.
  - apply loaded_layers.
Qed.

Lemma concat_loaded (me : nat) (self : @Worker V) :
  nth_error loaded me = Some self ->
  concat_column_slice_outputs self
    (flat_map
       (fun g => map (fun j => output_of lookup cast b trailing (nth me batch [])
                                         (weight_slice W tids (table_of m g) j) g)
                     (seq 0 (Py.count (concat tids) (table_of m g))))
       (seq 0 (length m)))
  = Ok (map (fun g => output_of lookup cast b trailing (nth me batch [])
                                (nth (table_of m g) W []) g)
            (seq 0 (length m))).
Proof.
  intros Hself. destruct (Hloaded me self Hself) as [Hl _].
  unfold concat_column_slice_outputs. rewrite Hl.
  cbn [layer_of plan planned_strategy sliced_out_ranges attr bind].
  destruct (create_sliced_configs_inv _ _ _ _ _ _ _ Hsliced) as [_ Hranges].
  apply (concat_ranges_loop sliced
           (fun g => map (fun j => output_of lookup cast b trailing (nth me batch [])
                                             (weight_slice W tids (table_of m g) j) g)
                         (seq 0 (Py.count (concat tids) (table_of m g))))
           (fun g => output_of lookup cast b trailing (nth me batch [])
                               (nth (table_of m g) W []) g)
           m 0%nat ranges []).
  - exact Hranges.
  - reflexivity.
  - intros i sl Hi Hsl. cbn [Nat.add].
    destruct (tables_valid i Hi) as (_ & Ht & Hz).
    set (t := table_of m i) in *.
    assert (length sliced = length embeddings) as Hsl_len
      by (apply (sliced_length fuel embeddings ws thr m sliced ranges);
          [lia|assumption..]).
    assert (sl = nth t sliced []) as ->.
    { rewrite Hz in Hsl.
      assert (nth_error sliced t = Some (nth t sliced [])) as E
        by (apply nth_error_nth'; lia).
      rewrite (getitem_nat _ _ _ E) in Hsl. congruence. }
    rewrite <- (tids_count ws name sliced tids ltac:(lia) Hsup Htids t).
    destruct (nth_error embeddings t) as [c|] eqn:Ec;
      [|apply nth_error_None in Ec; lia].
    destruct (table_slices fuel embeddings ws name thr m sliced ranges tids
                ltac:(lia) Hsup Hdims Hsliced Htids t c Ec) as (Hk & _).
    destruct (whole_table t Ht) as (rws & Hrws & Hshape).
    destruct (sliced_outputs lookup cast b trailing (nth me batch []) Hlookup
                W tids t i rws Hrws Hshape Hk) as [Hcat Hone].
    split; [now rewrite length_map, length_seq|].
    split; [exact Hcat|]. intros Hle. apply Hone. lia.
Qed.

Lemma call_loaded (me : nat) :
  (me < ws)%nat ->
  call lookup cast loaded batch me
  = Ok (map (fun g => output_of lookup cast b trailing (nth me batch [])
                                (nth (table_of m g) W []) g)
            (seq 0 (length m))).
Proof.
  intros Hme. unfold call.
  destruct (nth_error loaded me) as [self|] eqn:Hself;
    [|apply nth_error_None in Hself; lia].
  unfold Py.getnat at 1. rewrite Hself. cbn [bind].
  destruct (Hloaded me self Hself) as [Hl _].
  replace (world_size (layer self) =? 1)%nat with false
    by (rewrite Hl; symmetry; apply Nat.eqb_neq; cbn [layer_of world_size]; lia).
  rewrite call_base_loaded by exact Hme. cbn [bind].
  now apply concat_loaded.
Qed.

End ForwardPlan.


(** * The forward pass: one worker against many *)

Lemma call_single {V : Type} (lookup : list (list V) -> list Z -> list V)
  (cast : V -> V) (l : Layer) (W : list (list (list V))) (b : nat)
  (dtypes : list DType) (trailing : list (list nat)) (m : list Z)
  (inputs : list Tensor) :
  world_size l = 1%nat -> local_input_table_map (plan l) = m ->
  dp_inputs b dtypes trailing inputs -> length trailing = length m ->
  Forall (fun t => 0 <= t < Z.of_nat (length W)) m ->
  call lookup cast [mkWorker l W] [inputs] 0
  = Ok (map (fun g => output_of lookup cast b trailing inputs
                                (nth (table_of m g) W []) g)
            (seq 0 (length m))).
Proof.
  intros Hsize Hmap Hin Htr Hvalid. unfold call.
  cbn [Py.getnat nth_error bind layer]. rewrite Hsize. cbn [Nat.eqb bind].
  unfold local_lookups. cbn [layer weights]. rewrite Hmap.
  assert (length inputs = length m) as Hlen.
  { destruct (Hin) as (_ & Hs & _). apply (f_equal (@length _)) in Hs.
    rewrite !length_map in Hs. lia. }
  rewrite (mapM_indexed _
             (fun g => map (lookup (nth (table_of m g) W []))
                           (samples_of b trailing inputs g))).
  - cbn [bind]. rewrite length_combine, Hlen, Nat.min_id. f_equal.
    rewrite map_map. apply map_ext. intros g. unfold output_of.
    now rewrite map_map.
  - intros k [mi inp] Hk. apply nth_error_combine_inv in Hk.
    destruct Hk as [Hm Hi]. cbn [fst snd] in Hm, Hi.
    assert (k < length m)%nat as Hlt by (apply nth_error_Some; congruence).
    pose proof (proj1 (Forall_forall _ _) Hvalid mi (nth_error_In _ _ Hm)) as Hmi.
    cbv beta in Hmi.
    assert (mi = Z.of_nat (table_of m k)) as Emi.
    { unfold table_of. rewrite (nth_error_nth _ _ 0 Hm). lia. }
    assert (nth_error W (table_of m k) = Some (nth (table_of m k) W [])) as EW.
    { apply nth_error_nth'. unfold table_of. rewrite (nth_error_nth _ _ 0 Hm). lia. }
    rewrite Emi, (getitem_nat _ _ _ EW). cbn [bind].
    unfold embedding_call, samples.
    rewrite <- (nth_error_nth _ _ no_tensor Hi).
    destruct (dp_inputs_facts b dtypes trailing inputs k Hin ltac:(lia))
      as (-> & _). reflexivity.
Qed.

Lemma single_layer (fuel : nat) (embeddings : list Config) (name : string)
  (thr : option Z) (dp : bool) (mo : option (list Z)) :
  In name supported_strategies -> (1 <= length embeddings)%nat ->
  exists single,
    DistributedEmbedding_init fuel 1 0 embeddings name thr false dp mo = Ok single
    /\ world_size single = 1%nat
    /\ local_input_table_map (plan single) = effective_map embeddings mo.
Proof.
  intros Hsup Hemb. unfold DistributedEmbedding_init.
  replace (existsb (String.eqb name) supported_strategies) with true.
  - cbn [negb]. unfold DistEmbeddingStrategy_init. cbn [Nat.eqb bind global_configs].
    destruct (Nat.ltb_spec (length embeddings) 1); [lia|].
    eexists. split; [reflexivity|]. split; reflexivity.
  - symmetry. apply existsb_exists. exists name. split; [exact Hsup|].
    apply String.eqb_refl.
Qed.


Lemma slice_nil {A : Type} (s e : nat) : Py.slice (@nil A) s e = [].
Proof. unfold Py.slice. now rewrite skipn_nil, firstn_nil. Qed.

Lemma row_lookup_column_wise : column_wise row_lookup.
Proof.
  intros r c table indices Hr [Hrows Hcols].
  assert (Z.to_nat ((hd 0 indices mod Z.of_nat (length table))%Z) < length table)%nat
    as Hk.
  { pose proof (Z.mod_pos_bound (hd 0 indices) (Z.of_nat (length table))
                  ltac:(lia)). lia. }
  split.
  - unfold row_lookup. rewrite Forall_forall in Hcols. apply Hcols.
    now apply nth_In.
  - intros start stop _ _. unfold row_lookup, columns. rewrite length_map.
    rewrite <- (slice_nil start stop) at 1.
    apply (map_nth (fun row => Py.slice row start stop)).
Qed.

Lemma example_batch_inputs :
  Forall (dp_inputs 2 [int32; int64] [[]; []]) example_batch.
Proof. repeat constructor. Qed.



(** * More on the planner *)

(** ** The slices of a table are even *)

Lemma even_slices_nth (c : Config) (k i : nat) (s : Config) :
  nth_error (even_slices c k) i = Some s ->
  (i < k)%nat /\ s = set_output_dim c (even_width (output_dim c) k i).
Proof.
  unfold even_slices. intros H.
  assert (i < k)%nat as Hi.
  { assert (i < length (map (fun j => set_output_dim c (even_width (output_dim c) k j))
                            (seq 0 k)))%nat as Hlt
      by (apply nth_error_Some; congruence).
    now rewrite length_map, length_seq in Hlt. }
  split; [exact Hi|].
  rewrite nth_error_map, nth_error_seq in H.
  destruct (Nat.ltb_spec i k); [|lia]. cbn in H. congruence.
Qed.

(** X1: the slices [maybe_slice_table_column] returns are even: going
    down the list the widths never grow, and no two widths differ by more
    than one column. *)
Theorem slices_even (fuel : nat) (c : Config) (thr : option Z) (ws : nat)
  (slices : list Config) (i j : nat) (si sj : Config) :
  maybe_slice_table_column fuel c thr ws = Ok slices ->
  1 <= output_dim c -> (1 <= ws)%nat ->
  nth_error slices i = Some si -> nth_error slices j = Some sj -> (i <= j)%nat ->
  output_dim sj <= output_dim si <= output_dim sj + 1.
Proof.
  intros Hs Hod Hws Hi Hj Hij.
  destruct (maybe_slice_table_column_form fuel c thr ws slices Hs Hod Hws)
    as (k & Hk & _ & ->).
  apply even_slices_nth in Hi. apply even_slices_nth in Hj.
  destruct Hi as [Hik ->]. destruct Hj as [Hjk ->].
  cbn [output_dim set_output_dim]. unfold even_width.
  destruct (Z.ltb_spec (Z.of_nat i) (output_dim c mod Z.of_nat k)),
    (Z.ltb_spec (Z.of_nat j) (output_dim c mod Z.of_nat k)); lia.
Qed.

Lemma slices_even_witness :
  output_dim (mkConfig 10 1 []) <= output_dim (mkConfig 10 2 [])
  <= output_dim (mkConfig 10 1 []) + 1.
Proof.
  apply (slices_even 10 (mkConfig 10 7 []) (Some 20) 4
           [mkConfig 10 2 []; mkConfig 10 2 []; mkConfig 10 2 []; mkConfig 10 1 []]
           1 3 (mkConfig 10 2 []) (mkConfig 10 1 []));
    try reflexivity; simpl; lia.
Defined.

(** ** How many slices *)

Lemma halve_until_fits_power (t : Z) (fuel : nat) :
  forall n q r,
    halve_until_fits fuel (Some t) n q = Ok r ->
    exists j : nat,
      r = n * 2 ^ Z.of_nat j
      /\ Qnum q <= t * Zpos (Qden q) * 2 ^ Z.of_nat j
      /\ forall i : nat, (i < j)%nat -> t * Zpos (Qden q) * 2 ^ Z.of_nat i < Qnum q.
Proof.
  induction fuel as [|fuel IH]; intros n q r; cbn [halve_until_fits];
    destruct (exceeds q (Some t)) eqn:E; try discriminate; intros H.
  - injection H as <-. exists 0%nat. apply exceeds_spec in E.
    split; [simpl; lia|]. split; [simpl; lia|]. intros i Hi. lia.
  - apply IH in H. destruct H as (j & -> & Hfit & Hmin).
    assert (Qnum (q / 2) = Qnum q * 1 /\ Qden (q / 2)%Q = (Qden q * 2)%positive)
      as [Enum Eden] by (destruct q; split; reflexivity).
    rewrite Enum, Eden, Pos2Z.inj_mul in Hfit.
    exists (S j). rewrite Nat2Z.inj_succ, Z.pow_succ_r by lia.
    split; [lia|]. split; [lia|].
    intros [|i] Hi.
    + assert (~ Qnum q <= t * Zpos (Qden q)) as Hn.
      { intros Hle. apply exceeds_spec in Hle. congruence. }
      simpl. lia.
    + specialize (Hmin i ltac:(lia)).
      rewrite Enum, Eden, Pos2Z.inj_mul in Hmin.
      rewrite Nat2Z.inj_succ, Z.pow_succ_r by lia. lia.
  - injection H as <-. exists 0%nat. apply exceeds_spec in E.
    split; [simpl; lia|]. split; [simpl; lia|]. intros i Hi. lia.
Qed.



(** ** Tables that fit, and the input-table map *)

Lemma getitem_in_range {A : Type} (l : list A) (i : Z) :
  - Z.of_nat (length l) <= i < Z.of_nat (length l) ->
  exists x, Py.getitem l i = Ok x /\ In x l.
Proof.
  intros Hi. unfold Py.getitem. cbv zeta.
  set (j := if i <? 0 then i + Z.of_nat (length l) else i).
  assert (0 <= j < Z.of_nat (length l)) as Hj
    by (unfold j; destruct (Z.ltb_spec i 0); lia).
  destruct (Z.ltb_spec j 0); [lia|]. destruct (Z.leb_spec (Z.of_nat (length l)) j); [lia|].
  cbn [orb].
  destruct (nth_error l (Z.to_nat j)) as [x|] eqn:E.
  - exists x. split; [reflexivity|]. eapply nth_error_In; eassumption.
  - apply nth_error_None in E. lia.
Qed.

Lemma getitem_out_of_range {A : Type} (l : list A) (i : Z) :
  i < - Z.of_nat (length l) \/ Z.of_nat (length l) <= i ->
  Py.getitem l i = Raise IndexError.
Proof.
  intros Hi. unfold Py.getitem. cbv zeta.
  destruct (Z.ltb_spec i 0).
  - destruct (Z.ltb_spec (i + Z.of_nat (length l)) 0); [reflexivity|lia].
  - destruct (Z.ltb_spec i 0); [lia|].
    destruct (Z.leb_spec (Z.of_nat (length l)) i); [reflexivity|lia].
Qed.

Lemma getitem_raises {A : Type} (l : list A) (i : Z) (e : exn) :
  Py.getitem l i = Raise e -> e = IndexError.
Proof.
  unfold Py.getitem. cbv zeta.
  destruct (_ || _); [congruence|].
  destruct (nth_error l _); congruence.
Qed.

Lemma getitem_not_diverge {A : Type} (l : list A) (i : Z) :
  Py.getitem l i <> Diverge.
Proof.
  unfold Py.getitem. cbv zeta.
  destruct (_ || _); [congruence|].
  destruct (nth_error l _); congruence.
Qed.

Lemma maybe_slice_fits (fuel : nat) (c : Config) (thr : option Z) (ws : nat) :
  match thr with Some t => elements c <= t | None => True end ->
  maybe_slice_table_column fuel c thr ws = Ok [c].
Proof.
  intros Hfit. unfold maybe_slice_table_column.
  assert (exceeds (inject_Z (input_dim c * output_dim c)) thr = false) as E.
  { destruct thr as [t|]; [|reflexivity]. apply exceeds_spec.
    unfold elements in Hfit. simpl. lia. }
  assert (halve_until_fits fuel thr 1 (inject_Z (input_dim c * output_dim c)) = Ok 1)
    as -> by (destruct fuel; cbn [halve_until_fits]; now rewrite E).
  reflexivity.
Qed.

Lemma out_ranges_unsliced (sliced : list (list Config)) (l : list (nat * Z)) :
  Forall (fun sl => length sl = 1%nat) sliced ->
  Forall (fun e => - Z.of_nat (length sliced) <= snd e < Z.of_nat (length sliced)) l ->
  out_ranges sliced l = Ok [].
Proof.
  intros Hone. induction 1 as [|[g t] l Ht _ IH]; [reflexivity|].
  cbn [out_ranges]. cbn [snd] in Ht.
  destruct (getitem_in_range sliced t Ht) as (sl & -> & Hin).
  cbn [bind]. rewrite IH. cbn [bind].
  rewrite Forall_forall in Hone. now rewrite (Hone sl Hin).
Qed.

(** X3: when no table has more elements than the threshold, or there is
    no threshold, [create_sliced_configs] slices nothing: every table keeps
    its one config and no output range needs a concat.  (Table ids may be
    negative: they count from the end.) *)
Theorem fitting_tables_are_not_sliced (fuel : nat) (embeddings : list Config)
  (ws : nat) (thr : option Z) (m : list Z) :
  Forall (fun c => match thr with Some t => elements c <= t | None => True end)
         embeddings ->
  Forall (fun t => - Z.of_nat (length embeddings) <= t < Z.of_nat (length embeddings))
         m ->
  create_sliced_configs fuel embeddings ws thr m
  = Ok (map (fun c => [c]) embeddings, []).
Proof.
  intros Hfit Hm. unfold create_sliced_configs.
  rewrite (mapM_map _ (fun c => [c])).
  - cbn [bind]. rewrite out_ranges_unsliced; [reflexivity| |].
    + apply Forall_map. apply Forall_forall. reflexivity.
    + rewrite length_map. unfold Py.enumerate.
      apply Forall_forall. intros [g t] Hin. apply in_combine_r in Hin.
      rewrite Forall_forall in Hm. now apply Hm.
  - intros c Hc. apply maybe_slice_fits. rewrite Forall_forall in Hfit. now apply Hfit.
Qed.

Lemma fitting_tables_are_not_sliced_witness :
  create_sliced_configs 0 [mkConfig 100 8 []; mkConfig 50 16 []] 2 (Some 800)
    [0; -1; 1]
  = Ok (map (fun c => [c]) [mkConfig 100 8 []; mkConfig 50 16 []], []).
Proof.
  apply (fitting_tables_are_not_sliced 0 [mkConfig 100 8 []; mkConfig 50 16 []]
           2 (Some 800) [0; -1; 1]).
  - repeat constructor; vm_compute; discriminate.
  - repeat constructor; simpl; lia.
Defined.

Lemma out_ranges_index_error (sliced : list (list Config)) (l : list (nat * Z)) :
  Exists (fun e => snd e < - Z.of_nat (length sliced)
                   \/ Z.of_nat (length sliced) <= snd e) l ->
  out_ranges sliced l = Raise IndexError.
Proof.
  induction 1 as [[g t] l Hbad|[g t] l _ IH]; cbn [out_ranges].
  - cbn [snd] in Hbad. now rewrite getitem_out_of_range.
  - destruct (Py.getitem sliced t) as [sl|e|] eqn:E.
    + cbn [bind]. now rewrite IH.
    + apply getitem_raises in E. now subst e.
    + now apply getitem_not_diverge in E.
Qed.

Lemma mapM_length {A B : Type} (f : A -> result B) (l : list A) (r : list B) :
  mapM f l = Ok r -> length r = length l.
Proof.
  intros H. apply mapM_Forall2 in H. symmetry. eapply Forall2_length. eassumption.
Qed.

(** X4: a table id of [input_table_map] that is out of range (neither
    [0 .. n-1] nor [-n .. -1]) makes the construction of a multi-worker
    layer raise [IndexError], once the tables are sliced; a single worker
    accepts the same map without a check. *)
Theorem table_id_out_of_range (fuel : nat) (hvd_size hvd_rank : nat)
  (embeddings : list Config) (name : string) (thr : option Z) (dp : bool)
  (m : list Z) (sliced : list (list Config)) :
  In name supported_strategies ->
  mapM (fun c => maybe_slice_table_column fuel c thr hvd_size) embeddings = Ok sliced ->
  Exists (fun t => t < - Z.of_nat (length embeddings)
                   \/ Z.of_nat (length embeddings) <= t) m ->
  (hvd_size <> 1%nat ->
   DistributedEmbedding_init fuel hvd_size hvd_rank embeddings name thr false dp
     (Some m) = Raise IndexError)
  /\ ((1 <= length embeddings)%nat ->
      exists l, DistributedEmbedding_init fuel 1 0 embeddings name thr false dp
                  (Some m) = Ok l).
Proof.
  intros Hsup Hsl Hbad. split.
  - intros Hmulti. unfold DistributedEmbedding_init.
    replace (existsb (String.eqb name) supported_strategies) with true.
    2: { symmetry. apply existsb_exists. exists name. split; [exact Hsup|].
         apply String.eqb_refl. }
    cbn [negb]. unfold DistEmbeddingStrategy_init.
    destruct (Nat.eqb_spec hvd_size 1) as [|_]; [contradiction|].
    unfold create_sliced_configs. rewrite Hsl. cbn [bind].
    rewrite out_ranges_index_error; [reflexivity|].
    rewrite (mapM_length _ _ _ Hsl). unfold Py.enumerate.
    clear Hsl. generalize 0%nat as a.
    induction Hbad as [t l Ht|t l _ IH]; intros a; cbn [length seq combine].
    + now apply Exists_cons_hd.
    + apply Exists_cons_tl. apply IH.
  - intros Hemb.
    destruct (single_layer fuel embeddings name thr dp (Some m) Hsup Hemb)
      as (l & Hl & _). now exists l.
Qed.

Lemma table_id_out_of_range_witness :
  (2%nat <> 1%nat ->
   DistributedEmbedding_init 10 2 0 [mkConfig 100 8 []; mkConfig 50 16 []] "basic"
     None false true (Some [0; 2]) = Raise IndexError)
  /\ ((1 <= length [mkConfig 100 8 []; mkConfig 50 16 []])%nat ->
      exists l, DistributedEmbedding_init 10 1 0
                  [mkConfig 100 8 []; mkConfig 50 16 []] "basic" None false true
                  (Some [0; 2]) = Ok l).
Proof.
  apply (table_id_out_of_range 10 2 0 [mkConfig 100 8 []; mkConfig 50 16 []]
           "basic" None true [0; 2]
           [[mkConfig 100 8 []]; [mkConfig 50 16 []]]).
  - simpl. auto.
  - reflexivity.
  - apply Exists_cons_tl, Exists_cons_hd. simpl. lia.
Defined.


(** * More on the plan *)

Lemma apply_stragety_supported (name : string) (ws : nat)
  (sliced : list (list Config)) (tids : list (list nat)) :
  apply_stragety name ws sliced = Ok tids -> In name supported_strategies.
Proof.
  unfold apply_stragety, supported_strategies. cbv zeta.
  destruct (String.eqb_spec name "basic") as [->|_]; [simpl; auto|].
  destruct (String.eqb_spec name "memory_balanced") as [->|_]; [simpl; auto|].
  destruct (String.eqb_spec name "memory_optimized") as [->|_]; [simpl; auto|].
  cbn. discriminate.
Qed.

(** What a multi-worker [DistEmbeddingStrategy] is made of. *)
Lemma strategy_inv (fuel : nat) (embeddings : list Config) (ws r : nat)
  (name : string) (mo : option (list Z)) (thr : option Z) (s : Strategy) :
  DistEmbeddingStrategy_init fuel embeddings ws r name mo thr = Ok s ->
  ws <> 1%nat -> (r < ws)%nat ->
  exists sliced ranges tids,
    create_sliced_configs fuel embeddings ws thr (effective_map embeddings mo)
    = Ok (sliced, ranges)
    /\ apply_stragety name ws sliced = Ok tids
    /\ partitions ws sliced tids
    /\ s = planned_strategy embeddings name (effective_map embeddings mo)
             sliced ranges tids r.
Proof.
  intros Hs Hmulti Hr.
  destruct (init_inv _ _ _ _ _ _ _ _ Hs Hmulti) as (sliced & ranges & tids & Hsl & Ht).
  exists sliced, ranges, tids.
  pose proof (apply_stragety_supported _ _ _ _ Ht) as Hsup.
  assert (partitions ws sliced tids) as Hp
    by (apply (tids_partition ws name); [lia|assumption..]).
  repeat split; try assumption; try apply Hp.
  rewrite (init_planned fuel embeddings ws r name mo thr sliced ranges tids
             Hmulti Hr Hsl Ht Hp) in Hs.
  congruence.
Qed.

(** X5: an input whose table id in [input_table_map] is negative is
    served by no worker: planning accepts the id (it counts from the end
    where the slices are looked up) but no rank lists the input. *)
Theorem negative_table_id_unserved (fuel : nat) (embeddings : list Config)
  (ws r : nat) (name : string) (m : list Z) (thr : option Z) (s : Strategy)
  (g : nat) :
  DistEmbeddingStrategy_init fuel embeddings ws r name (Some m) thr = Ok s ->
  ws <> 1%nat -> (r < ws)%nat ->
  nth g m 0 < 0 ->
  ~ In g (concat (input_ids_list s)).
Proof.
  intros Hs Hmulti Hr Hneg Hin.
  destruct (strategy_inv _ _ _ _ _ _ _ _ Hs Hmulti Hr)
    as (sliced & ranges & tids & _ & _ & _ & ->).
  cbn [planned_strategy input_ids_list effective_map] in Hin.
  apply in_concat in Hin. destruct Hin as (ids & Hids & Hg).
  apply in_map_iff in Hids. destruct Hids as (l & <- & _).
  apply in_flat_map in Hg. destruct Hg as (t & _ & Hg).
  apply inputs_of_bound in Hg. lia.
Qed.

Lemma negative_table_id_unserved_witness :
  exists s,
    DistEmbeddingStrategy_init 10 [mkConfig 100 8 []; mkConfig 50 16 []] 2 0
      "basic" (Some [0; -1]) None = Ok s
    /\ input_ids_list s = [[0%nat]; []]
    /\ ~ In 1%nat (concat (input_ids_list s)).
Proof.
  eexists. split; [reflexivity|]. split; [reflexivity|].
  apply (negative_table_id_unserved 10 [mkConfig 100 8 []; mkConfig 50 16 []]
           2 0 "basic" [0; -1] None _ 1);
    [reflexivity|lia|lia|simpl; lia].
Defined.

(** ** The order of the outputs *)

Lemma in_combine_seq {A : Type} (d : A) (l : list A) :
  forall a x i, In (x, i) (combine l (seq a (length l))) ->
                (a <= i)%nat /\ nth (i - a) l d = x.
Proof.
  induction l as [|y l IH]; intros a x i H; [destruct H|].
  cbn [length seq combine] in H. destruct H as [H|H].
  - injection H as -> ->. rewrite Nat.sub_diag. split; [lia|reflexivity].
  - apply IH in H. destruct H as [Ha Hn]. split; [lia|].
    replace (i - a)%nat with (S (i - S a)) by lia. exact Hn.
Qed.

Lemma sorted_map_fst {A B : Type} (R : A -> A -> Prop) (l : list (A * B)) :
  StronglySorted (fun p q => R (fst p) (fst q)) l -> StronglySorted R (map fst l).
Proof.
  induction 1 as [|p l _ IH Hp]; cbn [map]; constructor; [exact IH|].
  apply Forall_map. exact Hp.
Qed.

Lemma natpair_leb_true (p q : nat * nat) :
  Py.natpair_leb p q = true -> (fst p <= fst q)%nat.
Proof.
  unfold Py.natpair_leb.
  destruct (Nat.ltb_spec (fst p) (fst q)); [lia|].
  destruct (Nat.ltb_spec (fst q) (fst p)); [discriminate|lia].
Qed.

Lemma natpair_leb_false (p q : nat * nat) :
  Py.natpair_leb p q = false -> (fst q <= fst p)%nat.
Proof.
  unfold Py.natpair_leb.
  destruct (Nat.ltb_spec (fst p) (fst q)); [discriminate|lia].
Qed.

Lemma reverse_ids_perm (idss : list (list nat)) :
  Permutation (reverse_ids idss) (seq 0 (length (concat idss))).
Proof.
  unfold reverse_ids. cbv zeta.
  rewrite (sorted_perm Py.natpair_leb).
  rewrite map_snd_combine; [reflexivity|now rewrite length_seq].
Qed.

Lemma reverse_ids_sorts (idss : list (list nat)) :
  StronglySorted le (map (fun i => nth i (concat idss) 0%nat) (reverse_ids idss)).
Proof.
  unfold reverse_ids. cbv zeta.
  set (ids := concat idss).
  set (L := Py.sorted Py.natpair_leb (combine ids (seq 0 (length ids)))).
  assert (map (fun i => nth i ids 0%nat) (map snd L) = map fst L) as E.
  { rewrite map_map. apply map_ext_in. intros [x i] Hin.
    eapply Permutation_in in Hin; [|apply sorted_perm].
    apply (in_combine_seq 0%nat) in Hin. destruct Hin as [_ Hn].
    cbn [fst snd]. now rewrite Nat.sub_0_r in Hn. }
  rewrite E. apply sorted_map_fst.
  apply (sorted_sorted Py.natpair_leb (fun p q => (fst p <= fst q)%nat)).
  - intros x y z Hxy Hyz. lia.
  - apply natpair_leb_true.
  - apply natpair_leb_false.
Qed.

(** X6: [rev_global_input_ids] of a multi-worker strategy is a
    permutation of the positions of the worker-ordered outputs (none is
    dropped or read twice), and reading the worker-ordered input ids through
    it gives them in increasing order. *)
Theorem rev_global_input_ids_sorts (fuel : nat) (embeddings : list Config)
  (ws r : nat) (name : string) (mo : option (list Z)) (thr : option Z)
  (s : Strategy) :
  DistEmbeddingStrategy_init fuel embeddings ws r name mo thr = Ok s ->
  ws <> 1%nat -> (r < ws)%nat ->
  exists rev,
    rev_global_input_ids s = Some rev
    /\ Permutation rev (seq 0 (length (concat (input_ids_list s))))
    /\ StronglySorted le
         (map (fun i => nth i (concat (input_ids_list s)) 0%nat) rev).
Proof.
  intros Hs Hmulti Hr.
  destruct (strategy_inv _ _ _ _ _ _ _ _ Hs Hmulti Hr)
    as (sliced & ranges & tids & _ & _ & _ & ->).
  cbn [planned_strategy rev_global_input_ids input_ids_list].
  eexists. split; [reflexivity|]. split.
  - apply reverse_ids_perm.
  - apply reverse_ids_sorts.
Qed.

Lemma rev_global_input_ids_sorts_witness :
  exists rev,
    rev_global_input_ids (plan (layer example_rank1)) = Some rev
    /\ Permutation rev
         (seq 0 (length (concat (input_ids_list (plan (layer example_rank1))))))
    /\ StronglySorted le
         (map (fun i => nth i (concat (input_ids_list (plan (layer example_rank1))))
                            0%nat) rev).
Proof.
  apply (rev_global_input_ids_sorts 10 example_embeddings 2 1 "basic" None (Some 4));
    [reflexivity|lia|lia].
Defined.

(** ** Every slice has one owner *)

Lemma with_occurrence_perm {A : Type} (F : nat -> nat -> A) (l : list nat) (n : nat) :
  Forall (fun t => (t < n)%nat) l ->
  Permutation (with_occurrence F [] l)
              (flat_map (fun t => map (F t) (seq 0 (Py.count l t))) (seq 0 n)).
Proof.
  intros Hl.
  set (X := combine l (with_occurrence F [] l)).
  assert (with_occurrence F [] l = map snd X) as ->.
  { unfold X. symmetry. apply map_snd_combine.
    now rewrite with_occurrence_length. }
  rewrite <- (sorted_perm (fun p q : nat * A => (fst p <=? fst q)%nat) X).
  rewrite (sorted_by_key n).
  - unfold X. rewrite flat_map_concat_map, concat_map, map_map.
    rewrite flat_map_concat_map.
    replace (map (fun t => map snd (filter (fun e : nat * A => (fst e =? t)%nat)
                                           (combine l (with_occurrence F [] l))))
                 (seq 0 n))
      with (map (fun t => map (F t) (seq 0 (Py.count l t))) (seq 0 n));
      [reflexivity|].
    apply map_ext. intros t. rewrite filter_with_occurrence, map_map.
    reflexivity.
  - unfold X. apply Forall_forall. intros [t x] Hin. apply in_combine_l in Hin.
    rewrite Forall_forall in Hl. now apply Hl.
Qed.

Lemma local_configs_perm (ws : nat) (name : string) (sliced : list (list Config))
  (tids : list (list nat)) :
  (1 <= ws)%nat -> In name supported_strategies ->
  apply_stragety name ws sliced = Ok tids ->
  Permutation (concat (per_worker (slice_config sliced) [] tids)) (concat sliced).
Proof.
  intros Hws Hsup Ht.
  pose proof (tids_count ws name sliced tids Hws Hsup Ht) as Hcount.
  rewrite per_worker_concat.
  rewrite (with_occurrence_perm _ _ (length sliced)).
  - replace (flat_map (fun t => map (slice_config sliced t)
                                    (seq 0 (Py.count (concat tids) t)))
                      (seq 0 (length sliced)))
      with (flat_map (fun t => nth t sliced []) (seq 0 (length sliced))).
    + rewrite flat_map_concat_map, map_nth_seq. reflexivity.
    + apply flat_map_ext_in. intros t _. rewrite Hcount. unfold slice_config.
      symmetry. apply map_nth_seq.
  - apply Forall_forall. intros t Hin. apply count_pos_In in Hin.
    rewrite Hcount in Hin.
    destruct (Nat.lt_ge_cases t (length sliced)) as [|Hge]; [assumption|].
    rewrite nth_overflow in Hin by exact Hge. cbn in Hin. lia.
Qed.

Lemma even_slices_elements (c : Config) (k : nat) :
  (1 <= k)%nat ->
  Py.sum (map elements (even_slices c k)) = elements c.
Proof.
  intros Hk. unfold even_slices. rewrite map_map.
  unfold elements at 1. cbn [input_dim output_dim set_output_dim].
  assert (forall l : list nat,
             Py.sum (map (fun j => input_dim c * even_width (output_dim c) k j) l)
             = input_dim c * Py.sum (map (even_width (output_dim c) k) l)) as Hmul.
  { induction l as [|j l IH]; cbn [map Py.sum fold_right]; [lia|].
    unfold Py.sum in IH. rewrite IH. lia. }
  rewrite Hmul. unfold elements. f_equal.
  pose proof (sum_even_split (output_dim c / Z.of_nat k)
                (output_dim c mod Z.of_nat k) k) as Hs.
  pose proof (Z.mod_pos_bound (output_dim c) (Z.of_nat k) ltac:(lia)) as Hm.
  rewrite map_map in Hs.
  rewrite (map_ext (even_width (output_dim c) k)
             (fun i => if Z.of_nat i <? output_dim c mod Z.of_nat k
                       then output_dim c / Z.of_nat k + 1
                       else output_dim c / Z.of_nat k)).
  - rewrite Hs by lia.
    pose proof (Z.div_mod (output_dim c) (Z.of_nat k) ltac:(lia)). lia.
  - intros j. unfold even_width.
    destruct (Z.of_nat j <? output_dim c mod Z.of_nat k); lia.
Qed.

Lemma sum_elements_concat (sliced : list (list Config)) :
  Py.sum (map elements (concat sliced))
  = Py.sum (map (fun sl => Py.sum (map elements sl)) sliced).
Proof.
  induction sliced as [|sl sliced IH]; [reflexivity|].
  cbn [concat map]. rewrite map_app, sum_app, IH. reflexivity.
Qed.

(** X7: in a multi-worker plan every slice of every table is held by
    exactly one worker: the local configs of all ranks together are the
    slices [create_sliced_configs] made, up to order, and they hold as many
    elements as the global tables. *)
Theorem local_configs_partition_slices (fuel : nat) (embeddings : list Config)
  (ws r : nat) (name : string) (mo : option (list Z)) (thr : option Z)
  (s : Strategy) :
  DistEmbeddingStrategy_init fuel embeddings ws r name mo thr = Ok s ->
  ws <> 1%nat -> (r < ws)%nat ->
  Forall (fun c => 1 <= input_dim c /\ 1 <= output_dim c) embeddings ->
  exists cfgs sliced,
    local_configs_list s = Some cfgs
    /\ length cfgs = ws
    /\ local_configs s = nth r cfgs []
    /\ mapM (fun c => maybe_slice_table_column fuel c thr ws) embeddings = Ok sliced
    /\ Permutation (concat cfgs) (concat sliced)
    /\ Py.sum (map elements (concat cfgs)) = Py.sum (map elements embeddings).
Proof.
  intros Hs Hmulti Hr Hdims.
  destruct (strategy_inv _ _ _ _ _ _ _ _ Hs Hmulti Hr)
    as (sliced & ranges & tids & Hsl & Ht & Hp & ->).
  pose proof (apply_stragety_supported _ _ _ _ Ht) as Hsup.
  destruct (create_sliced_configs_inv _ _ _ _ _ _ _ Hsl) as [Hall _].
  pose proof (local_configs_perm ws name sliced tids ltac:(lia) Hsup Ht) as Hperm.
  exists (per_worker (slice_config sliced) [] tids), sliced.
  cbn [planned_strategy local_configs_list local_configs].
  split; [reflexivity|]. split.
  { rewrite per_worker_length. apply Hp. }
  split; [reflexivity|]. split; [now apply Forall2_mapM|]. split; [exact Hperm|].
  rewrite (sum_perm _ _ (Permutation_map elements Hperm)), sum_elements_concat.
  f_equal. clear Hperm Hsl Ht Hp Hs.
  induction Hall as [|c sl embeddings' sliced' Hc _ IH]; [reflexivity|].
  cbn [map]. f_equal; [|apply IH; now apply Forall_inv_tail in Hdims].
  apply Forall_inv in Hdims.
  destruct (maybe_slice_table_column_form fuel c thr ws sl Hc ltac:(lia) ltac:(lia))
    as (k & Hk & _ & ->).
  now apply even_slices_elements.
Qed.

Lemma local_configs_partition_slices_witness :
  exists cfgs sliced,
    local_configs_list (plan (layer example_rank1)) = Some cfgs
    /\ length cfgs = 2%nat
    /\ local_configs (plan (layer example_rank1)) = nth 1 cfgs []
    /\ mapM (fun c => maybe_slice_table_column 10 c (Some 4) 2) example_embeddings
       = Ok sliced
    /\ Permutation (concat cfgs) (concat sliced)
    /\ Py.sum (map elements (concat cfgs)) = Py.sum (map elements example_embeddings).
Proof.
  apply (local_configs_partition_slices 10 example_embeddings 2 1 "basic" None
           (Some 4));
    [reflexivity|lia|lia|repeat constructor; simpl; lia].
Defined.

(** X8: a layer that was constructed has at least one local embedding
    layer, on every rank: with at least as many tables as workers (what
    [__init__] insists on) no strategy leaves a worker without a slice. *)
Theorem every_rank_has_a_table (fuel ws r : nat) (embeddings : list Config)
  (name : string) (thr : option Z) (dp : bool) (mo : option (list Z)) (l : Layer) :
  DistributedEmbedding_init fuel ws r embeddings name thr false dp mo = Ok l ->
  (r < ws)%nat ->
  Forall (fun c => 1 <= input_dim c /\ 1 <= output_dim c) embeddings ->
  local_embedding_layers l <> [].
Proof.
  intros Hl Hr Hdims.
  apply DistributedEmbedding_init_layer in Hl.
  destruct Hl as (Hsup & Hemb & s & Hs & ->).
  cbn [layer_of local_embedding_layers]. intros E. apply map_eq_nil in E.
  destruct (Nat.eq_dec ws 1) as [->|Hmulti].
  - unfold DistEmbeddingStrategy_init in Hs. cbn [Nat.eqb] in Hs.
    injection Hs as <-. cbn [local_configs] in E. subst embeddings.
    cbn in Hemb. lia.
  - destruct (strategy_inv _ _ _ _ _ _ _ _ Hs Hmulti Hr)
      as (sliced & ranges & tids & Hsl & Ht & Hp & ->).
    cbn [planned_strategy local_configs] in E.
    assert (length tids = ws) as Hlen by apply Hp.
    rewrite per_worker_nth in E by lia.
    apply (f_equal (@length _)) in E. rewrite with_occurrence_length in E.
    pose proof (tids_nonempty fuel embeddings ws name thr _ sliced ranges tids
                  ltac:(lia) Hemb Hdims Hsl Ht) as Hne.
    rewrite Forall_forall in Hne.
    apply (Hne (nth r tids [])); [apply nth_In; lia|].
    now apply length_zero_iff_nil.
Qed.

Lemma every_rank_has_a_table_witness :
  local_embedding_layers (layer example_rank1) <> [].
Proof.
  apply (every_rank_has_a_table 10 2 1 example_embeddings "basic" (Some 4) true None);
    [reflexivity|lia|repeat constructor; simpl; lia].
Defined.

(** X9: the basic strategy deals the slices round-robin, so the numbers
    of slices of any two workers differ by at most one. *)
Theorem basic_counts (ws : nat) (sliced : list (list Config)) :
  (1 <= ws)%nat ->
  exists divided_ids,
    apply_stragety "basic" ws sliced = Ok divided_ids
    /\ forall b1 b2, In b1 divided_ids -> In b2 divided_ids ->
                     (length b1 <= length b2 + 1)%nat.
Proof.
  intros Hws. unfold apply_stragety. cbv zeta. cbn [String.eqb Ascii.eqb Bool.eqb].
  eexists. split; [reflexivity|].
  intros b1 b2 H1 H2.
  apply in_map_iff in H1. destruct H1 as (i & <- & Hi). apply in_seq in Hi.
  apply in_map_iff in H2. destruct H2 as (j & <- & Hj). apply in_seq in Hj.
  unfold Py.stride. rewrite !every_length by lia.
  set (n := length (flatten_ids sliced)).
  transitivity ((n + (ws - 1 - j) + 1 * ws) / ws)%nat.
  - apply Nat.Div0.div_le_mono. lia.
  - rewrite Nat.div_add by lia. lia.
Qed.

Lemma basic_counts_witness :
  exists divided_ids,
    apply_stragety "basic" 2
      [[mkConfig 100 8 []]; [mkConfig 50 16 []]; [mkConfig 200 4 []]]
    = Ok divided_ids
    /\ forall b1 b2, In b1 divided_ids -> In b2 divided_ids ->
                     (length b1 <= length b2 + 1)%nat.
Proof.
  apply (basic_counts 2 [[mkConfig 100 8 []]; [mkConfig 50 16 []]; [mkConfig 200 4 []]]).
  lia.
Defined.


(** * More on the weights *)

(** X10: the row-chunked scatter updates of [set_weights] write what
    [weight.assign(arr)] writes: for a variable and an array of the same
    shape, and a chunk of at least one row's elements, every row of the
    variable is overwritten, whatever the chunk. *)
Theorem chunked_assign_writes_all {V : Type} (chunk : Z) (r c : nat)
  (var arr : list (list V)) :
  has_shape r c var -> has_shape r c arr -> (1 <= r)%nat -> (1 <= c)%nat ->
  Z.of_nat c <= chunk ->
  assign_by_chunks chunk var arr = Ok arr
  /\ assign_by_chunks chunk var arr = assign var arr.
Proof.
  intros Hv Ha Hr Hc Hchunk. split.
  - now apply (assign_by_chunks_spec chunk r c).
  - rewrite (assign_by_chunks_spec chunk r c) by assumption.
    symmetry. now apply (assign_spec r c).
Qed.

Lemma chunked_assign_writes_all_witness :
  assign_by_chunks 4 [[0; 0]; [0; 0]; [0; 0]; [0; 0]; [0; 0]]
                     [[1; 2]; [3; 4]; [5; 6]; [7; 8]; [9; 10]]
  = Ok [[1; 2]; [3; 4]; [5; 6]; [7; 8]; [9; 10]]
  /\ assign_by_chunks 4 [[0; 0]; [0; 0]; [0; 0]; [0; 0]; [0; 0]]
                        [[1; 2]; [3; 4]; [5; 6]; [7; 8]; [9; 10]]
     = assign [[0; 0]; [0; 0]; [0; 0]; [0; 0]; [0; 0]]
              [[1; 2]; [3; 4]; [5; 6]; [7; 8]; [9; 10]].
Proof.
  apply (chunked_assign_writes_all 4 5 2); try lia; repeat constructor.
Defined.





(** X13: the loader and the planner cut a table the same way: in a
    constructed multi-worker group, the column ranges that [set_weights]
    cuts out of the global matrices for a rank have exactly the shapes of
    that rank's local embedding layers. *)
Theorem local_slices_fit_local_layers {V : Type} (fuel ws : nat)
  (embeddings : list Config) (name : string) (thr : option Z) (dp : bool)
  (mo : option (list Z)) (cluster : list (@Worker V))
  (W : list (list (list V))) (r : nat) (w : @Worker V) :
  (2 <= ws)%nat ->
  constructed fuel ws embeddings name thr dp mo cluster ->
  Forall (fun c => 1 <= input_dim c /\ 1 <= output_dim c) embeddings ->
  Forall2 shaped embeddings W ->
  nth_error cluster r = Some w ->
  exists arrays,
    local_slices (table_ids_list (plan (layer w))) (rank (layer w)) W = Ok arrays
    /\ Forall2 shaped (local_embedding_layers (layer w)) arrays.
Proof.
  intros Hws Hcluster Hdims HW Hw.
  assert (ws <> 1%nat) as Hmulti by lia.
  pose proof Hcluster as [Hlen Hall].
  destruct (Hall r w Hw) as [Hinit _].
  apply DistributedEmbedding_init_layer in Hinit.
  destruct Hinit as (Hsup & Hemb & s & Hs & _).
  destruct (init_inv _ _ _ _ _ _ _ _ Hs Hmulti) as (sliced & ranges & tids & Hsl & Ht).
  destruct (worker_layer fuel embeddings ws name thr (effective_map embeddings mo) sliced ranges tids
              ltac:(lia) Hsup Hsl Ht dp mo cluster Hmulti eq_refl Hcluster r w Hw)
    as [Hr Hl].
  assert (Forall (fun c => output_dim c <= largest (map output_dim embeddings))
                 embeddings) as Hchunk.
  { apply Forall_forall. intros c Hc. apply largest_ge. now apply in_map. }
  destruct (row_shaped fuel embeddings ws name thr (effective_map embeddings mo) sliced ranges tids
              ltac:(lia) Hsup Hemb Hdims Hsl Ht W _ Hmulti HW Hchunk r Hr)
    as (Hsh & _ & _).
  assert (length tids = ws) as Htl
    by (apply (tids_length ws name sliced tids); [lia|assumption..]).
  rewrite !per_worker_nth in Hsh by lia. cbn [app] in Hsh.
  rewrite Hl.
  cbn [layer_of plan rank planned_strategy table_ids_list local_embedding_layers
       local_configs].
  rewrite per_worker_nth by lia. cbn [app].
  eexists. split.
  - apply local_slices_spec.
    + lia.
    + pose proof (tids_nonempty fuel embeddings ws name thr (effective_map embeddings mo) sliced ranges tids
                    ltac:(lia) Hemb Hdims Hsl Ht) as Hne.
      rewrite Forall_forall in Hne. apply Hne. apply nth_In. lia.
    + intros t Hin. rewrite <- (Forall2_length HW).
      apply (tids_in_range fuel embeddings ws name thr (effective_map embeddings mo) sliced ranges tids);
        try assumption. lia.
  - apply Forall2_map_l. exact Hsh.
Qed.

Lemma local_slices_fit_local_layers_witness :
  exists arrays,
    local_slices
      (table_ids_list (plan (layer (nth 1 example_cluster example_rank1))))
      (rank (layer (nth 1 example_cluster example_rank1))) example_weights
    = Ok arrays
    /\ Forall2 shaped
         (local_embedding_layers (layer (nth 1 example_cluster example_rank1)))
         arrays.
Proof.
  apply (local_slices_fit_local_layers 10 2 example_embeddings "basic" (Some 4)
           true None example_cluster example_weights 1
           (nth 1 example_cluster example_rank1)).
  - lia.
  - exact example_constructed.
  - repeat constructor; simpl; lia.
  - exact example_shaped.
  - reflexivity.
Defined.

(** ** The group that the constructor builds *)

Lemma Forall2_map_l_inv {A B C : Type} (f : A -> B) (R : B -> C -> Prop)
  (l1 : list A) (l2 : list C) :
  Forall2 R (map f l1) l2 -> Forall2 (fun x y => R (f x) y) l1 l2.
Proof.
  revert l2. induction l1 as [|x l1 IH]; intros l2 H; inversion H; subst;
    constructor; auto.
Qed.

Lemma zeros_shaped {V : Type} (zero : V) (embeddings : list Config) :
  Forall2 shaped embeddings
          (map (fun c => repeat (repeat zero (Z.to_nat (output_dim c)))
                                (Z.to_nat (input_dim c))) embeddings).
Proof.
  induction embeddings as [|c embeddings IH]; cbn [map]; constructor; [|exact IH].
  split; [apply repeat_length|].
  apply Forall_forall. intros row Hrow. apply repeat_spec in Hrow. subst row.
  apply repeat_length.
Qed.

Lemma constructed_gather {V : Type} (zero : V) (fuel ws : nat)
  (embeddings : list Config) (name : string) (thr : option Z) (dp : bool)
  (mo : option (list Z)) (cluster : list (@Worker V)) :
  (2 <= ws)%nat ->
  constructed fuel ws embeddings name thr dp mo cluster ->
  Forall (fun c => 1 <= input_dim c /\ 1 <= output_dim c) embeddings ->
  exists sliced ranges tids,
    create_sliced_configs fuel embeddings ws thr (effective_map embeddings mo)
    = Ok (sliced, ranges)
    /\ apply_stragety name ws sliced = Ok tids
    /\ In name supported_strategies
    /\ (ws <= length embeddings)%nat
    /\ (forall r w, nth_error cluster r = Some w ->
                    (r < ws)%nat
                    /\ layer w = layer_of ws r dp thr
                                   (planned_strategy embeddings name
                                      (effective_map embeddings mo) sliced ranges
                                      tids r))
    /\ Forall2 (fun cs w => Forall2 shaped cs (weights w))
               (per_worker (slice_config sliced) [] tids) cluster
    /\ Forall (Forall (fun c => 1 <= input_dim c /\ 1 <= output_dim c))
              (per_worker (slice_config sliced) [] tids)
    /\ Forall (fun cs => cs <> []) (per_worker (slice_config sliced) [] tids).
Proof.
  intros Hws Hcluster Hdims.
  assert (ws <> 1%nat) as Hmulti by lia.
  pose proof Hcluster as [Hlen Hall].
  destruct (nth_error cluster 0) as [w0|] eqn:Hw0;
    [|apply nth_error_None in Hw0; lia].
  destruct (Hall 0%nat w0 Hw0) as [Hinit _].
  apply DistributedEmbedding_init_layer in Hinit.
  destruct Hinit as (Hsup & Hemb & s & Hs & _).
  destruct (init_inv _ _ _ _ _ _ _ _ Hs Hmulti) as (sliced & ranges & tids & Hsl & Ht).
  set (m := effective_map embeddings mo) in *.
  exists sliced, ranges, tids.
  assert (forall r w, nth_error cluster r = Some w ->
                      (r < ws)%nat
                      /\ layer w = layer_of ws r dp thr
                                     (planned_strategy embeddings name m sliced
                                        ranges tids r)) as Hlayer.
  { intros r w Hw.
    exact (worker_layer fuel embeddings ws name thr m sliced ranges tids
             ltac:(lia) Hsup Hsl Ht dp mo cluster Hmulti eq_refl Hcluster r w Hw). }
  assert (length tids = ws) as Htl
    by (apply (tids_length ws name sliced tids); [lia|assumption..]).
  assert (Forall (fun c => output_dim c <= largest (map output_dim embeddings))
                 embeddings) as Hchunk.
  { apply Forall_forall. intros c Hc. apply largest_ge. now apply in_map. }
  pose proof (fun r Hr =>
                row_shaped fuel embeddings ws name thr m sliced ranges tids
                  ltac:(lia) Hsup Hemb Hdims Hsl Ht _ _ Hmulti
                  (zeros_shaped zero embeddings) Hchunk r Hr) as Hrow.
  repeat (split; [assumption|]).
  split; [|split].
  - apply Forall2_nth_error_intro.
    + now rewrite per_worker_length, Htl.
    + intros k cs w Hcs Hw.
      destruct (Hall k w Hw) as [_ Hvars].
      destruct (Hlayer k w Hw) as [Hk Hl]. rewrite Hl in Hvars.
      cbn [layer_of local_embedding_layers planned_strategy local_configs] in Hvars.
      rewrite (nth_error_nth _ _ [] Hcs) in Hvars.
      apply Forall2_map_l_inv in Hvars. exact Hvars.
  - apply Forall_forall. intros cs Hcs. apply In_nth with (d := []) in Hcs.
    destruct Hcs as (r & Hr & <-). rewrite per_worker_length, Htl in Hr.
    destruct (Hrow r Hr) as (_ & Hd & _).
    eapply Forall_impl; [|exact Hd]. cbv beta. intros c Hc. lia.
  - apply Forall_forall. intros cs Hcs. apply In_nth with (d := []) in Hcs.
    destruct Hcs as (r & Hr & <-). rewrite per_worker_length, Htl in Hr.
    now destruct (Hrow r Hr) as (_ & _ & Hne).
Qed.

(** ** The size of the all-gathers *)

Lemma gather_num_chunks_covers (ws : nat) (cfgs : list (list Config))
  (cs : list Config) :
  In cs cfgs ->
  ceil_div (Z.of_nat ws * Py.sum (map elements cs)) gather_chunking_threshold
  <= gather_num_chunks ws cfgs.
Proof.
  unfold gather_num_chunks.
  assert (forall l init,
             init <= fold_left
                       (fun num_chunks local_configs =>
                          Z.max num_chunks
                            (ceil_div (Z.of_nat ws * Py.sum (map elements local_configs))
                                      gather_chunking_threshold)) l init
             /\ (In cs l ->
                 ceil_div (Z.of_nat ws * Py.sum (map elements cs))
                          gather_chunking_threshold
                 <= fold_left
                      (fun num_chunks local_configs =>
                         Z.max num_chunks
                           (ceil_div (Z.of_nat ws * Py.sum (map elements local_configs))
                                     gather_chunking_threshold)) l init)) as G.
  { induction l as [|x l IH]; intros init; cbn [fold_left].
    - split; [lia|]. intros [].
    - destruct (IH (Z.max init
                      (ceil_div (Z.of_nat ws * Py.sum (map elements x))
                                gather_chunking_threshold))) as [H1 H2].
      split; [lia|]. intros [->|Hin]; [lia|]. now apply H2. }
  intros Hin. now apply G.
Qed.

Lemma chunk_sizes_nth (L nc i : nat) :
  (1 <= nc)%nat -> (i < nc)%nat ->
  nth i (chunk_sizes_of L nc) 0%nat
  = if (i =? nc - 1)%nat then (L - L / nc * (nc - 1))%nat else (L / nc)%nat.
Proof.
  intros Hnc Hi. unfold chunk_sizes_of.
  destruct (Nat.eqb_spec i (nc - 1)) as [->|Hne].
  - rewrite app_nth2 by (rewrite repeat_length; lia).
    rewrite repeat_length, Nat.sub_diag. reflexivity.
  - rewrite app_nth1 by (rewrite repeat_length; lia).
    rewrite (nth_indep _ 0%nat (L / nc)%nat) by (rewrite repeat_length; lia).
    apply nth_repeat.
Qed.

Lemma chunk_bound (ws L nc : nat) (T : Z) :
  (1 <= nc)%nat -> (1 <= ws)%nat ->
  Z.of_nat ws * Z.of_nat L <= Z.of_nat nc * T ->
  Z.of_nat ws * Z.of_nat (L / nc) <= T
  /\ Z.of_nat ws * Z.of_nat (L - L / nc * (nc - 1))
     <= T + Z.of_nat ws * (Z.of_nat nc - 1).
Proof.
  intros Hnc Hws Hle.
  pose proof (Nat.div_mod_eq L nc) as Hdm.
  pose proof (Nat.mod_upper_bound L nc ltac:(lia)) as Hmod.
  set (q := (L / nc)%nat) in *. set (r := (L mod nc)%nat) in *.
  assert (Z.of_nat ws * Z.of_nat q <= T) as Hq by nia.
  split; [exact Hq|].
  replace (L - q * (nc - 1))%nat with (q + r)%nat by nia.
  nia.
Qed.

Lemma sum_bound (k B : Z) (xs : list nat) :
  Forall (fun x => k * Z.of_nat x <= B) xs ->
  k * Z.of_nat (Py.sumn xs) <= Z.of_nat (length xs) * B.
Proof.
  induction 1 as [|x xs Hx _ IH]; cbn [Py.sumn fold_right length]; [lia|].
  unfold Py.sumn in IH. lia.
Qed.




(** * Edge behaviour of the forward pass, and [broadcast_variables] *)

Lemma mapM_getnat_missing {A : Type} (l : list A) (ids : list nat) (index : nat) :
  In index ids -> (length l <= index)%nat ->
  mapM (Py.getnat l) ids = Raise IndexError.
Proof.
  intros Hin Hout. induction ids as [|i ids IH]; [destruct Hin|].
  cbn [mapM]. unfold Py.getnat at 1.
  destruct (nth_error l i) as [x|] eqn:Hx; [|reflexivity].
  cbn [bind]. destruct Hin as [-> | Hin].
  - apply nth_error_None in Hout. congruence.
  - now rewrite (IH Hin).
Qed.

Lemma mapM_getnat_total {A : Type} (l : list A) (ids : list nat) :
  (exists xs, mapM (Py.getnat l) ids = Ok xs)
  \/ mapM (Py.getnat l) ids = Raise IndexError.
Proof.
  induction ids as [|i ids IH]; [left; now exists []|].
  cbn [mapM]. unfold Py.getnat at 1 3.
  destruct (nth_error l i) as [x|]; [|now right]. cbn [bind].
  destruct IH as [[xs ->] | ->]; [left; now exists (x :: xs)|now right].
Qed.

Lemma reshard_missing (inputs : list Tensor) (idss : list (list nat))
  (ids : list nat) (index : nat) :
  In ids idss -> In index ids -> (length inputs <= index)%nat ->
  forall st, foldM (reshard_step inputs) idss st = Raise IndexError.
Proof.
  intros Hids Hin Hout. induction idss as [|ids' idss IH]; [destruct Hids|].
  intros st. cbn [foldM]. unfold reshard_step at 1.
  destruct (mapM_getnat_total inputs ids') as [[xs E]|E]; rewrite E; cbn [bind];
    [|reflexivity].
  destruct Hids as [-> | Hids].
  - rewrite (mapM_getnat_missing inputs ids index Hin Hout) in E. discriminate.
  - apply IH. exact Hids.
Qed.

(** X15: on the multi-worker path a worker that is given fewer inputs than
    the strategy addresses does not get past the preparation of the first
    exchange: as soon as one index of [input_ids_list] is not a position of
    [inputs], [inputs[index]] raises [IndexError]. *)
Theorem missing_input_raises (s : Strategy) (inputs : list Tensor)
  (ids : list nat) (index : nat) :
  In ids (input_ids_list s) -> In index ids -> (length inputs <= index)%nat ->
  dp_to_mp_send s inputs = Raise IndexError.
Proof.
  intros Hids Hin Hout. unfold dp_to_mp_send. cbv zeta.
  rewrite (reshard_missing _ (input_ids_list s) ids index Hids Hin); [reflexivity|].
  now rewrite length_map.
Qed.

Lemma missing_input_raises_witness :
  dp_to_mp_send (plan (layer example_rank1)) [mkTensor int32 [2%nat] [0; 1]]
  = Raise IndexError.
Proof.
  apply (missing_input_raises (plan (layer example_rank1))
           [mkTensor int32 [2%nat] [0; 1]] [0%nat; 1%nat] 1%nat).
  - vm_compute. auto.
  - simpl. auto.
  - simpl. lia.
Defined.

(** X16: a single worker pairs its inputs with the table map by [zip]:
    inputs beyond the map are ignored and entries of the map beyond the
    inputs give no output, without an error.  Output [g] is the lookup of
    input [g] in table [local_input_table_map[g]], cast to the compute
    dtype. *)
Theorem single_worker_zip {V : Type} (lookup : list (list V) -> list Z -> list V)
  (cast : V -> V) (self : @Worker V) (inputs : list Tensor) :
  world_size (layer self) = 1%nat ->
  Forall (fun m => 0 <= m < Z.of_nat (length (weights self)))
         (local_input_table_map (plan (layer self))) ->
  Forall (fun inp => shape inp <> []) inputs ->
  exists outputs,
    call lookup cast [self] [inputs] 0 = Ok outputs
    /\ length outputs
       = Nat.min (length (local_input_table_map (plan (layer self)))) (length inputs)
    /\ forall g m inp,
         nth_error (local_input_table_map (plan (layer self))) g = Some m ->
         nth_error inputs g = Some inp ->
         nth_error outputs g
         = Some (map (fun row =>
                        map cast (lookup (nth (Z.to_nat m) (weights self) []) row))
                     (rows_of (hd 0%nat (shape inp)) (num_elements (tl (shape inp)))
                              (data inp))).
Proof.
  intros Hsize Hmap Hshape.
  set (look := fun p : Z * Tensor =>
                 map (lookup (nth (Z.to_nat (fst p)) (weights self) []))
                     (rows_of (hd 0%nat (shape (snd p)))
                              (num_elements (tl (shape (snd p)))) (data (snd p)))).
  exists (map (map (map cast))
              (map look (combine (local_input_table_map (plan (layer self))) inputs))).
  split; [|split].
  - unfold call. cbn [Py.getnat nth_error bind]. rewrite Hsize. cbn [Nat.eqb bind].
    unfold local_lookups. rewrite (mapM_map _ look); [reflexivity|].
    intros [m inp] Hin. pose proof (in_combine_l _ _ _ _ Hin) as Hm.
    pose proof (in_combine_r _ _ _ _ Hin) as Hi.
    pose proof (proj1 (Forall_forall _ _) Hmap m Hm) as Hr. cbv beta in Hr.
    pose proof (proj1 (Forall_forall _ _) Hshape inp Hi) as Hs. cbv beta in Hs.
    replace m with (Z.of_nat (Z.to_nat m)) at 1 by lia.
    assert (Z.to_nat m < length (weights self))%nat as Hlt by lia.
    rewrite (getitem_nat _ _ _ (nth_error_nth' _ [] Hlt)). cbn [bind].
    unfold embedding_call, samples, look. cbn [fst snd].
    destruct (shape inp) as [|b rest]; [congruence|]. reflexivity.
  - now rewrite !length_map, length_combine.
  - intros g m inp Hm Hi. rewrite !nth_error_map.
    rewrite (nth_error_combine _ _ g m inp Hm Hi). cbn [option_map].
    unfold look. cbn [fst snd]. now rewrite map_map.
Qed.

Lemma single_worker_zip_witness :
  exists outputs,
    call row_lookup (fun v => v) example_single
         [[mkTensor int32 [2%nat] [0; 1]]] 0 = Ok outputs
    /\ length outputs = 1%nat.
Proof.
  destruct (single_worker_zip row_lookup (fun v => v)
              (nth 0 example_single example_rank1)
              [mkTensor int32 [2%nat] [0; 1]])
    as (outputs & Hcall & Hlen & _).
  - reflexivity.
  - vm_compute. repeat constructor; discriminate.
  - repeat constructor. discriminate.
  - exists outputs. split; [exact Hcall|exact Hlen].
Defined.

Lemma sort_variables_spec (model_vars : list variable) :
  sort_variables model_vars
  = (filter (fun var => negb (is_mp var)) model_vars, filter is_mp model_vars).
Proof.
  unfold sort_variables.
  assert (forall dp mp,
             fold_left (fun '(dp_vars, mp_vars) var =>
                          if sync_eqb (synchronization var) NONE
                          then (dp_vars, mp_vars ++ [var])
                          else (dp_vars ++ [var], mp_vars))
                       model_vars (dp, mp)
             = (dp ++ filter (fun var => negb (is_mp var)) model_vars,
                mp ++ filter is_mp model_vars)) as G.
  { induction model_vars as [|v vars IH]; intros dp mp; cbn [fold_left filter].
    - now rewrite !app_nil_r.
    - pose proof (eq_refl : is_mp v = sync_eqb (synchronization v) NONE) as E.
      destruct (is_mp v); rewrite <- E; cbn [negb]; rewrite IH, <- ?app_assoc;
        reflexivity. }
  exact (G [] []).
Qed.

(** X17: [broadcast_variables] hands to Horovod the variables whose
    synchronization is not NONE, all of them and in the order of
    [model_vars], with the root rank it was given: a model-parallel
    variable is never broadcast. *)
Theorem broadcast_skips_model_parallel (model_vars : list variable)
  (root_rank : nat) :
  broadcast_variables model_vars root_rank
  = (filter (fun var => negb (sync_eqb (synchronization var) NONE)) model_vars,
     root_rank).
Proof.
  unfold broadcast_variables. rewrite sort_variables_spec. reflexivity.
Qed.

(** X18: the cast to the dtype of the exchange never alters an index: the
    dtype is [int64] as soon as one input is, so that no [int64] input is
    narrowed; every input keeps its shape and its values and all inputs
    leave with one dtype. *)
Theorem cast_keeps_indices (inputs : list Tensor) (inp : Tensor) :
  In inp inputs ->
  data (tf_cast inp (comm_dtype inputs)) = data inp
  /\ shape (tf_cast inp (comm_dtype inputs)) = shape inp
  /\ dtype (tf_cast inp (comm_dtype inputs)) = comm_dtype inputs
  /\ (dtype inp = int64 -> comm_dtype inputs = int64).
Proof.
  intros Hin. rewrite (tf_cast_comm inputs inp Hin). cbn [data shape dtype].
  repeat split. intros E. rewrite comm_dtype_spec.
  replace (existsb (fun inp => dtype_eqb (dtype inp) int64) inputs) with true;
    [reflexivity|].
  symmetry. apply existsb_exists. exists inp. split; [exact Hin|]. now rewrite E.
Qed.

Lemma cast_keeps_indices_witness :
  data (tf_cast (mkTensor int64 [2%nat] [2; 4294967296])
          (comm_dtype [mkTensor int32 [2%nat] [0; 1];
                       mkTensor int64 [2%nat] [2; 4294967296]]))
  = [2; 4294967296].
Proof.
  destruct (cast_keeps_indices
              [mkTensor int32 [2%nat] [0; 1]; mkTensor int64 [2%nat] [2; 4294967296]]
              (mkTensor int64 [2%nat] [2; 4294967296])) as (Hd & _).
  - simpl. auto.
  - exact Hd.
Defined.


(** * Saving and restoring the weights of a group *)

Lemma with_occurrence_ext_from {A : Type} (F G : nat -> nat -> A) (l : list nat) :
  forall pre,
    (forall t j, (Py.count pre t <= j)%nat -> F t j = G t j) ->
    with_occurrence F pre l = with_occurrence G pre l.
Proof.
  induction l as [|t l IH]; intros pre H; [reflexivity|].
  cbn [with_occurrence]. f_equal.
  - apply H. lia.
  - apply IH. intros t' j Hj. apply H. rewrite count_snoc in Hj. lia.
Qed.

(** Any list of values carried by a list of keys is determined by the
    values of each key, in order of occurrence. *)
Lemma occurrence_form {A : Type} (d : A) (ks : list nat) :
  forall (xs : list A) (pre : list nat),
    length xs = length ks ->
    xs = with_occurrence
           (fun t j =>
              nth (j - Py.count pre t)
                  (map snd (filter (fun e : nat * A => (fst e =? t)%nat)
                                   (combine ks xs))) d)
           pre ks.
Proof.
  induction ks as [|k ks IH]; intros [|x xs] pre Hlen; simpl in Hlen;
    try discriminate; [reflexivity|].
  cbn [with_occurrence]. f_equal.
  - cbn [combine filter fst]. rewrite Nat.eqb_refl. cbn [map snd].
    now rewrite Nat.sub_diag.
  - etransitivity; [apply (IH xs (pre ++ [k])); lia|].
    apply with_occurrence_ext_from. intros t j Hj. rewrite count_snoc in *.
    cbn [combine filter fst].
    destruct (Nat.eqb_spec k t) as [->|Hne].
    + rewrite Nat.eqb_refl in *. cbn [map snd].
      replace (j - Py.count pre t)%nat with (S (j - (Py.count pre t + 1)))%nat by lia.
      reflexivity.
    + destruct (Nat.eqb_spec t k) as [->|_]; [congruence|].
      now rewrite Nat.add_0_r.
Qed.

Lemma Forall2_with_occurrence_inv {A B : Type} (R : A -> B -> Prop)
  (F : nat -> nat -> A) (G : nat -> nat -> B) (l : list nat) :
  forall pre,
    Forall2 R (with_occurrence F pre l) (with_occurrence G pre l) ->
    forall t j, (Py.count pre t <= j < Py.count (pre ++ l) t)%nat ->
                R (F t j) (G t j).
Proof.
  induction l as [|a l IH]; intros pre H t j Hj.
  - rewrite app_nil_r in Hj. lia.
  - cbn [with_occurrence] in H. inversion H as [|? ? ? ? Hhd Htl]; subst.
    destruct (Nat.eq_dec t a) as [->|Hne].
    + destruct (Nat.eq_dec j (Py.count pre a)) as [->|Hj'].
      * exact Hhd.
      * apply (IH (pre ++ [a]) Htl).
        rewrite <- app_assoc, count_snoc, Nat.eqb_refl. cbn [app]. lia.
    + apply (IH (pre ++ [a]) Htl).
      rewrite <- app_assoc, count_snoc. cbn [app].
      destruct (Nat.eqb_spec t a); [congruence|]. lia.
Qed.

Lemma slice_concat_block {A : Type} (blocks : list (list A)) :
  forall j, (j < length blocks)%nat ->
    Py.slice (concat blocks)
             (Py.sumn (map (@length A) (firstn j blocks)))
             (Py.sumn (map (@length A) (firstn (S j) blocks)))
    = nth j blocks [].
Proof.
  unfold Py.slice.
  induction blocks as [|b blocks IH]; intros j Hj; simpl in Hj; [lia|].
  destruct j as [|j].
  - cbn [firstn map Py.sumn fold_right concat nth skipn].
    rewrite Nat.add_0_r, Nat.sub_0_r, firstn_app, Nat.sub_diag.
    cbn [firstn]. now rewrite firstn_all, app_nil_r.
  - specialize (IH j ltac:(lia)).
    change (firstn (S (S j)) (b :: blocks)) with (b :: firstn (S j) blocks).
    change (firstn (S j) (b :: blocks)) with (b :: firstn j blocks).
    cbn [map Py.sumn fold_right concat nth] in *.
    rewrite skipn_app, (@skipn_all2 _ _ b) by lia. cbn [app].
    replace (length b + fold_right Nat.add 0 (map (@length A) (firstn j blocks))
             - length b)%nat
      with (fold_right Nat.add 0 (map (@length A) (firstn j blocks)))%nat by lia.
    rewrite <- IH. unfold Py.sumn. f_equal. lia.
Qed.

Lemma slice_start_sum (od k j : nat) :
  (1 <= k)%nat -> (j <= k)%nat ->
  slice_start od k j
  = Py.sumn (map (fun i => Z.to_nat (even_width (Z.of_nat od) k i)) (seq 0 j)).
Proof.
  intros Hk. induction j as [|j IH]; intros Hj.
  - apply slice_start_0.
  - rewrite seq_S, map_app, sumn_app, <- IH by lia. cbn [map Py.sumn fold_right Nat.add].
    rewrite <- (slice_width od k j Hk) by lia. rewrite Nat2Z.id.
    pose proof (slice_start_mono od k j) as Hm.
    replace (S j) with (j + 1)%nat by lia. lia.
Qed.

Lemma Forall2_concat_rows {A B : Type} (R : A -> B -> Prop)
  (l1 : list (list A)) (l2 : list (list B)) :
  Forall2 (Forall2 R) l1 l2 -> Forall2 R (concat l1) (concat l2).
Proof.
  induction 1 as [|a b l1 l2 Hab _ IH]; cbn [concat]; [constructor|].
  now apply Forall2_app.
Qed.

Lemma concat_same_lengths {A : Type} (l1 l2 : list (list A)) :
  map (@length A) l1 = map (@length A) l2 -> concat l1 = concat l2 -> l1 = l2.
Proof.
  revert l2. induction l1 as [|a l1 IH]; intros [|b l2] Hl Hc; simpl in Hl;
    try discriminate; [reflexivity|].
  injection Hl as Hab Hl. cbn [concat] in Hc.
  assert (a = b) as ->.
  { apply (f_equal (firstn (length a))) in Hc.
    rewrite firstn_app, Nat.sub_diag, firstn_all in Hc. cbn [firstn] in Hc.
    rewrite Hab, firstn_app, Nat.sub_diag, firstn_all in Hc. cbn [firstn] in Hc.
    now rewrite !app_nil_r in Hc. }
  f_equal. apply IH; [exact Hl|]. now apply app_inv_head in Hc.
Qed.

Lemma per_worker_lengths {A : Type} (F : nat -> nat -> A) (tids : list (list nat)) :
  forall pre, map (@length A) (per_worker F pre tids) = map (@length nat) tids.
Proof.
  induction tids as [|r tids IH]; intros pre; cbn [per_worker map]; [reflexivity|].
  now rewrite with_occurrence_length, IH.
Qed.

Lemma workers_eta {V : Type} (cluster : list (@Worker V)) :
  map (fun p : @Worker V * list (list (list V)) => mkWorker (layer (fst p)) (snd p))
      (combine cluster (map weights cluster))
  = cluster.
Proof.
  induction cluster as [|[l w] cluster IH]; cbn [map combine fst snd layer weights];
    [reflexivity|].
  now rewrite IH.
Qed.

Lemma Forall2_map_r {A B C : Type} (f : B -> C) (R : A -> C -> Prop)
  (l1 : list A) (l2 : list B) :
  Forall2 (fun x y => R x (f y)) l1 l2 -> Forall2 R l1 (map f l2).
Proof. induction 1; cbn [map]; constructor; assumption. Qed.

Lemma Forall2_lengths {A B : Type} (R : A -> B -> Prop)
  (l1 : list (list A)) (l2 : list (list B)) :
  Forall2 (Forall2 R) l1 l2 -> map (@length A) l1 = map (@length B) l2.
Proof.
  induction 1 as [|a b l1 l2 Hab _ IH]; cbn [map]; [reflexivity|].
  now rewrite IH, (Forall2_length Hab).
Qed.

Lemma firstn_seq_le (j : nat) :
  forall a k, (j <= k)%nat -> firstn j (seq a k) = seq a j.
Proof.
  induction j as [|j IH]; intros a [|k] H; try reflexivity; [lia|].
  cbn [seq firstn]. f_equal. apply IH. lia.
Qed.

Section Restore.
Variables (fuel : nat) (embeddings : list Config) (ws : nat) (name : string)
          (thr : option Z) (m : list Z).
Variables (sliced : list (list Config)) (ranges : list (nat * nat))
          (tids : list (list nat)).
Hypothesis Hws : (1 <= ws)%nat.
Hypothesis Hsup : In name supported_strategies.
Hypothesis Hemb : (ws <= length embeddings)%nat.
Hypothesis Hdims :
  Forall (fun c => 1 <= input_dim c /\ 1 <= output_dim c) embeddings.
Hypothesis Hsliced :
  create_sliced_configs fuel embeddings ws thr m = Ok (sliced, ranges).
Hypothesis Htids : apply_stragety name ws sliced = Ok tids.
Context {V : Type}.
Variable cluster : list (@Worker V).
Hypothesis Hshapes :
  Forall2 (fun cs w => Forall2 shaped cs (weights w))
          (per_worker (slice_config sliced) [] tids) cluster.

(** The slices of table [t] that the workers hold, in rank order. *)
Let piece (t j : nat) : list (list V) :=
  nth j (map snd (filter (fun e : nat * list (list V) => (fst e =? t)%nat)
                         (combine (concat tids) (concat (map weights cluster)))))
      [].

(** The slices of table [t] side by side. *)
Let whole (t : nat) : list (list V) :=
  map (fun i => concat (map (fun j => nth i (piece t j) [])
                            (seq 0 (Py.count (concat tids) t))))
      (seq 0 (Z.to_nat (input_dim (nth t embeddings (mkConfig 0 0 []))))).

Let saved : list (list (list V)) := map whole (seq 0 (length embeddings)).

Lemma flat_shapes :
  Forall2 shaped (with_occurrence (slice_config sliced) [] (concat tids))
          (concat (map weights cluster)).
Proof.
  rewrite <- per_worker_concat. apply Forall2_concat_rows.
  apply Forall2_map_r. exact Hshapes.
Qed.

Lemma held_length : length (concat (map weights cluster)) = length (concat tids).
Proof.
  rewrite <- (Forall2_length flat_shapes). apply with_occurrence_length.
Qed.

Lemma held_form :
  concat (map weights cluster) = with_occurrence piece [] (concat tids).
Proof.
  etransitivity; [apply (occurrence_form [] (concat tids) _ [] held_length)|].
  apply with_occurrence_ext_from. intros t j _. unfold piece.
  change (Py.count [] t) with 0%nat. now rewrite Nat.sub_0_r.
Qed.

Lemma piece_shaped (t j : nat) (c : Config) :
  nth_error embeddings t = Some c ->
  (j < Py.count (concat tids) t)%nat ->
  has_shape (Z.to_nat (input_dim c))
            (Z.to_nat (even_width (output_dim c) (Py.count (concat tids) t) j))
            (piece t j).
Proof.
  intros Hc Hj. pose proof flat_shapes as H. rewrite held_form in H.
  pose proof (Forall2_with_occurrence_inv _ _ _ _ [] H t j) as Hs.
  cbn [app] in Hs. specialize (Hs ltac:(change (Py.count [] t) with 0%nat; lia)).
  rewrite (slice_config_form fuel embeddings ws name thr m sliced ranges tids
             Hws Hsup Hdims Hsliced Htids t j c Hc Hj) in Hs.
  exact Hs.
Qed.

Lemma table_facts (t : nat) (c : Config) :
  nth_error embeddings t = Some c ->
  nth t embeddings (mkConfig 0 0 []) = c
  /\ 1 <= input_dim c /\ 1 <= output_dim c
  /\ (1 <= Py.count (concat tids) t)%nat.
Proof.
  intros Hc. split; [exact (nth_error_nth _ _ _ Hc)|].
  pose proof (proj1 (Forall_forall _ _) Hdims c (nth_error_In _ _ Hc)) as [Hi Ho].
  destruct (table_slices fuel embeddings ws name thr m sliced ranges tids
              Hws Hsup Hdims Hsliced Htids t c Hc) as (Hk & _).
  auto.
Qed.

Lemma block_lengths (t : nat) (c : Config) (i j : nat) :
  nth_error embeddings t = Some c ->
  (i < Z.to_nat (input_dim c))%nat ->
  (j <= Py.count (concat tids) t)%nat ->
  Py.sumn (map (@length V)
               (firstn j (map (fun j => nth i (piece t j) [])
                              (seq 0 (Py.count (concat tids) t)))))
  = slice_start (Z.to_nat (output_dim c)) (Py.count (concat tids) t) j.
Proof.
  intros Hc Hi Hj. destruct (table_facts t c Hc) as (_ & _ & Ho & Hk).
  rewrite (slice_start_sum _ _ j Hk Hj), Z2Nat.id by lia.
  rewrite firstn_map, (firstn_seq_le j 0 _ Hj), map_map.
  f_equal. apply map_ext_in. intros j' Hj'. apply in_seq in Hj'.
  destruct (piece_shaped t j' c Hc ltac:(lia)) as [Hr Hw].
  rewrite Forall_forall in Hw. apply Hw. apply nth_In. lia.
Qed.

Lemma whole_shaped (t : nat) (c : Config) :
  nth_error embeddings t = Some c -> shaped c (whole t).
Proof.
  intros Hc. destruct (table_facts t c Hc) as (Hn & Hi & Ho & Hk).
  unfold shaped, whole. rewrite Hn. split.
  - now rewrite length_map, length_seq.
  - apply Forall_map, Forall_forall. intros i Hin. apply in_seq in Hin.
    rewrite concat_map_length.
    pose proof (block_lengths t c i (Py.count (concat tids) t) Hc ltac:(lia)
                  ltac:(lia)) as E.
    rewrite firstn_all2 in E by (rewrite length_map, length_seq; lia).
    rewrite E. now apply slice_start_end.
Qed.

Lemma saved_nth (t : nat) :
  (t < length embeddings)%nat -> nth t saved [] = whole t.
Proof.
  intros Ht. unfold saved.
  rewrite (nth_indep _ [] (whole 0)) by (now rewrite length_map, length_seq).
  rewrite (map_nth whole), seq_nth by exact Ht. reflexivity.
Qed.

Lemma saved_shaped : Forall2 shaped embeddings saved.
Proof.
  apply Forall2_nth_error_intro.
  - unfold saved. now rewrite length_map, length_seq.
  - intros t c a Hc Ha.
    assert (t < length embeddings)%nat as Ht by (apply nth_error_Some; congruence).
    apply (nth_error_nth _ _ []) in Ha. rewrite saved_nth in Ha by exact Ht.
    subst a. now apply whole_shaped.
Qed.

Lemma saved_slice (t j : nat) (c : Config) :
  nth_error embeddings t = Some c ->
  (j < Py.count (concat tids) t)%nat ->
  weight_slice saved tids t j = piece t j.
Proof.
  intros Hc Hj. destruct (table_facts t c Hc) as (Hn & Hi & Ho & Hk).
  assert (t < length embeddings)%nat as Ht by (apply nth_error_Some; congruence).
  unfold weight_slice. cbv zeta. rewrite (saved_nth t Ht).
  destruct (shape_of _ _ _ (whole_shaped t c Hc) ltac:(lia)) as [_ ->].
  destruct (piece_shaped t j c Hc Hj) as [Hr _].
  etransitivity; [|apply (map_nth_seq (piece t j) [])]. rewrite Hr.
  unfold columns, whole. rewrite Hn, map_map.
  apply map_ext_in. intros i Hin. apply in_seq in Hin.
  rewrite <- (block_lengths t c i j Hc) by lia.
  replace (j + 1)%nat with (S j) by lia.
  rewrite <- (block_lengths t c i (S j) Hc) by lia.
  rewrite slice_concat_block by (rewrite length_map, length_seq; exact Hj).
  rewrite (nth_indep _ [] (nth i (piece t 0) []))
    by (rewrite length_map, length_seq; exact Hj).
  rewrite (map_nth (fun j => nth i (piece t j) [])), seq_nth by exact Hj.
  reflexivity.
Qed.

Lemma held_as_slices :
  map weights cluster = per_worker (weight_slice saved tids) [] tids.
Proof.
  apply concat_same_lengths.
  - rewrite per_worker_lengths.
    rewrite <- (per_worker_lengths (slice_config sliced) tids []).
    symmetry. apply (Forall2_lengths shaped). apply Forall2_map_r. exact Hshapes.
  - rewrite per_worker_concat, held_form. apply with_occurrence_ext.
    intros t j Hj. cbn [app] in Hj. symmetry.
    assert (In t (concat tids)) as Hin by (apply In_count_pos; lia).
    pose proof (tids_in_range fuel embeddings ws name thr m sliced ranges tids
                  Hws Hsup Hemb Hdims Hsliced Htids t Hin) as Ht.
    destruct (nth_error embeddings t) as [c|] eqn:Hc;
      [|apply nth_error_None in Hc; lia].
    exact (saved_slice t j c Hc Hj).
Qed.

(** What the workers hold are the slices of some global weights. *)
Lemma held_saved :
  exists W, Forall2 shaped embeddings W
            /\ map weights cluster = per_worker (weight_slice W tids) [] tids.
Proof. exists saved. split; [exact saved_shaped|exact held_as_slices]. Qed.

End Restore.

(** X19: saving and restoring leaves a group as it is.  In a constructed
    group of at least two workers, whatever the local variables hold,
    [get_weights()] on rank 0 (and [get_weights(all_ranks=True)] on every
    rank) returns one array per table, of the table's shape, and
    [set_weights] of these arrays on every worker gives every worker the
    weights it had.  (Tables with [input_dim >= 1], no wider than [chunk]
    columns; the gather must fit: see [gather_fits].) *)
Theorem get_set_weights_roundtrip {V : Type} (zero : V) (fuel ws : nat)
  (embeddings : list Config) (name : string) (thr : option Z) (dp : bool)
  (mo : option (list Z)) (cluster : list (@Worker V)) (chunk : Z)
  (use_lock : bool) :
  (2 <= ws)%nat ->
  constructed fuel ws embeddings name thr dp mo cluster ->
  Forall (fun c => 1 <= input_dim c /\ 1 <= output_dim c <= chunk) embeddings ->
  (forall w, In w cluster -> gather_fits (plan (layer w)) ws) ->
  exists W,
    get_weights zero cluster 0 false = Ok W
    /\ (forall r, (r < ws)%nat -> get_weights zero cluster r true = Ok W)
    /\ Forall2 shaped embeddings W
    /\ mapM (fun w => set_weights w W chunk use_lock) cluster = Ok cluster.
Proof.
  intros Hws Hcluster Hd Hfits.
  assert (Forall (fun c => 1 <= input_dim c /\ 1 <= output_dim c) embeddings) as Hd1.
  { eapply Forall_impl; [|exact Hd]. cbv beta. intros c Hc. lia. }
  assert (Forall (fun c => output_dim c <= chunk) embeddings) as Hd2.
  { eapply Forall_impl; [|exact Hd]. cbv beta. intros c Hc. lia. }
  destruct (constructed_gather zero fuel ws embeddings name thr dp mo cluster
              Hws Hcluster Hd1)
    as (sliced & ranges & tids & Hsl & Ht & Hsup & Hemb & Hlayer & Hsh & _).
  assert (1 <= ws)%nat as Hws1 by lia. assert (ws <> 1%nat) as Hmulti by lia.
  destruct (held_saved fuel embeddings ws name thr _ sliced ranges tids
              Hws1 Hsup Hemb Hd1 Hsl Ht cluster Hsh) as (W & HW & Hheld).
  pose proof Hcluster as [Hlen _].
  assert (map (fun p : @Worker V * list (list (list V)) =>
                 mkWorker (layer (fst p)) (snd p))
              (combine cluster (per_worker (weight_slice W tids) [] tids))
          = cluster) as Hsame.
  { rewrite <- Hheld. apply workers_eta. }
  assert (Forall
            (fun cs => gather_num_chunks ws (per_worker (slice_config sliced) [] tids)
                       <= Py.sum (map elements cs))
            (per_worker (slice_config sliced) [] tids)) as Hfit.
  { destruct (nth_error cluster 0) as [w0|] eqn:Hw0;
      [|apply nth_error_None in Hw0; lia].
    specialize (Hfits w0 (nth_error_In _ _ Hw0)).
    destruct (Hlayer 0%nat w0 Hw0) as [_ Hl0]. rewrite Hl0 in Hfits. exact Hfits. }
  assert (forall r all_ranks self,
             nth_error cluster r = Some self ->
             all_ranks || (rank (layer self) =? 0)%nat = true ->
             get_weights zero cluster r all_ranks = Ok W) as Hget.
  { intros r all_ranks self Hr Hcond.
    pose proof (get_weights_loaded fuel embeddings ws name thr _ sliced ranges tids
                  Hws1 Hsup Hemb Hd1 Hsl Ht zero dp mo cluster W chunk
                  Hmulti eq_refl Hcluster HW Hd2 Hfit r self all_ranks Hws) as G.
    rewrite Hsame in G. exact (G Hr Hcond). }
  exists W. split; [|split; [|split]].
  - destruct (nth_error cluster 0) as [w0|] eqn:Hw0;
      [|apply nth_error_None in Hw0; lia].
    apply (Hget 0%nat false w0 Hw0).
    destruct (Hlayer 0%nat w0 Hw0) as [_ ->]. reflexivity.
  - intros r Hr.
    destruct (nth_error cluster r) as [w|] eqn:Hw;
      [|apply nth_error_None in Hw; lia].
    exact (Hget r true w Hw eq_refl).
  - exact HW.
  - pose proof (set_weights_all fuel embeddings ws name thr _ sliced ranges tids
                  Hws1 Hsup Hemb Hd1 Hsl Ht dp mo cluster W chunk use_lock
                  Hmulti eq_refl Hcluster HW Hd2) as S.
    rewrite Hsame in S. exact S.
Qed.

Lemma get_set_weights_roundtrip_witness :
  exists W,
    get_weights 0 example_loaded 0 false = Ok W
    /\ (forall r, (r < 2)%nat -> get_weights 0 example_loaded r true = Ok W)
    /\ Forall2 shaped example_embeddings W
    /\ mapM (fun w => set_weights w W 134217728 false) example_loaded
       = Ok example_loaded.
Proof.
  apply (get_set_weights_roundtrip 0 10 2 example_embeddings "basic" (Some 4) true
           None example_loaded 134217728 false).
  - lia.
  - split; [vm_compute; reflexivity|].
    intros [|[|r]] w Hw; vm_compute in Hw.
    + injection Hw as <-. split; [vm_compute; reflexivity|]. repeat constructor.
    + injection Hw as <-. split; [vm_compute; reflexivity|]. repeat constructor.
    + destruct r; discriminate.
  - exact example_dims.
  - intros w Hw. vm_compute in Hw. destruct Hw as [<-|[<-|[]]];
      vm_compute; repeat constructor; discriminate.
Defined.


(** * When the construction succeeds *)

Lemma maybe_slice_total (fuel : nat) (c : Config) (thr : option Z) (ws : nat) :
  1 <= output_dim c -> (1 <= ws)%nat ->
  match thr with Some t => 1 <= t | None => True end ->
  (enough_fuel c <= fuel)%nat ->
  exists slices, maybe_slice_table_column fuel c thr ws = Ok slices.
Proof.
  intros Hod Hws Hthr Hfuel. unfold maybe_slice_table_column.
  assert (exists n, halve_until_fits fuel thr 1
                      (inject_Z (input_dim c * output_dim c)) = Ok n) as [n Hn].
  { destruct thr as [t|].
    - now apply halve_until_fits_config.
    - destruct fuel; simpl; eauto. }
  rewrite Hn. cbn [bind].
  pose proof (halve_until_fits_ge _ _ _ _ _ (Z.le_refl 1) Hn) as Hn1.
  destruct (slice_columns_spec c n ws Hn1 Hws Hod) as (slices & Hs & _).
  now exists slices.
Qed.

Lemma mapM_total {A B : Type} (f : A -> result B) (l : list A) :
  Forall (fun x => exists y, f x = Ok y) l -> exists r, mapM f l = Ok r.
Proof.
  induction 1 as [|x l [y Hy] _ [r IH]]; [now exists []|].
  exists (y :: r). cbn [mapM]. now rewrite Hy, IH.
Qed.

Lemma out_ranges_total (sliced : list (list Config)) (l : list (nat * Z)) :
  Forall (fun e => - Z.of_nat (length sliced) <= snd e < Z.of_nat (length sliced)) l ->
  exists ranges, out_ranges sliced l = Ok ranges.
Proof.
  induction 1 as [|[g t] l Ht _ [ranges IH]]; [now exists []|].
  cbn [out_ranges]. cbn [snd] in Ht.
  destruct (getitem_in_range sliced t Ht) as (sl & -> & _).
  cbn [bind]. rewrite IH. cbn [bind]. eauto.
Qed.

Lemma effective_map_in_range (embeddings : list Config) (mo : option (list Z)) :
  match mo with
  | Some m => Forall (fun t => - Z.of_nat (length embeddings) <= t
                               < Z.of_nat (length embeddings)) m
  | None => True
  end ->
  Forall (fun e : nat * Z => - Z.of_nat (length embeddings) <= snd e
                             < Z.of_nat (length embeddings))
         (Py.enumerate (effective_map embeddings mo)).
Proof.
  intros Hm.
  assert (Forall (fun t => - Z.of_nat (length embeddings) <= t
                           < Z.of_nat (length embeddings))
                 (effective_map embeddings mo)) as H.
  { destruct mo as [m|]; [exact Hm|]. unfold effective_map, Py.range.
    rewrite Nat2Z.id. apply Forall_map, Forall_forall. intros i Hi.
    apply in_seq in Hi. lia. }
  apply Forall_forall. intros [g t] Hin. cbn [snd].
  unfold Py.enumerate in Hin. apply in_combine_r in Hin.
  rewrite Forall_forall in H. now apply H.
Qed.




(** * [set_weights] with fewer arrays than tables *)

Lemma assign_all_prefix {V : Type} (chunk : Z) (cs : list Config)
  (vars : list (list (list V))) :
  Forall2 shaped cs vars ->
  Forall (fun c => 1 <= input_dim c /\ 1 <= output_dim c <= chunk) cs ->
  forall arrays,
    Forall2 shaped (firstn (length arrays) cs) arrays ->
    assign_all chunk vars arrays = Ok (arrays ++ skipn (length arrays) vars).
Proof.
  induction 1 as [|c v cs vars Hcv _ IH]; intros Hd [|a arrays] Ha;
    try reflexivity.
  - inversion Ha.
  - cbn [length firstn] in Ha. inversion Ha as [|? ? ? ? Hca Ha']; subst.
    inversion Hd as [|? ? [Hi Ho] Hd']; subst. cbn [assign_all].
    rewrite (assign_by_chunks_spec chunk _ _ v a Hcv Hca) by lia.
    cbn [bind]. rewrite (IH Hd' arrays Ha'). reflexivity.
Qed.

(** X21: on a single worker [set_weights] pairs the variables with the
    arrays by [zip]: given arrays for the first tables only, it loads these
    and leaves the other variables as they were, without an error. *)
Theorem set_weights_partial {V : Type} (self : @Worker V) (cs : list Config)
  (arrays : list (list (list V))) (chunk : Z) (use_lock : bool) :
  world_size (layer self) = 1%nat ->
  Forall2 shaped cs (weights self) ->
  Forall (fun c => 1 <= input_dim c /\ 1 <= output_dim c <= chunk) cs ->
  Forall2 shaped (firstn (length arrays) cs) arrays ->
  set_weights self arrays chunk use_lock
  = Ok (mkWorker (layer self) (arrays ++ skipn (length arrays) (weights self))).
Proof.
  intros Hws Hv Hd Ha. unfold set_weights. rewrite Hws.
  change (1 <? 1)%nat with false. cbv iota. cbn [bind].
  now rewrite (assign_all_prefix chunk cs (weights self) Hv Hd arrays Ha).
Qed.

Lemma set_weights_partial_witness :
  set_weights (nth 0 example_single example_rank1)
              [[[0; 1; 0; 1]; [1; 0; 1; 0]]] 134217728 false
  = Ok (mkWorker (layer (nth 0 example_single example_rank1))
                 [[[0; 1; 0; 1]; [1; 0; 1; 0]]; [[9]; [10]; [11]]]).
Proof.
  apply (set_weights_partial (nth 0 example_single example_rank1) example_embeddings
           [[[0; 1; 0; 1]; [1; 0; 1; 0]]] 134217728 false).
  - reflexivity.
  - exact example_shaped.
  - exact example_dims.
  - repeat constructor.
Defined.

(** X22: on a worker of a larger group [set_weights] needs the weights of
    every table the worker holds a slice of: a list that stops before one
    of them makes [weights[index]] raise [IndexError], and nothing is
    loaded. *)
Theorem set_weights_missing_table {V : Type} (self : @Worker V)
  (rank_ids : list nat) (t : nat) (new_weights : list (list (list V)))
  (chunk : Z) (use_lock : bool) :
  (1 < world_size (layer self))%nat ->
  nth_error (table_ids_list (plan (layer self))) (rank (layer self)) = Some rank_ids ->
  In t rank_ids -> (length new_weights <= t)%nat ->
  set_weights self new_weights chunk use_lock = Raise IndexError.
Proof.
  intros Hws Hids Ht Hshort. unfold set_weights.
  destruct (Nat.ltb_spec 1 (world_size (layer self))); [|lia].
  unfold local_slices, Py.getnat at 1. rewrite Hids. cbn [bind].
  now rewrite (mapM_getnat_missing new_weights rank_ids t Ht Hshort).
Qed.

Lemma set_weights_missing_table_witness :
  set_weights (nth 0 example_loaded example_rank1)
              [[[1; 2; 3; 4]; [5; 6; 7; 8]]] 134217728 false
  = Raise IndexError.
Proof.
  apply (set_weights_missing_table (nth 0 example_loaded example_rank1)
           [0%nat; 1%nat] 1%nat).
  - vm_compute. lia.
  - reflexivity.
  - simpl. auto.
  - simpl. lia.
Defined.

